(** * YarpSensorBridge::Impl — attachment, reconciliation and gating

    A shallow embedding of [YarpSensorBridgeImpl.h]
    (namespace [BipedalLocomotion::RobotInterface]) and the properties of
    its attachment strategies.

    Conventions of the embedding
    - a C++ interface pointer [T*] is an [option T]: [None] is [nullptr];
    - calling a method through a null pointer is undefined behaviour and is
      made explicit as the outcome [NullDereference]; indexing an Eigen
      vector outside its size is the outcome [IndexOutOfRange];
    - [std::unordered_map<std::string, V>] is a [gmap string V];
    - [std::vector<T>] is a [list T], [size_t] and loop counters are [nat],
      [int] channel counts and image sizes are [Z];
    - a parameter passed by reference is threaded through the result, a
      parameter passed by value is not;
    - messages written to [std::cerr] are kept (as [LogMessage]) where a
      property speaks about the error that is reported. *)

From Stdlib Require Import ZArith.
From stdpp Require Import gmap strings list fin_maps.

(** ** Outcomes and log messages *)

Inductive Outcome (A : Type) : Type :=
| Returned (a : A)
| NullDereference
| IndexOutOfRange.
Arguments Returned {A} a.
Arguments NullDereference {A}.
Arguments IndexOutOfRange {A}.

Inductive LogMessage : Type :=
| RequiredParameterNotAvailable (parameterName : string)
| ParametersListSizeMismatch
| CouldNotViewInterface
| CouldNotFindInterface
| ExpectingSameNumberOfMASSensors
| CouldNotAttachToMASSensor (masSensorName : string)
| CouldNotFindAtLeastOneRequiredSensor
| SensorBridgeNotReady (methodName : string).

(** ** YARP device interfaces

    Only the methods the bridge calls are kept.  A name getter returns its
    status flag together with the string left in the out-parameter. *)

Record IAnalogSensor := { analogGetChannels : Z }.
Record IGenericSensor := { genericGetChannels : Z }.

Record IThreeAxisGyroscopes := {
  getNrOfThreeAxisGyroscopes : nat;
  getThreeAxisGyroscopeName : nat -> bool * string }.
Record IThreeAxisLinearAccelerometers := {
  getNrOfThreeAxisLinearAccelerometers : nat;
  getThreeAxisLinearAccelerometerName : nat -> bool * string }.
Record IThreeAxisMagnetometers := {
  getNrOfThreeAxisMagnetometers : nat;
  getThreeAxisMagnetometerName : nat -> bool * string }.
Record IOrientationSensors := {
  getNrOfOrientationSensors : nat;
  getOrientationSensorName : nat -> bool * string }.
Record ISixAxisForceTorqueSensors := {
  getNrOfSixAxisForceTorqueSensors : nat;
  getSixAxisForceTorqueSensorName : nat -> bool * string }.

Record IEncodersTimed := { getAxes : nat }.
Record IAxisInfo := { getAxisName : nat -> string }.

Record IFrameGrabberImage := { frameGrabberId : nat }.
Record IRGBDSensor := { rgbdId : nat }.

(** [poly->view(ptr)]: the returned flag and the pointer left in [ptr]. *)
Record View (T : Type) := { viewOk : bool; viewPtr : option T }.
Arguments viewOk {T} _.
Arguments viewPtr {T} _.

Definition noView {T : Type} : View T := {| viewOk := false; viewPtr := None |}.
Definition hasView {T : Type} (i : T) : View T := {| viewOk := true; viewPtr := Some i |}.

Record PolyDriver := {
  viewAnalogSensor : View IAnalogSensor;
  viewGenericSensor : View IGenericSensor;
  viewGyroscopes : View IThreeAxisGyroscopes;
  viewAccelerometers : View IThreeAxisLinearAccelerometers;
  viewMagnetometers : View IThreeAxisMagnetometers;
  viewOrientationSensors : View IOrientationSensors;
  viewSixAxisFTSensors : View ISixAxisForceTorqueSensors;
  viewEncoders : View IEncodersTimed;
  viewAxis : View IAxisInfo;
  viewFrameGrabber : View IFrameGrabberImage;
  viewRGBD : View IRGBDSensor }.

(** An element of [yarp::dev::PolyDriverList]. *)
Record PolyDriverDescriptor := { key : string; poly : PolyDriver }.

(** The interface a template is instantiated at: which view it asks for. *)
Class Viewable (T : Type) := view : PolyDriver -> View T.

#[export] Instance viewable_framegrabber : Viewable IFrameGrabberImage := viewFrameGrabber.
#[export] Instance viewable_rgbd : Viewable IRGBDSensor := viewRGBD.
#[export] Instance viewable_encoders : Viewable IEncodersTimed := viewEncoders.
#[export] Instance viewable_axis : Viewable IAxisInfo := viewAxis.

(** The [if constexpr] chain of [attachGenericOrAnalogSensor]. *)
Class ChannelSensor (SensorType : Type) := {
  channel_viewable :: Viewable SensorType;
  getChannels : SensorType -> Z }.

#[export] Instance channel_analog : ChannelSensor IAnalogSensor :=
  {| channel_viewable := viewAnalogSensor; getChannels := analogGetChannels |}.
#[export] Instance channel_generic : ChannelSensor IGenericSensor :=
  {| channel_viewable := viewGenericSensor; getChannels := genericGetChannels |}.

(** The [if constexpr] chains of [getNumberOfMASSensors] and
    [getMASSensorName]. *)
Class MASSensor (MASSensorType : Type) := {
  mas_viewable :: Viewable MASSensorType;
  getNumberOfMASSensors : MASSensorType -> nat;
  getMASSensorName : MASSensorType -> nat -> bool * string }.

#[export] Instance mas_gyro : MASSensor IThreeAxisGyroscopes :=
  {| mas_viewable := viewGyroscopes;
     getNumberOfMASSensors := getNrOfThreeAxisGyroscopes;
     getMASSensorName := getThreeAxisGyroscopeName |}.
#[export] Instance mas_acc : MASSensor IThreeAxisLinearAccelerometers :=
  {| mas_viewable := viewAccelerometers;
     getNumberOfMASSensors := getNrOfThreeAxisLinearAccelerometers;
     getMASSensorName := getThreeAxisLinearAccelerometerName |}.
#[export] Instance mas_mag : MASSensor IThreeAxisMagnetometers :=
  {| mas_viewable := viewMagnetometers;
     getNumberOfMASSensors := getNrOfThreeAxisMagnetometers;
     getMASSensorName := getThreeAxisMagnetometerName |}.
#[export] Instance mas_orient : MASSensor IOrientationSensors :=
  {| mas_viewable := viewOrientationSensors;
     getNumberOfMASSensors := getNrOfOrientationSensors;
     getMASSensorName := getOrientationSensorName |}.
#[export] Instance mas_ft : MASSensor ISixAxisForceTorqueSensors :=
  {| mas_viewable := viewSixAxisFTSensors;
     getNumberOfMASSensors := getNrOfSixAxisForceTorqueSensors;
     getMASSensorName := getSixAxisForceTorqueSensorName |}.

Definition nrChannelsInYARPGenericIMUSensor : Z := 12.
Definition nrChannelsInYARPGenericCartesianWrench : Z := 6.
Definition nrChannelsInYARPAnalogSixAxisFTSensor : Z := 6.

(** ** Generic and legacy analog sensors *)

Section GenericOrAnalog.
Context {SensorType : Type} `{!ChannelSensor SensorType}.

(** [sensorMap] is passed by reference: it is returned with the flag. *)
Fixpoint attachGenericOrAnalogSensor (devList : list PolyDriverDescriptor)
    (sensorName : string) (nrChannelsInSensor : Z)
    (sensorMap : gmap string SensorType) : bool * gmap string SensorType :=
  match devList with
  | [] => (true, sensorMap)
  | dev :: devs =>
      if negb (String.eqb sensorName (key dev))
      then attachGenericOrAnalogSensor devs sensorName nrChannelsInSensor sensorMap
      else
        let v := view (T:=SensorType) (poly dev) in
        if viewOk v then
          match viewPtr v with
          | None => (false, sensorMap)
          | Some sensorInterface =>
              if negb (getChannels sensorInterface =? nrChannelsInSensor)%Z
              then (false, sensorMap)
              else attachGenericOrAnalogSensor devs sensorName nrChannelsInSensor
                     (<[key dev := sensorInterface]> sensorMap)
          end
        else (false, sensorMap)
  end.

(** The range-for loop with its [break]. *)
Fixpoint attachSensorsInList (devList : list PolyDriverDescriptor)
    (nrChannelsInSensor : Z) (sensorList : list string)
    (sensorMap : gmap string SensorType) : bool * gmap string SensorType :=
  match sensorList with
  | [] => (true, sensorMap)
  | sensorName :: rest =>
      let '(ok, sensorMap') :=
        attachGenericOrAnalogSensor devList sensorName nrChannelsInSensor sensorMap in
      if ok then attachSensorsInList devList nrChannelsInSensor rest sensorMap'
      else (false, sensorMap')
  end.

Definition attachAllGenericOrAnalogSensors (devList : list PolyDriverDescriptor)
    (sensorMap : gmap string SensorType) (nrChannelsInSensor : Z)
    (sensorList : list string) : bool * gmap string SensorType :=
  let '(allSensorsAttachedSuccesful, sensorMap') :=
    attachSensorsInList devList nrChannelsInSensor sensorList sensorMap in
  if negb allSensorsAttachedSuccesful
     || negb (size sensorMap' =? length sensorList)
  then (false, sensorMap')
  else (true, sensorMap').

(** A handle exposes the capability with the expected channel count. *)
Definition exposes (nrChannelsInSensor : Z) (dev : PolyDriverDescriptor) : Prop :=
  viewOk (view (T:=SensorType) (poly dev)) = true ∧
  ∃ sensorInterface : SensorType,
    viewPtr (view (T:=SensorType) (poly dev)) = Some sensorInterface ∧
    getChannels sensorInterface = nrChannelsInSensor.
End GenericOrAnalog.

(** ** Multiple analog sensor (MAS) aggregates *)

Section MAS.
Context {MASSensorType : Type} `{!MASSensor MASSensorType}.

(** The discovery loop: [broken] and the value of the parameter
    [masSensorInterface] when the loop is left. *)
Fixpoint scanForMASInterface (devList : list PolyDriverDescriptor)
    (masSensorInterface : option MASSensorType) : bool * option MASSensorType :=
  match devList with
  | [] => (false, masSensorInterface)
  | dev :: devs =>
      match viewPtr (view (T:=MASSensorType) (poly dev)) with
      | None => scanForMASInterface devs masSensorInterface
      | Some sensorInterface => (true, Some sensorInterface)
      end
  end.

(** [masSensorInterface] is a pointer passed by value.  The second
    component is the callee's own copy when the function returns; a
    caller only ever receives the first component. *)
Definition attachRemappedMASSensor (devList : list PolyDriverDescriptor)
    (masSensorInterface : option MASSensorType) : bool * option MASSensorType :=
  let '(broken, masSensorInterface') := scanForMASInterface devList masSensorInterface in
  if negb broken || negb (bool_decide (is_Some masSensorInterface'))
  then (false, masSensorInterface')
  else (true, masSensorInterface').

(** The inner loop over [attachedIdx]. *)
Definition masSensorFound (sensorInterface : MASSensorType) (nrSensors : nat)
    (masSensorName : string) : bool :=
  existsb (λ attachedIdx,
             let '(ok, attachedSensorName) :=
               getMASSensorName sensorInterface attachedIdx in
             ok && String.eqb attachedSensorName masSensorName)
          (seq 0 nrSensors).

(** The outer loop: the only effect of a missing name is a message. *)
Definition reportMissingMASSensors (sensorInterface : MASSensorType)
    (nrSensors : nat) (sensorList : list string) : list LogMessage :=
  flat_map (λ masSensorName,
              if masSensorFound sensorInterface nrSensors masSensorName
              then [] else [CouldNotAttachToMASSensor masSensorName])
           sensorList.

Definition checkAttachedMASSensors (devList : list PolyDriverDescriptor)
    (sensorInterface : option MASSensorType) (sensorList : list string)
    : Outcome (bool * list LogMessage) :=
  match sensorInterface with
  | None => NullDereference
  | Some iface =>
      let nrSensors := getNumberOfMASSensors iface in
      if negb (nrSensors =? length sensorList)
      then Returned (false, [ExpectingSameNumberOfMASSensors])
      else Returned (true, reportMissingMASSensors iface nrSensors sensorList)
  end.

Definition attachAndCheckMASSensors (devList : list PolyDriverDescriptor)
    (sensorInterface : option MASSensorType) (sensorList : list string)
    : Outcome (bool * list LogMessage) :=
  if negb (fst (attachRemappedMASSensor devList sensorInterface))
  then Returned (false, [CouldNotViewInterface; CouldNotFindInterface])
  else
    match checkAttachedMASSensors devList sensorInterface sensorList with
    | Returned (false, log) =>
        Returned (false, log ++ [CouldNotFindAtLeastOneRequiredSensor])
    | other => other
    end.

Definition getAllSensorsInMASInterface (sensorInterface : option MASSensorType)
    : Outcome (list string) :=
  match sensorInterface with
  | None => NullDereference
  | Some iface =>
      Returned (map (λ sensIdx, snd (getMASSensorName iface sensIdx))
                    (seq 0 (getNumberOfMASSensors iface)))
  end.
End MAS.

(** ** [std::sort] and [std::set_intersection] on [std::string] ranges *)

Fixpoint insertSorted (s : string) (l : list string) : list string :=
  match l with
  | [] => [s]
  | x :: xs => if String.ltb x s then x :: insertSorted s xs else s :: l
  end.

(** Strings that compare equal are identical, so every sorting algorithm
    yields this list. *)
Definition sortStrings (l : list string) : list string :=
  foldr insertSorted [] l.

(** The merge loop of [std::set_intersection]: advance the first range on
    [*first1 < *first2]; otherwise copy [*first1] unless [*first2 < *first1],
    and advance the second range. *)
Fixpoint set_intersection (l1 l2 : list string) : list string :=
  match l1 with
  | [] => []
  | x :: xs =>
      (fix against (l2 : list string) : list string :=
         match l2 with
         | [] => []
         | y :: ys =>
             if String.ltb x y then set_intersection xs l2
             else if negb (String.ltb y x) then x :: set_intersection xs ys
             else against ys
         end) l2
  end.

(** ** Cameras *)

Section Cameras.
Context {CameraType : Type} `{!Viewable CameraType}.

Fixpoint attachCamera (devList : list PolyDriverDescriptor) (sensorName : string)
    (sensorMap : gmap string CameraType) : bool * gmap string CameraType :=
  match devList with
  | [] => (true, sensorMap)
  | dev :: devs =>
      if negb (String.eqb sensorName (key dev))
      then attachCamera devs sensorName sensorMap
      else
        let v := view (T:=CameraType) (poly dev) in
        if viewOk v then
          match viewPtr v with
          | None => (false, sensorMap)
          | Some cameraInterface =>
              attachCamera devs sensorName (<[key dev := cameraInterface]> sensorMap)
          end
        else attachCamera devs sensorName sensorMap
  end.

Fixpoint attachCamerasInList (devList : list PolyDriverDescriptor)
    (camList : list string) (sensorMap : gmap string CameraType)
    : bool * gmap string CameraType :=
  match camList with
  | [] => (true, sensorMap)
  | cam :: cams =>
      let '(ok, sensorMap') := attachCamera devList cam sensorMap in
      if ok then attachCamerasInList devList cams sensorMap'
      else (false, sensorMap')
  end.
End Cameras.

(** An [Eigen::MatrixXd] image buffer, by its shape (rows, columns). *)
Definition ImageBuffer : Type := Z * Z.

(** [imgBuffersMap[cam].resize(imgDim.first, imgDim.second)]: [operator[]]
    creates the entry when it is missing. *)
Fixpoint resizeImageBuffers (camList : list string)
    (imgDimensionsMap : gmap string (Z * Z))
    (imgBuffersMap : gmap string ImageBuffer) : bool * gmap string ImageBuffer :=
  match camList with
  | [] => (true, imgBuffersMap)
  | cam :: cams =>
      match imgDimensionsMap !! cam with
      | None => (false, imgBuffersMap)
      | Some imgDim =>
          resizeImageBuffers cams imgDimensionsMap
            (<[cam := (imgDim.1, imgDim.2)]> imgBuffersMap)
      end
  end.

Definition attachAllCamerasOfSpecificType {CameraType : Type} `{!Viewable CameraType}
    (devList : list PolyDriverDescriptor) (camList : list string)
    (imgDimensionsMap : gmap string (Z * Z))
    (sensorMap : gmap string CameraType)
    (imgBuffersMap : gmap string ImageBuffer)
    : bool * gmap string CameraType * gmap string ImageBuffer :=
  let '(ok, sensorMap') := attachCamerasInList devList camList sensorMap in
  if negb ok then (false, sensorMap', imgBuffersMap)
  else if negb (size sensorMap' =? length camList)
  then (false, sensorMap', imgBuffersMap)
  else
    let '(resized, imgBuffersMap') :=
      resizeImageBuffers camList imgDimensionsMap imgBuffersMap in
    if negb resized then (false, sensorMap', imgBuffersMap')
    else (true, sensorMap', imgBuffersMap').

(** ** Configuration *)

(** Modelled from the spec: the declaration of [SensorBridgeMetaData] (the
    typed record of enabled categories, expected instance-name lists and
    per-category options) is not among the sources; these are the fields
    the implementation reads and writes. *)
Record SensorLists := {
  jointsList : list string;
  IMUsList : list string;
  linearAccelerometersList : list string;
  gyroscopesList : list string;
  orientationSensorsList : list string;
  magnetometersList : list string;
  sixAxisForceTorqueSensorsList : list string;
  cartesianWrenchesList : list string;
  rgbCamerasList : list string;
  depthCamerasList : list string }.

Record SensorBridgeOptions := {
  isKinematicsEnabled : bool;
  isIMUEnabled : bool;
  isLinearAccelerometerEnabled : bool;
  isGyroscopeEnabled : bool;
  isOrientationSensorEnabled : bool;
  isMagnetometerEnabled : bool;
  isSixAxisForceTorqueSensorEnabled : bool;
  isCartesianWrenchEnabled : bool;
  isCameraEnabled : bool;
  nrJoints : nat;
  imgDimensions : gmap string (Z * Z) }.

Record SensorBridgeMetaData := {
  sensorsList : SensorLists;
  bridgeOptions : SensorBridgeOptions }.

Definition set_jointsList (l : list string) (s : SensorLists) : SensorLists :=
  let 'Build_SensorLists _ imu acc gyro ori mag ft cw rgb depth := s in
  Build_SensorLists l imu acc gyro ori mag ft cw rgb depth.

Definition set_rgbCamerasList (l : list string) (s : SensorLists) : SensorLists :=
  let 'Build_SensorLists j imu acc gyro ori mag ft cw _ depth := s in
  Build_SensorLists j imu acc gyro ori mag ft cw l depth.

Definition set_depthCamerasList (l : list string) (s : SensorLists) : SensorLists :=
  let 'Build_SensorLists j imu acc gyro ori mag ft cw rgb _ := s in
  Build_SensorLists j imu acc gyro ori mag ft cw rgb l.

Definition set_isCameraEnabled (b : bool) (o : SensorBridgeOptions) : SensorBridgeOptions :=
  let 'Build_SensorBridgeOptions kin imu acc gyro ori mag ft cw _ n dims := o in
  Build_SensorBridgeOptions kin imu acc gyro ori mag ft cw b n dims.

Definition set_nrJoints (n : nat) (o : SensorBridgeOptions) : SensorBridgeOptions :=
  let 'Build_SensorBridgeOptions kin imu acc gyro ori mag ft cw cam _ dims := o in
  Build_SensorBridgeOptions kin imu acc gyro ori mag ft cw cam n dims.

Definition set_imgDimensions (dims : gmap string (Z * Z)) (o : SensorBridgeOptions)
    : SensorBridgeOptions :=
  let 'Build_SensorBridgeOptions kin imu acc gyro ori mag ft cw cam n _ := o in
  Build_SensorBridgeOptions kin imu acc gyro ori mag ft cw cam n dims.

Definition with_sensorsList (f : SensorLists -> SensorLists) (m : SensorBridgeMetaData)
    : SensorBridgeMetaData :=
  {| sensorsList := f (sensorsList m); bridgeOptions := bridgeOptions m |}.

Definition with_bridgeOptions (f : SensorBridgeOptions -> SensorBridgeOptions)
    (m : SensorBridgeMetaData) : SensorBridgeMetaData :=
  {| sensorsList := sensorsList m; bridgeOptions := f (bridgeOptions m) |}.

(** Modelled from the spec: [IParametersHandler::getParameter] is declared
    outside the sources.  Following the accessor contract, a handler is a
    key/value store of typed lists; a lookup stores the list in the output
    vector and returns [true] when the key is present with the requested
    type, and otherwise returns [false] and leaves the output vector as it
    was. *)
Inductive ParameterValue : Type :=
| StringList (l : list string)
| IntList (l : list Z).

Definition getStringListParameter (ptr : gmap string ParameterValue)
    (parameterName : string) (parameter : list string) : bool * list string :=
  match ptr !! parameterName with
  | Some (StringList l) => (true, l)
  | _ => (false, parameter)
  end.

Definition getIntListParameter (ptr : gmap string ParameterValue)
    (parameterName : string) (parameter : list Z) : bool * list Z :=
  match ptr !! parameterName with
  | Some (IntList l) => (true, l)
  | _ => (false, parameter)
  end.

(** [handler.lock()] of a [std::weak_ptr]: [None] when it has expired. *)
Definition Handler : Type := option (gmap string ParameterValue).

Definition configureRemoteControlBoardRemapper (handler : Handler)
    (metaData : SensorBridgeMetaData)
    : bool * list LogMessage * SensorBridgeMetaData :=
  match handler with
  | None => (false, [], metaData)
  | Some ptr =>
      let '(found, joints) :=
        getStringListParameter ptr "joints_list" (jointsList (sensorsList metaData)) in
      let metaData := with_sensorsList (set_jointsList joints) metaData in
      if negb found
      then (false, [RequiredParameterNotAvailable "joints_list"], metaData)
      else
        (true, [],
         with_bridgeOptions (set_nrJoints (length (jointsList (sensorsList metaData))))
                            metaData)
  end.

(** The loop filling [imgDimensions]: [idx] runs over the heights, and the
    size check before it has made the three vectors equally long. *)
Fixpoint storeImgDimensions (cameras : list string) (widths heights : list Z)
    (dims : gmap string (Z * Z)) : gmap string (Z * Z) :=
  match cameras, widths, heights with
  | cameraName :: cameras', w :: widths', h :: heights' =>
      storeImgDimensions cameras' widths' heights' (<[cameraName := (w, h)]> dims)
  | _, _, _ => dims
  end.

(** One of the two blocks of [configureCameras], for the keys of one camera
    type ([getList]/[setList] select [rgbCamerasList] or
    [depthCamerasList]).  A [false] flag is the block's [return false]. *)
Definition configureCameraType (ptr : gmap string ParameterValue)
    (listKey widthKey heightKey : string)
    (getList : SensorLists -> list string)
    (setList : list string -> SensorLists -> SensorLists)
    (metaData : SensorBridgeMetaData)
    : bool * list LogMessage * SensorBridgeMetaData :=
  let '(enabled, cameras) :=
    getStringListParameter ptr listKey (getList (sensorsList metaData)) in
  let metaData := with_sensorsList (setList cameras) metaData in
  if negb enabled then (true, [], metaData)
  else
    let metaData := with_bridgeOptions (set_isCameraEnabled true) metaData in
    let '(gotWidth, width) := getIntListParameter ptr widthKey [] in
    if gotWidth
    then (false, [RequiredParameterNotAvailable widthKey], metaData)
    else
      let '(gotHeight, height) := getIntListParameter ptr heightKey [] in
      if gotHeight
      then (false, [RequiredParameterNotAvailable heightKey], metaData)
      else if negb (length width =? length cameras)
              || negb (length height =? length cameras)
      then (false, [ParametersListSizeMismatch], metaData)
      else
        (true, [],
         with_bridgeOptions
           (λ o, set_imgDimensions
                   (storeImgDimensions cameras width height (imgDimensions o)) o)
           metaData).

Definition configureCameras (handler : Handler) (metaData : SensorBridgeMetaData)
    : bool * list LogMessage * SensorBridgeMetaData :=
  match handler with
  | None => (false, [], metaData)
  | Some ptr =>
      let '(ok, log, metaData) :=
        configureCameraType ptr "rgb_cameras_list" "rgb_image_width" "rgb_image_height"
                            rgbCamerasList set_rgbCamerasList metaData in
      if negb ok then (false, log, metaData)
      else
        configureCameraType ptr "depth_cameras_list" "depth_image_width"
                            "depth_image_height" depthCamerasList set_depthCamerasList
                            metaData
  end.

(** ** The implementation object *)

Record ControlBoardRemapperInterfaces := {
  encoders : option IEncodersTimed;
  axis : option IAxisInfo }.

Record WholeBodyMASInertialsInterface := {
  accelerometers : option IThreeAxisLinearAccelerometers;
  gyroscopes : option IThreeAxisGyroscopes;
  magnetometers : option IThreeAxisMagnetometers;
  orientationSensors : option IOrientationSensors }.

Record WholeBodyMASForceTorquesInterface := {
  sixAxisFTSensors : option ISixAxisForceTorqueSensors }.

(** The three [Eigen::VectorXd] buffers.  The remapped indices are stored
    as doubles holding small non-negative integers; the positions and
    velocities are only resized and zeroed here. *)
Record ControlBoardRemapperMeasures := {
  remappedJointIndices : list nat;
  jointPositions : list Z;
  jointVelocities : list Z }.

(** The members of [YarpSensorBridge::Impl] this header accesses. *)
Record Impl := {
  controlBoardRemapperInterfaces : ControlBoardRemapperInterfaces;
  wholeBodyMASInertialsInterface : WholeBodyMASInertialsInterface;
  wholeBodyMASForceTorquesInterface : WholeBodyMASForceTorquesInterface;
  wholeBodyAnalogIMUInterface : gmap string IGenericSensor;
  wholeBodyCartesianWrenchInterface : gmap string IGenericSensor;
  wholeBodyAnalogSixAxisFTSensorsInterface : gmap string IAnalogSensor;
  wholeBodyFrameGrabberInterface : gmap string IFrameGrabberImage;
  wholeBodyRGBDInterface : gmap string IRGBDSensor;
  controlBoardRemapperMeasures : ControlBoardRemapperMeasures;
  wholeBodyCameraImages : gmap string ImageBuffer;
  metaData : SensorBridgeMetaData;
  bridgeInitialized : bool;
  driversAttached : bool;
  sensorDryRunEnabled : bool }.

Definition set_controlBoardRemapperInterfaces (x : ControlBoardRemapperInterfaces)
    (i : Impl) : Impl :=
  let 'Build_Impl _ masI masFT imu cw ft fg rgbd meas img md bi da dry := i in
  Build_Impl x masI masFT imu cw ft fg rgbd meas img md bi da dry.

Definition set_wholeBodyAnalogIMUInterface (x : gmap string IGenericSensor)
    (i : Impl) : Impl :=
  let 'Build_Impl cb masI masFT _ cw ft fg rgbd meas img md bi da dry := i in
  Build_Impl cb masI masFT x cw ft fg rgbd meas img md bi da dry.

Definition set_wholeBodyCartesianWrenchInterface (x : gmap string IGenericSensor)
    (i : Impl) : Impl :=
  let 'Build_Impl cb masI masFT imu _ ft fg rgbd meas img md bi da dry := i in
  Build_Impl cb masI masFT imu x ft fg rgbd meas img md bi da dry.

Definition set_wholeBodyAnalogSixAxisFTSensorsInterface (x : gmap string IAnalogSensor)
    (i : Impl) : Impl :=
  let 'Build_Impl cb masI masFT imu cw _ fg rgbd meas img md bi da dry := i in
  Build_Impl cb masI masFT imu cw x fg rgbd meas img md bi da dry.

Definition set_wholeBodyFrameGrabberInterface (x : gmap string IFrameGrabberImage)
    (i : Impl) : Impl :=
  let 'Build_Impl cb masI masFT imu cw ft _ rgbd meas img md bi da dry := i in
  Build_Impl cb masI masFT imu cw ft x rgbd meas img md bi da dry.

Definition set_wholeBodyRGBDInterface (x : gmap string IRGBDSensor) (i : Impl) : Impl :=
  let 'Build_Impl cb masI masFT imu cw ft fg _ meas img md bi da dry := i in
  Build_Impl cb masI masFT imu cw ft fg x meas img md bi da dry.

Definition set_controlBoardRemapperMeasures (x : ControlBoardRemapperMeasures)
    (i : Impl) : Impl :=
  let 'Build_Impl cb masI masFT imu cw ft fg rgbd _ img md bi da dry := i in
  Build_Impl cb masI masFT imu cw ft fg rgbd x img md bi da dry.

Definition set_wholeBodyCameraImages (x : gmap string ImageBuffer) (i : Impl) : Impl :=
  let 'Build_Impl cb masI masFT imu cw ft fg rgbd meas _ md bi da dry := i in
  Build_Impl cb masI masFT imu cw ft fg rgbd meas x md bi da dry.

(** A member function returning [bool]: it may change the object, and may
    run into undefined behaviour. *)
Definition Attach : Type := Impl -> Outcome (bool * Impl).

(** [if (!step) return false;] followed by the rest of the body. *)
Definition orReturnFalse (step : Attach) (rest : Attach) : Attach :=
  λ impl,
    match step impl with
    | Returned (true, impl') => rest impl'
    | other => other
    end.

Notation "'must!' step ;; rest" := (orReturnFalse step rest)
  (at level 100, step at next level, right associativity).

Definition returnTrue : Attach := λ impl, Returned (true, impl).

(** [if (enabled) { ... }]. *)
Definition whenEnabled (enabled : SensorBridgeOptions -> bool) (body : Attach) : Attach :=
  λ impl, if enabled (bridgeOptions (metaData impl)) then body impl else returnTrue impl.

(** A template call whose only effect on the object is through one map. *)
Definition onMap {V : Type} (get : Impl -> gmap string V)
    (set : gmap string V -> Impl -> Impl)
    (call : gmap string V -> bool * gmap string V) : Attach :=
  λ impl, let '(ok, m) := call (get impl) in Returned (ok, set m impl).

(** A template call that receives a member pointer by value and leaves the
    object alone; its messages go to [std::cerr]. *)
Definition byValue {T : Type} (get : Impl -> option T)
    (call : option T -> Outcome (bool * list LogMessage)) : Attach :=
  λ impl,
    match call (get impl) with
    | Returned (ok, _) => Returned (ok, impl)
    | NullDereference => NullDereference
    | IndexOutOfRange => IndexOutOfRange
    end.

(** *** Validity gate *)

Definition checkValid (impl : Impl) (methodName : string) : bool * list LogMessage :=
  if negb (bridgeInitialized impl && driversAttached impl)
  then (false, [SensorBridgeNotReady methodName])
  else (true, []).

(** *** Inertial sensors *)

Definition attachAllInertials (devList : list PolyDriverDescriptor) : Attach :=
  must! whenEnabled isIMUEnabled (λ impl,
    onMap wholeBodyAnalogIMUInterface set_wholeBodyAnalogIMUInterface
      (λ sensorMap, attachAllGenericOrAnalogSensors devList sensorMap
                      nrChannelsInYARPGenericIMUSensor
                      (IMUsList (sensorsList (metaData impl)))) impl) ;;
  must! whenEnabled isLinearAccelerometerEnabled (λ impl,
    byValue (λ impl, accelerometers (wholeBodyMASInertialsInterface impl))
      (λ ptr, attachAndCheckMASSensors devList ptr
                (linearAccelerometersList (sensorsList (metaData impl)))) impl) ;;
  must! whenEnabled isGyroscopeEnabled (λ impl,
    byValue (λ impl, gyroscopes (wholeBodyMASInertialsInterface impl))
      (λ ptr, attachAndCheckMASSensors devList ptr
                (gyroscopesList (sensorsList (metaData impl)))) impl) ;;
  must! whenEnabled isOrientationSensorEnabled (λ impl,
    byValue (λ impl, orientationSensors (wholeBodyMASInertialsInterface impl))
      (λ ptr, attachAndCheckMASSensors devList ptr
                (orientationSensorsList (sensorsList (metaData impl)))) impl) ;;
  must! whenEnabled isMagnetometerEnabled (λ impl,
    byValue (λ impl, magnetometers (wholeBodyMASInertialsInterface impl))
      (λ ptr, attachAndCheckMASSensors devList ptr
                (magnetometersList (sensorsList (metaData impl)))) impl) ;;
  returnTrue.

(** *** Remapped remote control board *)

(** The discovery loop.  [ok] starts at [true] and is updated with
    [ok = ok && view(...)]: [&&] does not evaluate [view] once [ok] is
    [false], and then the member pointer keeps its value. *)
Fixpoint scanForControlBoard (devList : list PolyDriverDescriptor) (ok : bool)
    (interfaces : ControlBoardRemapperInterfaces)
    : bool * ControlBoardRemapperInterfaces :=
  match devList with
  | [] => (ok, interfaces)
  | dev :: devs =>
      let '(ok, axis') :=
        if ok
        then (viewOk (view (T:=IAxisInfo) (poly dev)),
              viewPtr (view (T:=IAxisInfo) (poly dev)))
        else (false, axis interfaces) in
      let '(ok, encoders') :=
        if ok
        then (viewOk (view (T:=IEncodersTimed) (poly dev)),
              viewPtr (view (T:=IEncodersTimed) (poly dev)))
        else (false, encoders interfaces) in
      let interfaces' := {| encoders := encoders'; axis := axis' |} in
      if ok then (true, interfaces')
      else scanForControlBoard devs ok interfaces'
  end.

Definition resetControlBoardBuffers (impl : Impl) : Impl :=
  let n := nrJoints (bridgeOptions (metaData impl)) in
  set_controlBoardRemapperMeasures
    {| remappedJointIndices := replicate n 0;
       jointPositions := replicate n 0%Z;
       jointVelocities := replicate n 0%Z |} impl.

(** The joint names of the attached control board, one [getAxisName] call
    per degree of freedom. *)
Definition readControlBoardJoints (axis : option IAxisInfo) (controlBoardDOFs : nat)
    : Outcome (list string) :=
  match controlBoardDOFs, axis with
  | 0, _ => Returned []
  | _, None => NullDereference
  | _, Some axisInfo => Returned (map (getAxisName axisInfo) (seq 0 controlBoardDOFs))
  end.

(** The inner loop over [DOF]: the index of the first control-board joint
    equal to the desired one, counted from [DOF]. *)
Fixpoint findControlBoardJoint (desiredJoint : string)
    (controlBoardJoints : list string) (DOF : nat) : option nat :=
  match controlBoardJoints with
  | [] => None
  | joint :: joints =>
      if String.eqb desiredJoint joint then Some DOF
      else findControlBoardJoint desiredJoint joints (S DOF)
  end.

(** The outer loop from [desiredDOF] on.  A result [Returned (false, _)]
    inside the loop is its [return false]; at the end of the list the flag
    is [jointFound] as the loop leaves it. *)
Fixpoint remapJoints (desiredJoints : list string) (desiredDOF : nat)
    (controlBoardJoints : list string) (jointFound : bool)
    (remapped : list nat) : Outcome (bool * list nat) :=
  match desiredJoints with
  | [] => Returned (jointFound, remapped)
  | desiredJoint :: rest =>
      match findControlBoardJoint desiredJoint controlBoardJoints 0 with
      | Some DOF =>
          if bool_decide (desiredDOF < length remapped)
          then remapJoints rest (S desiredDOF) controlBoardJoints true
                           (<[desiredDOF := DOF]> remapped)
          else IndexOutOfRange
      | None => Returned (false, remapped)
      end
  end.

Definition compareControlBoardJointsList : Attach :=
  λ impl,
    match encoders (controlBoardRemapperInterfaces impl) with
    | None => NullDereference
    | Some encodersTimed =>
        let controlBoardDOFs := getAxes encodersTimed in
        match readControlBoardJoints (axis (controlBoardRemapperInterfaces impl))
                                     controlBoardDOFs with
        | Returned controlBoardJoints =>
            let measures := controlBoardRemapperMeasures impl in
            match remapJoints (jointsList (sensorsList (metaData impl))) 0
                              controlBoardJoints false
                              (remappedJointIndices measures) with
            | Returned (jointFound, remapped) =>
                let impl' :=
                  set_controlBoardRemapperMeasures
                    {| remappedJointIndices := remapped;
                       jointPositions := jointPositions measures;
                       jointVelocities := jointVelocities measures |} impl in
                if negb jointFound then Returned (false, impl')
                else if forallb (λ idx, bool_decide (idx < length controlBoardJoints))
                                remapped
                then Returned (true, impl')
                else IndexOutOfRange
            | NullDereference => NullDereference
            | IndexOutOfRange => IndexOutOfRange
            end
        | NullDereference => NullDereference
        | IndexOutOfRange => IndexOutOfRange
        end
    end.

(** The discovery step of [attachRemappedRemoteControlBoard]. *)
Definition discoverControlBoard (devList : list PolyDriverDescriptor) : Attach :=
  λ impl,
    let '(ok, interfaces) :=
      scanForControlBoard devList true (controlBoardRemapperInterfaces impl) in
    Returned (ok, set_controlBoardRemapperInterfaces interfaces impl).

Definition attachRemappedRemoteControlBoard (devList : list PolyDriverDescriptor)
    : Attach :=
  λ impl,
    if negb (isKinematicsEnabled (bridgeOptions (metaData impl)))
    then Returned (true, impl)
    else
      (must! discoverControlBoard devList ;;
       λ impl, compareControlBoardJointsList (resetControlBoardBuffers impl)) impl.

(** *** Six axis force torque sensors *)

(** The name list [analogFTSensors] handed to the analog attachment. *)
Definition analogFTSensors (devList : list PolyDriverDescriptor) (impl : Impl)
    : Outcome (list string) :=
  let masInterface := sixAxisFTSensors (wholeBodyMASForceTorquesInterface impl) in
  let copySensorsList := sixAxisForceTorqueSensorsList (sensorsList (metaData impl)) in
  if fst (attachRemappedMASSensor devList masInterface)
  then
    match getAllSensorsInMASInterface masInterface with
    | Returned MASFTs =>
        Returned (set_intersection (sortStrings MASFTs) (sortStrings copySensorsList))
    | NullDereference => NullDereference
    | IndexOutOfRange => IndexOutOfRange
    end
  else Returned copySensorsList.

Definition attachAllSixAxisForceTorqueSensors (devList : list PolyDriverDescriptor)
    : Attach :=
  λ impl,
    if negb (isSixAxisForceTorqueSensorEnabled (bridgeOptions (metaData impl)))
    then Returned (true, impl)
    else
      match analogFTSensors devList impl with
      | Returned names =>
          onMap wholeBodyAnalogSixAxisFTSensorsInterface
                set_wholeBodyAnalogSixAxisFTSensorsInterface
                (λ sensorMap, attachAllGenericOrAnalogSensors devList sensorMap
                                nrChannelsInYARPAnalogSixAxisFTSensor names) impl
      | NullDereference => NullDereference
      | IndexOutOfRange => IndexOutOfRange
      end.

(** *** Cartesian wrenches *)

Definition attachCartesianWrenchInterface (devList : list PolyDriverDescriptor)
    : Attach :=
  λ impl,
    if negb (isCartesianWrenchEnabled (bridgeOptions (metaData impl)))
    then Returned (true, impl)
    else
      (must! whenEnabled isCartesianWrenchEnabled (λ impl,
         onMap wholeBodyCartesianWrenchInterface set_wholeBodyCartesianWrenchInterface
           (λ sensorMap, attachAllGenericOrAnalogSensors devList sensorMap
                           nrChannelsInYARPGenericCartesianWrench
                           (cartesianWrenchesList (sensorsList (metaData impl)))) impl) ;;
       returnTrue) impl.

(** *** Cameras *)

Definition attachCamerasOfType {CameraType : Type} `{!Viewable CameraType}
    (devList : list PolyDriverDescriptor) (camList : Impl -> list string)
    (get : Impl -> gmap string CameraType)
    (set : gmap string CameraType -> Impl -> Impl) : Attach :=
  λ impl,
    let '(ok, sensorMap, imgBuffersMap) :=
      attachAllCamerasOfSpecificType devList (camList impl)
        (imgDimensions (bridgeOptions (metaData impl)))
        (get impl) (wholeBodyCameraImages impl) in
    Returned (ok, set_wholeBodyCameraImages imgBuffersMap (set sensorMap impl)).

Definition attachAllCameras (devList : list PolyDriverDescriptor) : Attach :=
  λ impl,
    if negb (isCameraEnabled (bridgeOptions (metaData impl)))
    then Returned (true, impl)
    else
      (must! attachCamerasOfType devList
                (λ impl, rgbCamerasList (sensorsList (metaData impl)))
                wholeBodyFrameGrabberInterface set_wholeBodyFrameGrabberInterface ;;
       must! attachCamerasOfType devList
                (λ impl, depthCamerasList (sensorsList (metaData impl)))
                wholeBodyRGBDInterface set_wholeBodyRGBDInterface ;;
       returnTrue) impl.

(** ** Devices and configurations used in the examples *)

Definition noDriver : PolyDriver :=
  Build_PolyDriver noView noView noView noView noView noView noView noView noView
                   noView noView.

Definition plainDevice (name : string) : PolyDriverDescriptor :=
  {| key := name; poly := noDriver |}.

Definition analogSensorDevice (name : string) (channels : Z) : PolyDriverDescriptor :=
  {| key := name;
     poly := Build_PolyDriver (hasView {| analogGetChannels := channels |})
               noView noView noView noView noView noView noView noView noView noView |}.

Definition genericSensorDevice (name : string) (channels : Z) : PolyDriverDescriptor :=
  {| key := name;
     poly := Build_PolyDriver noView (hasView {| genericGetChannels := channels |})
               noView noView noView noView noView noView noView noView noView |}.

(** A name getter over a fixed list of sensor names. *)
Definition namesAt (names : list string) (idx : nat) : bool * string :=
  match names !! idx with
  | Some name => (true, name)
  | None => (false, EmptyString)
  end.

Definition gyroscopesReporting (names : list string) : IThreeAxisGyroscopes :=
  {| getNrOfThreeAxisGyroscopes := length names;
     getThreeAxisGyroscopeName := namesAt names |}.

Definition sixAxisFTReporting (names : list string) : ISixAxisForceTorqueSensors :=
  {| getNrOfSixAxisForceTorqueSensors := length names;
     getSixAxisForceTorqueSensorName := namesAt names |}.

(** A MAS remapper exposing a gyroscope aggregate and a force-torque
    aggregate. *)
Definition masRemapperDevice (name : string) (gyros fts : list string)
    : PolyDriverDescriptor :=
  {| key := name;
     poly := Build_PolyDriver noView noView (hasView (gyroscopesReporting gyros))
               noView noView noView (hasView (sixAxisFTReporting fts))
               noView noView noView noView |}.

(** A remote control board remapper reporting [joints] in that order. *)
Definition controlBoardDevice (name : string) (joints : list string)
    : PolyDriverDescriptor :=
  {| key := name;
     poly := Build_PolyDriver noView noView noView noView noView noView noView
               (hasView {| getAxes := length joints |})
               (hasView {| getAxisName := λ DOF, default EmptyString (joints !! DOF) |})
               noView noView |}.

Definition cameraDevice (name : string) : PolyDriverDescriptor :=
  {| key := name;
     poly := Build_PolyDriver noView noView noView noView noView noView noView
               noView noView (hasView {| frameGrabberId := 0 |}) noView |}.

Definition noSensors : SensorLists :=
  Build_SensorLists [] [] [] [] [] [] [] [] [] [].

Definition allDisabled : SensorBridgeOptions :=
  Build_SensorBridgeOptions false false false false false false false false false 0 ∅.

Definition emptyMetaData : SensorBridgeMetaData :=
  {| sensorsList := noSensors; bridgeOptions := allDisabled |}.

(** The object as constructed: null interface pointers, empty maps and
    buffers, both state flags [false]. *)
Definition constructed (md : SensorBridgeMetaData) : Impl :=
  {| controlBoardRemapperInterfaces := {| encoders := None; axis := None |};
     wholeBodyMASInertialsInterface :=
       {| accelerometers := None; gyroscopes := None;
          magnetometers := None; orientationSensors := None |};
     wholeBodyMASForceTorquesInterface := {| sixAxisFTSensors := None |};
     wholeBodyAnalogIMUInterface := ∅;
     wholeBodyCartesianWrenchInterface := ∅;
     wholeBodyAnalogSixAxisFTSensorsInterface := ∅;
     wholeBodyFrameGrabberInterface := ∅;
     wholeBodyRGBDInterface := ∅;
     controlBoardRemapperMeasures :=
       {| remappedJointIndices := []; jointPositions := []; jointVelocities := [] |};
     wholeBodyCameraImages := ∅;
     metaData := md;
     bridgeInitialized := false;
     driversAttached := false;
     sensorDryRunEnabled := false |}.

Definition withJoints (joints : list string) : SensorBridgeMetaData :=
  {| sensorsList := Build_SensorLists joints [] [] [] [] [] [] [] [] [];
     bridgeOptions :=
       Build_SensorBridgeOptions true false false false false false false false false
                                 (length joints) ∅ |}.

Definition withGyroscopes (names : list string) : SensorBridgeMetaData :=
  {| sensorsList := Build_SensorLists [] [] [] names [] [] [] [] [] [];
     bridgeOptions :=
       Build_SensorBridgeOptions false false false true false false false false false
                                 0 ∅ |}.

Definition withSixAxisForceTorqueSensors (names : list string) : SensorBridgeMetaData :=
  {| sensorsList := Build_SensorLists [] [] [] [] [] [] names [] [] [];
     bridgeOptions :=
       Build_SensorBridgeOptions false false false false false false true false false
                                 0 ∅ |}.

Definition withCartesianWrenches (names : list string) : SensorBridgeMetaData :=
  {| sensorsList := Build_SensorLists [] [] [] [] [] [] [] names [] [];
     bridgeOptions :=
       Build_SensorBridgeOptions false false false false false false false true false
                                 0 ∅ |}.

(** The generic IMU, six axis force torque and cartesian wrench categories
    enabled together. *)
Definition withGenericAndAnalogSensors (imus fts wrenches : list string)
    : SensorBridgeMetaData :=
  {| sensorsList := Build_SensorLists [] imus [] [] [] [] fts wrenches [] [];
     bridgeOptions :=
       Build_SensorBridgeOptions false true false false false false true true false
                                 0 ∅ |}.

(** The object with the MAS member pointers already referring to the
    given aggregates. *)
Definition withMASPointers (gyros : option IThreeAxisGyroscopes)
    (fts : option ISixAxisForceTorqueSensors) (i : Impl) : Impl :=
  let 'Build_Impl cb masI _ imu cw ft fg rgbd meas img md bi da dry := i in
  Build_Impl cb
    {| accelerometers := accelerometers masI; gyroscopes := gyros;
       magnetometers := magnetometers masI;
       orientationSensors := orientationSensors masI |}
    {| sixAxisFTSensors := fts |}
    imu cw ft fg rgbd meas img md bi da dry.

(** ** Notions used in the statements *)

(** The keys carried by the handles of a device list. *)
Definition keysOf (devList : list PolyDriverDescriptor) : gset string :=
  list_to_set (key <$> devList).

(** The MAS interface members of the object. *)
Definition masMembers (impl : Impl)
    : WholeBodyMASInertialsInterface * WholeBodyMASForceTorquesInterface :=
  (wholeBodyMASInertialsInterface impl, wholeBodyMASForceTorquesInterface impl).

Definition preservesMAS (a : Attach) : Prop :=
  ∀ impl ok impl', a impl = Returned (ok, impl') → masMembers impl' = masMembers impl.

Definition setterPreservesMAS {V : Type} (set : V → Impl → Impl) : Prop :=
  ∀ v impl, masMembers (set v impl) = masMembers impl.

(** A handler holding the given key/value pairs. *)
Definition handlerOf (entries : list (string * ParameterValue)) : Handler :=
  Some (list_to_map entries).

(** The buffers after resizing, in list order, those cameras of [cams]
    that have configured dimensions. *)
Definition resized (cams : list string) (imgDimensionsMap : gmap string (Z * Z))
    (imgBuffersMap : gmap string ImageBuffer) : gmap string ImageBuffer :=
  foldl (λ buffers cam,
           match imgDimensionsMap !! cam with
           | Some imgDim => <[cam := imgDim]> buffers
           | None => buffers
           end)
        imgBuffersMap cams.

(** [x] does not come after [y] in the order of [std::string::operator<]. *)
Definition notAfter (x y : string) : Prop := String.ltb y x = false.

(** A list in ascending order: every element is not after the ones that
    follow it. *)
Inductive ascending : list string → Prop :=
| ascending_nil : ascending []
| ascending_cons x l : Forall (notAfter x) l → ascending l → ascending (x :: l).


(** ** Sensor lookup *)

Definition checkSensor {SensorType : Type} (sensorMap : gmap string SensorType)
    (sensorName : string) : bool :=
  match sensorMap !! sensorName with
  | None => false
  | Some _ => true
  end.

(** A handle the record entry of [name] can come from. *)
Definition boundFrom {SensorType : Type} `{!ChannelSensor SensorType}
    (devList : list PolyDriverDescriptor) (nr : Z)
    (name : string) (iface : SensorType) : Prop :=
  ∃ dev, dev ∈ devList ∧ key dev = name ∧
         viewOk (view (T:=SensorType) (poly dev)) = true ∧
         viewPtr (view (T:=SensorType) (poly dev)) = Some iface ∧
         getChannels iface = nr.


(** No expected name is repeated, and every expected name has a matching
    handle in the list that exposes the capability with the expected
    channel count. *)
Definition allExposed {SensorType : Type} `{!ChannelSensor SensorType}
    (devList : list PolyDriverDescriptor) (nr : Z) (sensorList : list string) : Prop :=
  NoDup sensorList ∧
  ∀ name, name ∈ sensorList →
    ∃ dev, dev ∈ devList ∧ key dev = name ∧ exposes (SensorType:=SensorType) nr dev.

(** No handle of the list yields the force torque aggregate. *)
Definition noForceTorqueAggregate (devList : list PolyDriverDescriptor) : Prop :=
  ∀ dev, dev ∈ devList →
    viewPtr (view (T:=ISixAxisForceTorqueSensors) (poly dev)) = None.

(** The keys of the handles whose camera view is reported as available. *)
Definition viewableKeysOf {CameraType : Type} `{!Viewable CameraType}
    (devList : list PolyDriverDescriptor) : gset string :=
  list_to_set (key <$> filter (λ dev, viewOk (view (T:=CameraType) (poly dev)) = true)
                              devList).

(** A handle carrying [name] whose camera view is reported as available
    but comes back as a null pointer. *)
Definition nullCameraView {CameraType : Type} `{!Viewable CameraType}
    (name : string) (dev : PolyDriverDescriptor) : Prop :=
  key dev = name ∧
  viewOk (view (T:=CameraType) (poly dev)) = true ∧
  viewPtr (view (T:=CameraType) (poly dev)) = None.

(** The object once a control board has been bound and its buffers
    written. *)
Definition withControlBoard (interfaces : ControlBoardRemapperInterfaces)
    (remapped : list nat) (impl : Impl) : Impl :=
  let n := nrJoints (bridgeOptions (metaData impl)) in
  set_controlBoardRemapperMeasures
    {| remappedJointIndices := remapped;
       jointPositions := replicate n 0%Z;
       jointVelocities := replicate n 0%Z |}
    (set_controlBoardRemapperInterfaces interfaces impl).

(** Whether a handle offers both the axis view and the encoder view. *)
Definition offersControlBoard (dev : PolyDriverDescriptor) : bool :=
  viewOk (view (T:=IAxisInfo) (poly dev))
  && viewOk (view (T:=IEncodersTimed) (poly dev)).

(** No inertial MAS aggregate is referred to by the object. *)
Definition noInertialAggregates : WholeBodyMASInertialsInterface :=
  {| accelerometers := None; gyroscopes := None;
     magnetometers := None; orientationSensors := None |}.

(** Some inertial MAS category is enabled. *)
Definition inertialMASEnabled (o : SensorBridgeOptions) : bool :=
  isLinearAccelerometerEnabled o || isGyroscopeEnabled o
  || isOrientationSensorEnabled o || isMagnetometerEnabled o.

(** ** Remaining configuration loaders *)

Definition set_IMUsList (l : list string) (s : SensorLists) : SensorLists :=
  let 'Build_SensorLists j _ acc gyro ori mag ft cw rgb depth := s in
  Build_SensorLists j l acc gyro ori mag ft cw rgb depth.

Definition set_linearAccelerometersList (l : list string) (s : SensorLists) : SensorLists :=
  let 'Build_SensorLists j imu _ gyro ori mag ft cw rgb depth := s in
  Build_SensorLists j imu l gyro ori mag ft cw rgb depth.

Definition set_gyroscopesList (l : list string) (s : SensorLists) : SensorLists :=
  let 'Build_SensorLists j imu acc _ ori mag ft cw rgb depth := s in
  Build_SensorLists j imu acc l ori mag ft cw rgb depth.

Definition set_orientationSensorsList (l : list string) (s : SensorLists) : SensorLists :=
  let 'Build_SensorLists j imu acc gyro _ mag ft cw rgb depth := s in
  Build_SensorLists j imu acc gyro l mag ft cw rgb depth.

Definition set_magnetometersList (l : list string) (s : SensorLists) : SensorLists :=
  let 'Build_SensorLists j imu acc gyro ori _ ft cw rgb depth := s in
  Build_SensorLists j imu acc gyro ori l ft cw rgb depth.

Definition set_sixAxisForceTorqueSensorsList (l : list string) (s : SensorLists)
    : SensorLists :=
  let 'Build_SensorLists j imu acc gyro ori mag _ cw rgb depth := s in
  Build_SensorLists j imu acc gyro ori mag l cw rgb depth.

Definition set_cartesianWrenchesList (l : list string) (s : SensorLists) : SensorLists :=
  let 'Build_SensorLists j imu acc gyro ori mag ft _ rgb depth := s in
  Build_SensorLists j imu acc gyro ori mag ft l rgb depth.

Definition set_isIMUEnabled (b : bool) (o : SensorBridgeOptions) : SensorBridgeOptions :=
  let 'Build_SensorBridgeOptions kin _ acc gyro ori mag ft cw cam n dims := o in
  Build_SensorBridgeOptions kin b acc gyro ori mag ft cw cam n dims.

Definition set_isLinearAccelerometerEnabled (b : bool) (o : SensorBridgeOptions)
    : SensorBridgeOptions :=
  let 'Build_SensorBridgeOptions kin imu _ gyro ori mag ft cw cam n dims := o in
  Build_SensorBridgeOptions kin imu b gyro ori mag ft cw cam n dims.

Definition set_isGyroscopeEnabled (b : bool) (o : SensorBridgeOptions)
    : SensorBridgeOptions :=
  let 'Build_SensorBridgeOptions kin imu acc _ ori mag ft cw cam n dims := o in
  Build_SensorBridgeOptions kin imu acc b ori mag ft cw cam n dims.

Definition set_isOrientationSensorEnabled (b : bool) (o : SensorBridgeOptions)
    : SensorBridgeOptions :=
  let 'Build_SensorBridgeOptions kin imu acc gyro _ mag ft cw cam n dims := o in
  Build_SensorBridgeOptions kin imu acc gyro b mag ft cw cam n dims.

Definition set_isMagnetometerEnabled (b : bool) (o : SensorBridgeOptions)
    : SensorBridgeOptions :=
  let 'Build_SensorBridgeOptions kin imu acc gyro ori _ ft cw cam n dims := o in
  Build_SensorBridgeOptions kin imu acc gyro ori b ft cw cam n dims.

(** One [if (ptr->getParameter(key, list)) { flag = true; }] of
    [configureInertialSensors]. *)
Definition configureInertialList (ptr : gmap string ParameterValue) (listKey : string)
    (getList : SensorLists -> list string)
    (setList : list string -> SensorLists -> SensorLists)
    (setFlag : bool -> SensorBridgeOptions -> SensorBridgeOptions)
    (metaData : SensorBridgeMetaData) : SensorBridgeMetaData :=
  let '(found, l) :=
    getStringListParameter ptr listKey (getList (sensorsList metaData)) in
  let metaData := with_sensorsList (setList l) metaData in
  if found then with_bridgeOptions (setFlag true) metaData else metaData.

Definition configureInertialSensors (handler : Handler)
    (metaData : SensorBridgeMetaData)
    : bool * list LogMessage * SensorBridgeMetaData :=
  match handler with
  | None => (false, [], metaData)
  | Some ptr =>
      let metaData :=
        configureInertialList ptr "imu_list" IMUsList set_IMUsList
                              set_isIMUEnabled metaData in
      let metaData :=
        configureInertialList ptr "accelerometer_list" linearAccelerometersList
                              set_linearAccelerometersList
                              set_isLinearAccelerometerEnabled metaData in
      let metaData :=
        configureInertialList ptr "gyroscopes_list" gyroscopesList set_gyroscopesList
                              set_isGyroscopeEnabled metaData in
      let metaData :=
        configureInertialList ptr "orientation_sensors_list" orientationSensorsList
                              set_orientationSensorsList
                              set_isOrientationSensorEnabled metaData in
      let metaData :=
        configureInertialList ptr "magnetometers_list" magnetometersList
                              set_magnetometersList set_isMagnetometerEnabled metaData in
      (true, [], metaData)
  end.

(** The loaders with one required list. *)
Definition configureRequiredList (handler : Handler) (listKey : string)
    (getList : SensorLists -> list string)
    (setList : list string -> SensorLists -> SensorLists)
    (metaData : SensorBridgeMetaData)
    : bool * list LogMessage * SensorBridgeMetaData :=
  match handler with
  | None => (false, [], metaData)
  | Some ptr =>
      let '(found, l) :=
        getStringListParameter ptr listKey (getList (sensorsList metaData)) in
      let metaData := with_sensorsList (setList l) metaData in
      if negb found
      then (false, [RequiredParameterNotAvailable listKey], metaData)
      else (true, [], metaData)
  end.

Definition configureSixAxisForceTorqueSensors (handler : Handler)
    (metaData : SensorBridgeMetaData)
    : bool * list LogMessage * SensorBridgeMetaData :=
  configureRequiredList handler "sixaxis_forcetorque_sensors_list"
    sixAxisForceTorqueSensorsList set_sixAxisForceTorqueSensorsList metaData.

Definition configureCartesianWrenches (handler : Handler)
    (metaData : SensorBridgeMetaData)
    : bool * list LogMessage * SensorBridgeMetaData :=
  configureRequiredList handler "cartesian_wrenches_list"
    cartesianWrenchesList set_cartesianWrenchesList metaData.

(** Modelled from the spec: the top-level handler given to
    [subConfigLoader].  [IParametersHandler] is declared outside the
    sources.  The handler holds the integer parameters that switch the
    streams on, and [getParameter] on an integer follows the same accessor
    contract as on a list.  For every group name it holds the weak pointer
    that [getGroup] hands out; nothing is assumed about that pointer, in
    particular not whether it is alive when the group is missing. *)
Record ParametersHandler := {
  intParameters : gmap string Z;
  groups : string -> Handler }.

Definition getIntParameter (ptr : ParametersHandler) (parameterName : string)
    (parameter : Z) : bool * Z :=
  match intParameters ptr !! parameterName with
  | Some value => (true, value)
  | None => (false, parameter)
  end.

(** Modelled from the spec: [ptr->getGroup(name)], the weak pointer to the
    handler of the named group.  Its implementation is outside the
    sources, so the result is whatever the handler holds for that name:
    [None] is an expired pointer. *)
Definition getGroup (ptr : ParametersHandler) (name : string) : Handler :=
  groups ptr name.

(** The type of the loaders handed to [subConfigLoader]. *)
Definition SubConfigLoader : Type :=
  Handler -> SensorBridgeMetaData -> bool * list LogMessage * SensorBridgeMetaData.

(** [metaData] and [enableStreamFlag] are passed by reference and returned
    with the result; [static_cast<bool>] of an [int] is whether it is not
    zero.  The messages written to [std::cerr] are not kept. *)
Definition subConfigLoader (enableStreamString streamGroupString : string)
    (loader : SubConfigLoader) (handler : option ParametersHandler)
    (metaData : SensorBridgeMetaData) (enableStreamFlag : bool)
    : bool * SensorBridgeMetaData * bool :=
  match handler with
  | None => (false, metaData, enableStreamFlag)
  | Some ptr =>
      let '(found, success) := getIntParameter ptr enableStreamString 0%Z in
      if found then
        let enableStreamFlag := negb (success =? 0)%Z in
        if enableStreamFlag then
          let groupHandler := getGroup ptr streamGroupString in
          let '(ok, _, metaData) := loader groupHandler metaData in
          if negb ok then (false, metaData, enableStreamFlag)
          else (true, metaData, enableStreamFlag)
        else (true, metaData, enableStreamFlag)
      else (true, metaData, enableStreamFlag)
  end.

(** The keys of one camera type are accepted by [configureCameras]. *)
Definition cameraBlockAccepted (ptr : gmap string ParameterValue)
    (listKey widthKey heightKey : string) : Prop :=
  match ptr !! listKey with
  | Some (StringList cameras) =>
      cameras = [] ∧
      (∀ widths, ptr !! widthKey ≠ Some (IntList widths)) ∧
      (∀ heights, ptr !! heightKey ≠ Some (IntList heights))
  | _ => True
  end.

(** The inertial categories of [configureInertialSensors], with the key,
    the name list and the flag of each. *)
Inductive InertialCategory : Type :=
| GenericIMU | LinearAccelerometer | Gyroscope | OrientationSensor | Magnetometer.

Definition inertialKey (c : InertialCategory) : string :=
  match c with
  | GenericIMU => "imu_list"
  | LinearAccelerometer => "accelerometer_list"
  | Gyroscope => "gyroscopes_list"
  | OrientationSensor => "orientation_sensors_list"
  | Magnetometer => "magnetometers_list"
  end.

Definition inertialList (c : InertialCategory) (md : SensorBridgeMetaData)
    : list string :=
  match c with
  | GenericIMU => IMUsList (sensorsList md)
  | LinearAccelerometer => linearAccelerometersList (sensorsList md)
  | Gyroscope => gyroscopesList (sensorsList md)
  | OrientationSensor => orientationSensorsList (sensorsList md)
  | Magnetometer => magnetometersList (sensorsList md)
  end.

Definition inertialFlag (c : InertialCategory) (md : SensorBridgeMetaData) : bool :=
  match c with
  | GenericIMU => isIMUEnabled (bridgeOptions md)
  | LinearAccelerometer => isLinearAccelerometerEnabled (bridgeOptions md)
  | Gyroscope => isGyroscopeEnabled (bridgeOptions md)
  | OrientationSensor => isOrientationSensorEnabled (bridgeOptions md)
  | Magnetometer => isMagnetometerEnabled (bridgeOptions md)
  end.

(** What [configureInertialSensors] leaves alone. *)
Definition nonInertialPart (md : SensorBridgeMetaData) :=
  (jointsList (sensorsList md), sixAxisForceTorqueSensorsList (sensorsList md),
   cartesianWrenchesList (sensorsList md), rgbCamerasList (sensorsList md),
   depthCamerasList (sensorsList md),
   isKinematicsEnabled (bridgeOptions md),
   isSixAxisForceTorqueSensorEnabled (bridgeOptions md),
   isCartesianWrenchEnabled (bridgeOptions md), isCameraEnabled (bridgeOptions md),
   nrJoints (bridgeOptions md), imgDimensions (bridgeOptions md)).

(** The block of [configureInertialSensors] that reads the list of one
    category. *)
Definition inertialStep (ptr : gmap string ParameterValue) (c : InertialCategory)
    (md : SensorBridgeMetaData) : SensorBridgeMetaData :=
  match c with
  | GenericIMU =>
      configureInertialList ptr "imu_list" IMUsList set_IMUsList set_isIMUEnabled md
  | LinearAccelerometer =>
      configureInertialList ptr "accelerometer_list" linearAccelerometersList
        set_linearAccelerometersList set_isLinearAccelerometerEnabled md
  | Gyroscope =>
      configureInertialList ptr "gyroscopes_list" gyroscopesList set_gyroscopesList
        set_isGyroscopeEnabled md
  | OrientationSensor =>
      configureInertialList ptr "orientation_sensors_list" orientationSensorsList
        set_orientationSensorsList set_isOrientationSensorEnabled md
  | Magnetometer =>
      configureInertialList ptr "magnetometers_list" magnetometersList
        set_magnetometersList set_isMagnetometerEnabled md
  end.

(** What the validity gate depends on, together with the configuration. *)
Definition gateState (impl : Impl) : SensorBridgeMetaData * bool * bool :=
  (metaData impl, bridgeInitialized impl, driversAttached impl).

Definition preservesGate (a : Attach) : Prop :=
  ∀ impl ok impl', a impl = Returned (ok, impl') → gateState impl' = gateState impl.

(** ** The bridge state machine

    The header holds the two state flags and the gate that reads them; the
    member functions that set the flags and the exposed read operations
    are outside the sources. *)

Definition set_metaData (x : SensorBridgeMetaData) (i : Impl) : Impl :=
  let 'Build_Impl cb masI masFT imu cw ft fg rgbd meas img _ bi da dry := i in
  Build_Impl cb masI masFT imu cw ft fg rgbd meas img x bi da dry.

Definition set_bridgeInitialized (x : bool) (i : Impl) : Impl :=
  let 'Build_Impl cb masI masFT imu cw ft fg rgbd meas img md _ da dry := i in
  Build_Impl cb masI masFT imu cw ft fg rgbd meas img md x da dry.

Definition set_driversAttached (x : bool) (i : Impl) : Impl :=
  let 'Build_Impl cb masI masFT imu cw ft fg rgbd meas img md bi _ dry := i in
  Build_Impl cb masI masFT imu cw ft fg rgbd meas img md bi x dry.

(** Modelled from the spec: the states of the bridge. *)
Inductive BridgeState : Type :=
| Uninitialized
| Initialized
| Attached
| Invalid.

(** Modelled from the spec: the operations that move the bridge from one
    state to another.  [loaded] is the outcome of reading the
    configuration: the meta data, or [None] when loading fails;
    [devList] is the device-handle list supplied to the attachment. *)
Inductive BridgeOperation : Type :=
| LoadConfiguration (loaded : option SensorBridgeMetaData)
| AttachDevices (devList : list PolyDriverDescriptor).

(** Modelled from the spec: loading the configuration is the operation of
    state Uninitialized and fails in every other state.  A successful load
    stores the meta data and sets [bridgeInitialized]; a failed one leaves
    the object as it was. *)
Definition loadConfiguration (loaded : option SensorBridgeMetaData) : Attach :=
  λ impl,
    if bridgeInitialized impl then Returned (false, impl)
    else
      match loaded with
      | None => Returned (false, impl)
      | Some md => Returned (true, set_bridgeInitialized true (set_metaData md impl))
      end.

(** Modelled from the spec: all enabled categories must succeed.  The
    attachment functions are those of the implementation, run in the order
    of the spec's list of sensor categories (joints, inertial sensors, six
    axis force torque sensors, cartesian wrenches, cameras) and stopping at
    the first one that fails. *)
Definition attachAllCategories (devList : list PolyDriverDescriptor) : Attach :=
  must! attachRemappedRemoteControlBoard devList ;;
  must! attachAllInertials devList ;;
  must! attachAllSixAxisForceTorqueSensors devList ;;
  must! attachCartesianWrenchInterface devList ;;
  must! attachAllCameras devList ;;
  returnTrue.

(** Modelled from the spec: attaching devices fails in state Uninitialized
    and leaves the object as it was.  In every other state it runs the
    attachment of all categories on the supplied list and records in
    [driversAttached] whether all of them succeeded: a failed attachment,
    also a repeated one, leaves the bridge Invalid. *)
Definition attachDevices (devList : list PolyDriverDescriptor) : Attach :=
  λ impl,
    if negb (bridgeInitialized impl) then Returned (false, impl)
    else
      match attachAllCategories devList impl with
      | Returned (ok, impl') => Returned (ok, set_driversAttached ok impl')
      | NullDereference => NullDereference
      | IndexOutOfRange => IndexOutOfRange
      end.

(** Modelled from the spec: the transition of a configuration load.
    Uninitialized becomes Initialized when the load succeeds; in every
    other state the operation is not valid and the state stays as it is. *)
Definition afterLoadConfiguration (ok : bool) (s : BridgeState) : BridgeState :=
  match s with
  | Uninitialized => if ok then Initialized else Uninitialized
  | _ => s
  end.

(** Modelled from the spec: the transition of an attachment.  From
    Initialized, Attached or Invalid it leads to Attached when it succeeds
    and to Invalid when it fails; in Uninitialized the operation is not
    valid and the state stays as it is. *)
Definition afterAttachDevices (ok : bool) (s : BridgeState) : BridgeState :=
  match s with
  | Uninitialized => Uninitialized
  | _ => if ok then Attached else Invalid
  end.

(** Modelled from the spec: one operation on the object, together with
    the state the bridge is in after it. *)
Definition stepBridge (op : BridgeOperation) (impl : Impl) (s : BridgeState)
    : Outcome (Impl * BridgeState) :=
  match op with
  | LoadConfiguration loaded =>
      match loadConfiguration loaded impl with
      | Returned (ok, impl') => Returned (impl', afterLoadConfiguration ok s)
      | NullDereference => NullDereference
      | IndexOutOfRange => IndexOutOfRange
      end
  | AttachDevices devList =>
      match attachDevices devList impl with
      | Returned (ok, impl') => Returned (impl', afterAttachDevices ok s)
      | NullDereference => NullDereference
      | IndexOutOfRange => IndexOutOfRange
      end
  end.

(** Modelled from the spec: a sequence of operations, run from left to
    right. *)
Fixpoint runBridge (ops : list BridgeOperation) (impl : Impl) (s : BridgeState)
    : Outcome (Impl * BridgeState) :=
  match ops with
  | [] => Returned (impl, s)
  | op :: rest =>
      match stepBridge op impl s with
      | Returned (impl', s') => runBridge rest impl' s'
      | NullDereference => NullDereference
      | IndexOutOfRange => IndexOutOfRange
      end
  end.

(** The values of [bridgeInitialized] and [driversAttached] that stand for
    a state of the bridge. *)
Definition flagsOf (s : BridgeState) : bool * bool :=
  match s with
  | Uninitialized => (false, false)
  | Initialized | Invalid => (true, false)
  | Attached => (true, true)
  end.

(** Modelled from the spec: an exposed read operation.  It asks the
    validity gate first, under its own method name, and reads from the
    object only when the gate lets it through. *)
Definition readWhenValid {A : Type} (methodName : string) (read : Impl -> A)
    (impl : Impl) : option A * list LogMessage :=
  let '(valid, log) := checkValid impl methodName in
  if negb valid then (None, log) else (Some (read impl), log).

(** * Properties *)

(** ** Finite-set counting facts *)

Lemma size_list_to_set_le (l : list string) :
  size (list_to_set l : gset string) ≤ length l.
Proof.
  induction l as [|x l IH].
  - rewrite list_to_set_nil, size_empty. done.
  - rewrite list_to_set_cons, size_union_alt, size_singleton. simpl.
    assert (size (list_to_set l ∖ {[x]} : gset string) ≤ size (list_to_set l : gset string))
      by (apply subseteq_size; set_solver).
    lia.
Qed.

Lemma size_list_to_set_NoDup (l : list string) :
  size (list_to_set l : gset string) = length l → NoDup l.
Proof.
  induction l as [|x l IH]; [constructor|].
  rewrite list_to_set_cons. simpl. intros Hsz.
  pose proof (size_list_to_set_le l) as Hle.
  destruct (decide (x ∈ l)) as [Hin|Hnin].
  - assert ({[x]} ∪ list_to_set l = (list_to_set l : gset string)) as Heq by set_solver.
    rewrite Heq in Hsz. lia.
  - constructor; [done|]. apply IH.
    rewrite size_union, size_singleton in Hsz; [lia|set_solver].
Qed.

Lemma size_inter_eq_length (l : list string) (K : gset string) :
  size (list_to_set l ∩ K) = length l ↔ NoDup l ∧ ∀ x, x ∈ l → x ∈ K.
Proof.
  split.
  - intros Hsz.
    pose proof (size_list_to_set_le l) as Hle.
    assert (size (list_to_set l ∩ K) ≤ size (list_to_set l : gset string)) as Hsub
      by (apply subseteq_size; set_solver).
    assert (list_to_set l ∩ K = list_to_set l) as Heq.
    { apply set_subseteq_size_eq; [set_solver|lia]. }
    split; [apply size_list_to_set_NoDup; lia|].
    intros x Hx. set_solver.
  - intros [Hnd Hin].
    assert (list_to_set l ∩ K = list_to_set l) as -> by set_solver.
    by apply size_list_to_set.
Qed.

(** ** Generic and legacy analog attachment *)

Section GenericOrAnalogFacts.
Context {SensorType : Type} `{!ChannelSensor SensorType}.

Lemma elem_of_keysOf (devList : list PolyDriverDescriptor) (name : string) :
  name ∈ keysOf devList ↔ ∃ dev, dev ∈ devList ∧ key dev = name.
Proof.
  unfold keysOf. rewrite elem_of_list_to_set, list_elem_of_fmap. naive_solver.
Qed.

(** One expected name: the call succeeds exactly when every handle with
    that key exposes the capability, and then the record has gained that
    key if some handle carries it. *)
Lemma attachGenericOrAnalogSensor_spec (devList : list PolyDriverDescriptor)
    (sensorName : string) (nr : Z) (sensorMap : gmap string SensorType) :
  let r := attachGenericOrAnalogSensor devList sensorName nr sensorMap in
  (r.1 = true ↔ ∀ dev, dev ∈ devList → key dev = sensorName → exposes nr dev) ∧
  (r.1 = true → dom r.2 = dom sensorMap ∪ ({[sensorName]} ∩ keysOf devList)).
Proof.
  revert sensorMap. induction devList as [|dev devs IH]; intros sensorMap; simpl.
  - split; [split; [intros _ d Hd; by apply elem_of_nil in Hd|done]|].
    intros _. unfold keysOf. set_solver.
  - destruct (String.eqb sensorName (key dev)) eqn:Hk; simpl.
    + apply String.eqb_eq in Hk.
      destruct (viewOk (view (poly dev))) eqn:Hok; simpl.
      2:{ split; [|done]. split; [done|]. intros Hall.
          destruct (Hall dev) as [Hv _]; [left|done|]. by rewrite Hv in Hok. }
      destruct (viewPtr (view (poly dev))) as [iface|] eqn:Hptr; simpl.
      2:{ split; [|done]. split; [done|]. intros Hall.
          destruct (Hall dev) as [_ (i & Hi & _)]; [left|done|]. by rewrite Hi in Hptr. }
      destruct (getChannels iface =? nr)%Z eqn:Hch; simpl.
      2:{ split; [|done]. split; [done|]. intros Hall.
          destruct (Hall dev) as [_ (i & Hi & Hc)]; [left|done|].
          apply Z.eqb_neq in Hch. rewrite Hi in Hptr. by injection Hptr as ->. }
      apply Z.eqb_eq in Hch.
      destruct (IH (<[key dev := iface]> sensorMap)) as [IH1 IH2].
      split.
      * rewrite IH1. split.
        -- intros Hall d Hd Hkd. apply elem_of_cons in Hd as [->|Hd]; [|by apply Hall].
           split; [done|]. by exists iface.
        -- intros Hall d Hd. apply Hall. by right.
      * intros Ht. rewrite (IH2 Ht), dom_insert_L.
        unfold keysOf. rewrite fmap_cons, list_to_set_cons. set_solver.
    + apply String.eqb_neq in Hk.
      destruct (IH sensorMap) as [IH1 IH2].
      split.
      * rewrite IH1. split.
        -- intros Hall d Hd Hkd. apply elem_of_cons in Hd as [->|Hd]; [congruence|].
           by apply Hall.
        -- intros Hall d Hd. apply Hall. by right.
      * intros Ht. rewrite (IH2 Ht).
        unfold keysOf. rewrite fmap_cons, list_to_set_cons. set_solver.
Qed.

Lemma attachSensorsInList_spec (devList : list PolyDriverDescriptor) (nr : Z)
    (sensorList : list string) (sensorMap : gmap string SensorType) :
  let r := attachSensorsInList devList nr sensorList sensorMap in
  (r.1 = true ↔
     ∀ name, name ∈ sensorList →
       ∀ dev, dev ∈ devList → key dev = name → exposes nr dev) ∧
  (r.1 = true →
     dom r.2 = dom sensorMap ∪ (list_to_set sensorList ∩ keysOf devList)).
Proof.
  revert sensorMap. induction sensorList as [|name rest IH]; intros sensorMap; simpl.
  - split; [split; [intros _ n Hn; by apply elem_of_nil in Hn|done]|].
    intros _. set_solver.
  - pose proof (attachGenericOrAnalogSensor_spec devList name nr sensorMap) as [H1 H2].
    destruct (attachGenericOrAnalogSensor devList name nr sensorMap) as [ok m'] eqn:Hone.
    simpl in H1, H2. destruct ok; simpl.
    + destruct (IH m') as [IH1 IH2]. split.
      * rewrite IH1. split.
        -- intros Hall n Hn. apply elem_of_cons in Hn as [->|Hn]; [by apply H1|by apply Hall].
        -- intros Hall n Hn. apply Hall. by right.
      * intros Ht. rewrite (IH2 Ht), (H2 eq_refl). set_solver.
    + split; [|done]. split; [done|]. intros Hall.
      apply H1. apply Hall. by left.
Qed.

(** The exact condition under which [attachAllGenericOrAnalogSensors]
    succeeds, for any record it starts from. *)
Lemma attachAllGenericOrAnalogSensors_exact (devList : list PolyDriverDescriptor)
    (sensorMap : gmap string SensorType) (nr : Z) (sensorList : list string) :
  (attachAllGenericOrAnalogSensors devList sensorMap nr sensorList).1 = true ↔
  (∀ name, name ∈ sensorList →
     ∀ dev, dev ∈ devList → key dev = name → exposes nr dev) ∧
  size (dom sensorMap ∪ (list_to_set sensorList ∩ keysOf devList)) = length sensorList.
Proof.
  unfold attachAllGenericOrAnalogSensors.
  pose proof (attachSensorsInList_spec devList nr sensorList sensorMap) as [H1 H2].
  destruct (attachSensorsInList devList nr sensorList sensorMap) as [ok m'] eqn:Hl.
  simpl in H1, H2. destruct ok; simpl.
  - rewrite <- H1. rewrite <- (H2 eq_refl), size_dom.
    destruct (size m' =? length sensorList) eqn:Hsz; simpl.
    + apply Nat.eqb_eq in Hsz. done.
    + apply Nat.eqb_neq in Hsz. split; [done|]. intros [_ ?]. done.
  - rewrite <- H1. split; [done|]. intros [? _]. done.
Qed.

End GenericOrAnalogFacts.

(** Starting from the empty record the object is constructed with, the
    attachment succeeds exactly when no expected name is repeated, every
    expected name is the key of some handle, and every handle carrying an
    expected name exposes the capability with the expected channel count. *)
Lemma attachAllGenericOrAnalogSensors_fresh_iff
    {SensorType : Type} `{!ChannelSensor SensorType}
    (devList : list PolyDriverDescriptor) (nr : Z) (sensorList : list string) :
  (attachAllGenericOrAnalogSensors (SensorType:=SensorType)
     devList ∅ nr sensorList).1 = true ↔
  NoDup sensorList ∧
  ∀ name, name ∈ sensorList →
    (∃ dev, dev ∈ devList ∧ key dev = name) ∧
    (∀ dev, dev ∈ devList → key dev = name → exposes (SensorType:=SensorType) nr dev).
Proof.
  rewrite attachAllGenericOrAnalogSensors_exact.
  rewrite dom_empty_L, (left_id_L ∅ (∪)), size_inter_eq_length.
  setoid_rewrite elem_of_keysOf. naive_solver.
Qed.

(** When the handles carry unique keys, the attachment into an empty
    record succeeds exactly when no expected name is repeated and every
    expected name has a matching handle that exposes the capability view
    with the expected number of channels. *)
Lemma attachAllGenericOrAnalogSensors_unique_keys_iff
    {SensorType : Type} `{!ChannelSensor SensorType}
    (devList : list PolyDriverDescriptor) (nr : Z) (sensorList : list string)
    (Hkeys : NoDup (key <$> devList)) :
  (attachAllGenericOrAnalogSensors (SensorType:=SensorType)
     devList ∅ nr sensorList).1 = true ↔
  allExposed (SensorType:=SensorType) devList nr sensorList.
Proof.
  rewrite attachAllGenericOrAnalogSensors_fresh_iff. unfold allExposed.
  split; intros [Hnd Hall]; (split; [done|]).
  - intros name Hname. destruct (Hall name Hname) as [(dev & Hdev & Hk) Hexp].
    exists dev. auto.
  - intros name Hname. destruct (Hall name Hname) as (dev & Hdev & Hk & Hexp).
    split; [by exists dev|].
    intros dev' Hdev' Hk'.
    assert (dev' = dev) as ->; [|done].
    apply list_elem_of_lookup in Hdev as [i Hi], Hdev' as [j Hj].
    assert (i = j) as ->.
    { eapply NoDup_lookup; [exact Hkeys| |].
      - rewrite list_lookup_fmap, Hi. simpl. by rewrite Hk.
      - rewrite list_lookup_fmap, Hj. simpl. by rewrite Hk'. }
    congruence.
Qed.

(** The record is a member that the attachment never clears: entries left
    by an earlier call count towards the size check. *)
Example attachAllGenericOrAnalogSensors_stale_record :
  (attachAllGenericOrAnalogSensors (SensorType:=IAnalogSensor) []
     {["r_leg_ft" := {| analogGetChannels := 6 |}]}
     nrChannelsInYARPAnalogSixAxisFTSensor ["r_leg_ft"]).1 = true.
Proof. vm_compute. reflexivity. Qed.

(** ** Joint remapping *)

Lemma findControlBoardJoint_Some (desiredJoint : string) (joints : list string)
    (start k : nat) :
  findControlBoardJoint desiredJoint joints start = Some k →
  ∃ pos, k = start + pos ∧ joints !! pos = Some desiredJoint ∧
         ∀ j, j < pos → joints !! j ≠ Some desiredJoint.
Proof.
  revert start. induction joints as [|joint joints IH]; intros start; simpl; [done|].
  destruct (String.eqb desiredJoint joint) eqn:Heq.
  - apply String.eqb_eq in Heq as ->. intros [= <-].
    exists 0. split; [lia|]. split; [done|]. intros j Hj. lia.
  - apply String.eqb_neq in Heq. intros Hfind.
    destruct (IH _ Hfind) as (pos & -> & Hpos & Hfirst).
    exists (S pos). split; [lia|]. split; [done|].
    intros [|j] Hj; simpl; [congruence|]. apply Hfirst. lia.
Qed.

Lemma findControlBoardJoint_None (desiredJoint : string) (joints : list string)
    (start : nat) :
  findControlBoardJoint desiredJoint joints start = None ↔ desiredJoint ∉ joints.
Proof.
  revert start. induction joints as [|joint joints IH]; intros start; simpl.
  - split; [intros _; apply not_elem_of_nil|done].
  - rewrite not_elem_of_cons. destruct (String.eqb desiredJoint joint) eqn:Heq.
    + apply String.eqb_eq in Heq. split; [done|]. intros [? _]. done.
    + apply String.eqb_neq in Heq. rewrite IH. naive_solver.
Qed.

(** What the outer loop leaves in the index buffer. *)
Lemma remapJoints_Returned (desiredJoints : list string) (desiredDOF : nat)
    (controlBoardJoints : list string) (jointFound : bool) (remapped : list nat)
    (found : bool) (remapped' : list nat) :
  remapJoints desiredJoints desiredDOF controlBoardJoints jointFound remapped
    = Returned (found, remapped') →
  length remapped' = length remapped ∧
  (∀ j, j < desiredDOF → remapped' !! j = remapped !! j) ∧
  (found = true →
   ∀ i name, desiredJoints !! i = Some name →
     ∃ k, remapped' !! (desiredDOF + i) = Some k ∧
          findControlBoardJoint name controlBoardJoints 0 = Some k).
Proof.
  revert desiredDOF jointFound remapped.
  induction desiredJoints as [|desired rest IH];
    intros desiredDOF jointFound remapped; simpl.
  - intros [= <- <-]. split; [done|]. split; [done|]. intros _ i name Hi. done.
  - destruct (findControlBoardJoint desired controlBoardJoints 0) as [DOF|] eqn:Hfind.
    2:{ intros [= <- <-]. split; [done|]. split; [done|]. done. }
    case_bool_decide as Hrange; [|done].
    intros Hrec. apply IH in Hrec as (Hlen & Hkeep & Hall).
    rewrite length_insert in Hlen. split; [done|]. split.
    + intros j Hj. rewrite Hkeep by lia. apply list_lookup_insert_ne. lia.
    + intros Hfound [|i] name Hi; simpl in Hi.
      * injection Hi as <-. exists DOF. split; [|done].
        rewrite Nat.add_0_r, Hkeep by lia. by apply list_lookup_insert_eq.
      * destruct (Hall Hfound i name Hi) as (k & Hk & Hfk).
        exists k. split; [|done]. by replace (desiredDOF + S i) with (S desiredDOF + i) by lia.
Qed.

(** With room for every canonical joint in the buffer, a canonical joint
    missing from the control board makes the loop return [false]. *)
Lemma remapJoints_absent (desiredJoints : list string) (desiredDOF : nat)
    (controlBoardJoints : list string) (jointFound : bool) (remapped : list nat) :
  desiredDOF + length desiredJoints ≤ length remapped →
  (∃ name, name ∈ desiredJoints ∧ name ∉ controlBoardJoints) →
  ∃ remapped',
    remapJoints desiredJoints desiredDOF controlBoardJoints jointFound remapped
      = Returned (false, remapped').
Proof.
  revert desiredDOF jointFound remapped.
  induction desiredJoints as [|desired rest IH];
    intros desiredDOF jointFound remapped; simpl; intros Hroom (name & Hin & Habs).
  - by apply elem_of_nil in Hin.
  - destruct (findControlBoardJoint desired controlBoardJoints 0) as [DOF|] eqn:Hfind.
    2:{ by eexists. }
    rewrite bool_decide_eq_true_2 by lia.
    apply IH; [rewrite length_insert; lia|].
    apply elem_of_cons in Hin as [->|Hin]; [|by exists name].
    apply (findControlBoardJoint_None _ _ 0) in Habs. congruence.
Qed.

(** The joint count stored at configuration time is the length of the
    canonical joint list. *)
Lemma configureRemoteControlBoardRemapper_nrJoints (handler : Handler)
    (md md' : SensorBridgeMetaData) (log : list LogMessage) :
  configureRemoteControlBoardRemapper handler md = (true, log, md') →
  nrJoints (bridgeOptions md') = length (jointsList (sensorsList md')).
Proof.
  unfold configureRemoteControlBoardRemapper.
  destruct handler as [ptr|]; [|done].
  destruct (getStringListParameter ptr "joints_list" _) as [found joints].
  destruct found; simpl; [|done].
  intros [= <- <-]. destruct md as [[] []]. reflexivity.
Qed.

(** C4. Let the control board be attached with the kinematics category
    enabled, the joint count being the length of the canonical joint list
    as configuration leaves it, and let [live] be the joint names of the
    control board that discovery binds.  If attachment succeeds, then for
    every canonical index [i] the remap entry is the position of the first
    occurrence of canonical joint [i] in [live], so
    [live[remap[i]] = canonical[i]].  If some canonical joint is absent
    from [live], the attachment of the whole category returns [false]. *)
Theorem attachRemappedRemoteControlBoard_remap
    (devList : list PolyDriverDescriptor) (impl : Impl)
    (encodersTimed : IEncodersTimed) (axisInfo : option IAxisInfo)
    (live : list string)
    (Henabled : isKinematicsEnabled (bridgeOptions (metaData impl)) = true)
    (HnrJoints : nrJoints (bridgeOptions (metaData impl))
                 = length (jointsList (sensorsList (metaData impl))))
    (Hscan : scanForControlBoard devList true (controlBoardRemapperInterfaces impl)
             = (true, {| encoders := Some encodersTimed; axis := axisInfo |}))
    (Hlive : readControlBoardJoints axisInfo (getAxes encodersTimed) = Returned live) :
  (∀ impl', attachRemappedRemoteControlBoard devList impl = Returned (true, impl') →
     ∀ i name, jointsList (sensorsList (metaData impl)) !! i = Some name →
       ∃ k, remappedJointIndices (controlBoardRemapperMeasures impl') !! i = Some k ∧
            live !! k = Some name ∧
            ∀ j, j < k → live !! j ≠ Some name) ∧
  ((∃ name, name ∈ jointsList (sensorsList (metaData impl)) ∧ name ∉ live) →
   ∃ impl', attachRemappedRemoteControlBoard devList impl = Returned (false, impl')).
Proof.
  unfold attachRemappedRemoteControlBoard, orReturnFalse, discoverControlBoard.
  rewrite Henabled, Hscan. simpl.
  destruct impl as [cb masI masFT imu cw ft fg rgbd meas img md bi da dry].
  simpl in *. unfold compareControlBoardJointsList. simpl. rewrite Hlive.
  destruct (remapJoints (jointsList (sensorsList md)) 0 live false
              (replicate (nrJoints (bridgeOptions md)) 0))
    as [[found remapped]| |] eqn:Hremap.
  - apply remapJoints_Returned in Hremap as Hspec.
    destruct Hspec as (Hlen & _ & Hall). split.
    + intros impl'. destruct found; simpl; [|done].
      destruct (forallb _ remapped); [|done].
      intros [= <-] i name Hi. simpl.
      destruct (Hall eq_refl i name Hi) as (k & Hk & Hfind).
      apply findControlBoardJoint_Some in Hfind as (pos & -> & Hpos & Hfirst).
      exists pos. done.
    + intros Habs.
      destruct (remapJoints_absent (jointsList (sensorsList md)) 0 live false
                  (replicate (nrJoints (bridgeOptions md)) 0)) as [r Hr];
        [rewrite length_replicate; lia|done|].
      rewrite Hr in Hremap. injection Hremap as <- <-. simpl. by eexists.
  - split; [done|]. intros Habs.
    destruct (remapJoints_absent (jointsList (sensorsList md)) 0 live false
                (replicate (nrJoints (bridgeOptions md)) 0)) as [r Hr];
      [rewrite length_replicate; lia|done|].
    by rewrite Hr in Hremap.
  - split; [done|]. intros Habs.
    destruct (remapJoints_absent (jointsList (sensorsList md)) 0 live false
                (replicate (nrJoints (bridgeOptions md)) 0)) as [r Hr];
      [rewrite length_replicate; lia|done|].
    by rewrite Hr in Hremap.
Qed.

Lemma attachRemappedRemoteControlBoard_remap_witness :
  let devList := [controlBoardDevice "remapper" ["r_hip_pitch"; "r_hip_roll"; "r_knee"]] in
  let impl := constructed (withJoints ["r_knee"; "r_hip_pitch"]) in
  let live := ["r_hip_pitch"; "r_hip_roll"; "r_knee"] in
  (∃ impl', attachRemappedRemoteControlBoard devList impl = Returned (true, impl') ∧
            remappedJointIndices (controlBoardRemapperMeasures impl') = [2; 0]) ∧
  (∀ impl', attachRemappedRemoteControlBoard devList impl = Returned (true, impl') →
     ∀ i name, ["r_knee"; "r_hip_pitch"] !! i = Some name →
       ∃ k, remappedJointIndices (controlBoardRemapperMeasures impl') !! i = Some k ∧
            live !! k = Some name ∧
            ∀ j, j < k → live !! j ≠ Some name).
Proof.
  intros devList impl live. split.
  - eexists. split; reflexivity.
  - apply (attachRemappedRemoteControlBoard_remap devList impl
             {| getAxes := 3 |}
             (Some {| getAxisName := λ DOF, default EmptyString (live !! DOF) |})
             live); reflexivity.
Defined.

(** A canonical joint the control board does not report. *)
Example attachRemappedRemoteControlBoard_absent_joint :
  ∃ impl',
    attachRemappedRemoteControlBoard
      [controlBoardDevice "remapper" ["r_hip_pitch"; "r_hip_roll"]]
      (constructed (withJoints ["r_hip_pitch"; "r_knee"])) = Returned (false, impl').
Proof. eexists. reflexivity. Qed.

(** ** Control board discovery *)

Lemma scanForControlBoard_false (devList : list PolyDriverDescriptor)
    (interfaces : ControlBoardRemapperInterfaces) :
  scanForControlBoard devList false interfaces = (false, interfaces).
Proof.
  revert interfaces. induction devList as [|dev devs IH]; intros [enc ax]; simpl; [done|].
  apply IH.
Qed.

(** Once the first handle lacks one of the two views, [ok] stays [false]:
    no later handle is asked for its views. *)
Lemma discoverControlBoard_first_handle_decides (dev : PolyDriverDescriptor)
    (devs : list PolyDriverDescriptor) (impl : Impl) :
  viewOk (view (T:=IAxisInfo) (poly dev))
    && viewOk (view (T:=IEncodersTimed) (poly dev)) = false →
  ∃ impl', discoverControlBoard (dev :: devs) impl = Returned (false, impl').
Proof.
  intros Hviews. unfold discoverControlBoard. simpl.
  destruct (viewOk (view (T:=IAxisInfo) (poly dev))); simpl in *.
  - rewrite Hviews, scanForControlBoard_false. by eexists.
  - rewrite scanForControlBoard_false. by eexists.
Qed.

(** C5, at the failing input: the second handle offers both the axis view
    and the encoder view, the first one neither; discovery fails, and so
    does the attachment. *)
Theorem discoverControlBoard_ignores_second_handle :
  let remapper := controlBoardDevice "remapper" ["r_hip_pitch"; "r_knee"] in
  let devList := [plainDevice "r_leg_ft"; remapper] in
  let impl := constructed (withJoints ["r_hip_pitch"; "r_knee"]) in
  remapper ∈ devList ∧
  viewOk (view (T:=IAxisInfo) (poly remapper)) = true ∧
  viewOk (view (T:=IEncodersTimed) (poly remapper)) = true ∧
  discoverControlBoard devList impl = Returned (false, impl) ∧
  attachRemappedRemoteControlBoard devList impl = Returned (false, impl) ∧
  (∃ impl', attachRemappedRemoteControlBoard [remapper] impl = Returned (true, impl')).
Proof.
  intros remapper devList impl.
  split; [apply elem_of_cons; right; apply elem_of_cons; by left|].
  repeat split; try reflexivity. eexists. reflexivity.
Qed.

(** ** MAS aggregates *)

Section MASFacts.
Context {MASSensorType : Type} `{!MASSensor MASSensorType}.

(** The discovery loop stops at the first handle whose view yields a
    non-null pointer. *)
Lemma scanForMASInterface_found (devList : list PolyDriverDescriptor)
    (masSensorInterface : option MASSensorType) :
  (scanForMASInterface devList masSensorInterface).1 = true ↔
  ∃ dev, dev ∈ devList ∧ is_Some (viewPtr (view (T:=MASSensorType) (poly dev))).
Proof.
  induction devList as [|dev devs IH]; simpl.
  - split; [done|]. intros (dev & Hdev & _). by apply elem_of_nil in Hdev.
  - destruct (viewPtr (view (T:=MASSensorType) (poly dev))) as [iface|] eqn:Hptr; simpl.
    + split; [|done]. intros _. exists dev. split; [by left|]. by rewrite Hptr.
    + rewrite IH. split; intros (d & Hd & Hsome).
      * exists d. split; [by right|done].
      * apply elem_of_cons in Hd as [->|Hd]; [|by exists d].
        rewrite Hptr in Hsome. by destruct Hsome.
Qed.

Lemma scanForMASInterface_copy (devList : list PolyDriverDescriptor)
    (masSensorInterface : option MASSensorType) :
  (scanForMASInterface devList masSensorInterface).1 = true →
  ∃ dev iface, dev ∈ devList ∧
    viewPtr (view (T:=MASSensorType) (poly dev)) = Some iface ∧
    (scanForMASInterface devList masSensorInterface).2 = Some iface.
Proof.
  induction devList as [|dev devs IH]; simpl; [done|].
  destruct (viewPtr (view (T:=MASSensorType) (poly dev))) as [iface|] eqn:Hptr; simpl.
  - intros _. exists dev, iface. split; [by left|done].
  - intros Hfound. destruct (IH Hfound) as (d & iface & Hd & Hv & Hcopy).
    exists d, iface. split; [by right|done].
Qed.

Lemma attachRemappedMASSensor_found (devList : list PolyDriverDescriptor)
    (masSensorInterface : option MASSensorType) :
  (attachRemappedMASSensor devList masSensorInterface).1 = true ↔
  ∃ dev, dev ∈ devList ∧ is_Some (viewPtr (view (T:=MASSensorType) (poly dev))).
Proof.
  rewrite <- (scanForMASInterface_found devList masSensorInterface).
  unfold attachRemappedMASSensor.
  pose proof (scanForMASInterface_copy devList masSensorInterface) as Hcopy.
  destruct (scanForMASInterface devList masSensorInterface) as [broken copy].
  simpl in *. destruct broken; simpl; [|done].
  destruct (Hcopy eq_refl) as (_ & iface & _ & _ & ->).
  rewrite bool_decide_eq_true_2 by done. done.
Qed.

(** With equal counts the check returns [true] whatever the names are. *)
Lemma checkAttachedMASSensors_same_count (devList : list PolyDriverDescriptor)
    (iface : MASSensorType) (sensorList : list string) :
  getNumberOfMASSensors iface = length sensorList →
  checkAttachedMASSensors devList (Some iface) sensorList
  = Returned (true, reportMissingMASSensors iface (length sensorList) sensorList).
Proof.
  intros Hnr. unfold checkAttachedMASSensors.
  rewrite Hnr, Nat.eqb_refl. reflexivity.
Qed.

End MASFacts.

(** C10. For every MAS category: when the count the aggregate reports
    differs from the number of expected names, the sensor check returns
    [false], whichever names the aggregate enumerates, and so does the
    attachment that runs it. *)
Theorem checkAttachedMASSensors_count_mismatch
    {MASSensorType : Type} `{!MASSensor MASSensorType}
    (devList : list PolyDriverDescriptor) (iface : MASSensorType)
    (sensorList : list string)
    (Hcount : getNumberOfMASSensors iface ≠ length sensorList) :
  checkAttachedMASSensors devList (Some iface) sensorList
    = Returned (false, [ExpectingSameNumberOfMASSensors]) ∧
  ∃ log, attachAndCheckMASSensors devList (Some iface) sensorList
         = Returned (false, log).
Proof.
  assert (checkAttachedMASSensors devList (Some iface) sensorList
          = Returned (false, [ExpectingSameNumberOfMASSensors])) as Hcheck.
  { unfold checkAttachedMASSensors.
    apply Nat.eqb_neq in Hcount. by rewrite Hcount. }
  split; [exact Hcheck|].
  unfold attachAndCheckMASSensors. rewrite Hcheck.
  destruct (attachRemappedMASSensor devList (Some iface)).1; simpl; by eexists.
Qed.

(** An aggregate with a strict superset of the expected gyroscopes. *)
Lemma checkAttachedMASSensors_count_mismatch_witness :
  let iface := gyroscopesReporting ["r_leg_ft_gyro"; "r_foot_front_ft_gyro"] in
  let devList := [masRemapperDevice "mas" ["r_leg_ft_gyro"; "r_foot_front_ft_gyro"] []] in
  getNumberOfMASSensors iface ≠ length ["r_leg_ft_gyro"] ∧
  masSensorFound iface (getNumberOfMASSensors iface) "r_leg_ft_gyro" = true ∧
  checkAttachedMASSensors devList (Some iface) ["r_leg_ft_gyro"]
    = Returned (false, [ExpectingSameNumberOfMASSensors]).
Proof.
  intros iface devList.
  assert (getNumberOfMASSensors iface ≠ length ["r_leg_ft_gyro"]) as Hcount
    by (simpl; lia).
  split; [exact Hcount|]. split; [reflexivity|].
  exact (proj1 (checkAttachedMASSensors_count_mismatch
                  devList iface ["r_leg_ft_gyro"] Hcount)).
Defined.

(** C3, at the failing input: gyroscopes are enabled with the expected
    list [r_leg_ft_gyro], the aggregate reports the single instance
    [r_leg_gyro].  With the member pointer referring to that aggregate the
    check writes the message for the missing sensor and returns [true];
    the attachment of the inertial sensors succeeds.  (With the member
    pointer as constructed the check dereferences a null pointer.) *)
Theorem attachAndCheckMASSensors_unmatched_name_succeeds :
  let aggregate := gyroscopesReporting ["r_leg_gyro"] in
  let devList := [masRemapperDevice "mas" ["r_leg_gyro"] []] in
  let md := withGyroscopes ["r_leg_ft_gyro"] in
  let impl := withMASPointers (Some aggregate) None (constructed md) in
  masSensorFound aggregate 1 "r_leg_ft_gyro" = false ∧
  checkAttachedMASSensors devList (Some aggregate) ["r_leg_ft_gyro"]
    = Returned (true, [CouldNotAttachToMASSensor "r_leg_ft_gyro"]) ∧
  attachAndCheckMASSensors devList (Some aggregate) ["r_leg_ft_gyro"]
    = Returned (true, [CouldNotAttachToMASSensor "r_leg_ft_gyro"]) ∧
  attachAllInertials devList impl = Returned (true, impl) ∧
  attachAllInertials devList (constructed md) = NullDereference.
Proof. intros aggregate devList md impl. repeat split; reflexivity. Qed.

(** *** Frame: which attachments leave the MAS interface members alone *)

Create HintDb frame.

Lemma preservesMAS_returnTrue : preservesMAS returnTrue.
Proof. intros impl ok impl' [= <- <-]. done. Qed.

Lemma preservesMAS_orReturnFalse (step rest : Attach) :
  preservesMAS step → preservesMAS rest → preservesMAS (orReturnFalse step rest).
Proof.
  intros Hstep Hrest impl ok impl'. unfold orReturnFalse.
  destruct (step impl) as [[[] mid]| |] eqn:Hs; try done.
  - intros Hr. rewrite (Hrest _ _ _ Hr). by eapply Hstep.
  - intros [= <- <-]. by eapply Hstep.
Qed.

Lemma preservesMAS_whenEnabled (enabled : SensorBridgeOptions → bool) (body : Attach) :
  preservesMAS body → preservesMAS (whenEnabled enabled body).
Proof.
  intros Hbody impl ok impl'. unfold whenEnabled.
  destruct (enabled _); [apply Hbody|apply preservesMAS_returnTrue].
Qed.

Lemma preservesMAS_onMap {V : Type} (get : Impl → gmap string V)
    (set : gmap string V → Impl → Impl)
    (call : Impl → gmap string V → bool * gmap string V) :
  setterPreservesMAS set → preservesMAS (λ impl, onMap get set (call impl) impl).
Proof.
  intros Hset impl ok impl'. unfold onMap.
  destruct (call impl (get impl)) as [b m]. intros [= <- <-]. apply Hset.
Qed.

Lemma preservesMAS_byValue {T : Type} (get : Impl → option T)
    (call : Impl → option T → Outcome (bool * list LogMessage)) :
  preservesMAS (λ impl, byValue get (call impl) impl).
Proof.
  intros impl ok impl'. unfold byValue.
  destruct (call impl (get impl)) as [[b log]| |]; try done. by intros [= <- <-].
Qed.

Lemma setterPreservesMAS_IMU : setterPreservesMAS set_wholeBodyAnalogIMUInterface.
Proof. by intros v []. Qed.

Lemma setterPreservesMAS_analogFT :
  setterPreservesMAS set_wholeBodyAnalogSixAxisFTSensorsInterface.
Proof. by intros v []. Qed.

#[local] Hint Resolve preservesMAS_returnTrue preservesMAS_orReturnFalse
  preservesMAS_whenEnabled preservesMAS_onMap preservesMAS_byValue
  setterPreservesMAS_IMU setterPreservesMAS_analogFT : frame.

Lemma preservesMAS_attachAllInertials (devList : list PolyDriverDescriptor) :
  preservesMAS (attachAllInertials devList).
Proof.
  unfold attachAllInertials.
  repeat (apply preservesMAS_orReturnFalse; [apply preservesMAS_whenEnabled|]);
    auto with frame.
Qed.

Lemma preservesMAS_attachAllSixAxisForceTorqueSensors
    (devList : list PolyDriverDescriptor) :
  preservesMAS (attachAllSixAxisForceTorqueSensors devList).
Proof.
  intros impl ok impl'. unfold attachAllSixAxisForceTorqueSensors.
  destruct (negb _); [by intros [= <- <-]|].
  destruct (analogFTSensors devList impl) as [names| |]; try done.
  unfold onMap. destruct (attachAllGenericOrAnalogSensors _ _ _ _) as [b m].
  intros [= <- <-]. apply setterPreservesMAS_analogFT.
Qed.

(** C9. [attachRemappedMASSensor] receives the aggregate pointer by value.
    Whenever some handle exposes the aggregate view, the function returns
    [true] and its own copy of the pointer refers to an aggregate found in
    the device list; the caller's pointer is not touched:
    [attachAndCheckMASSensors] goes on to check the pointer it was given
    (a null pointer there is dereferenced), and neither the attachment of
    the inertial sensors nor that of the six axis force torque sensors
    changes the MAS interface members of the object. *)
Theorem attachRemappedMASSensor_leaves_caller_pointer
    {MASSensorType : Type} `{!MASSensor MASSensorType}
    (devList : list PolyDriverDescriptor) (caller : option MASSensorType)
    (sensorList : list string)
    (Hfound : ∃ dev, dev ∈ devList ∧
                is_Some (viewPtr (view (T:=MASSensorType) (poly dev)))) :
  (∃ dev iface, dev ∈ devList ∧
     viewPtr (view (T:=MASSensorType) (poly dev)) = Some iface ∧
     attachRemappedMASSensor devList caller = (true, Some iface)) ∧
  attachAndCheckMASSensors devList caller sensorList
    = match checkAttachedMASSensors devList caller sensorList with
      | Returned (false, log) =>
          Returned (false, log ++ [CouldNotFindAtLeastOneRequiredSensor])
      | other => other
      end ∧
  (caller = None →
   attachAndCheckMASSensors devList caller sensorList = NullDereference) ∧
  (∀ impl ok impl',
     attachAllInertials devList impl = Returned (ok, impl') →
     wholeBodyMASInertialsInterface impl' = wholeBodyMASInertialsInterface impl ∧
     wholeBodyMASForceTorquesInterface impl' = wholeBodyMASForceTorquesInterface impl) ∧
  (∀ impl ok impl',
     attachAllSixAxisForceTorqueSensors devList impl = Returned (ok, impl') →
     wholeBodyMASInertialsInterface impl' = wholeBodyMASInertialsInterface impl ∧
     wholeBodyMASForceTorquesInterface impl' = wholeBodyMASForceTorquesInterface impl).
Proof.
  pose proof (proj2 (attachRemappedMASSensor_found devList caller) Hfound) as Hret.
  assert (attachAndCheckMASSensors devList caller sensorList
          = match checkAttachedMASSensors devList caller sensorList with
            | Returned (false, log) =>
                Returned (false, log ++ [CouldNotFindAtLeastOneRequiredSensor])
            | other => other
            end) as Hcaller.
  { unfold attachAndCheckMASSensors. by rewrite Hret. }
  split; [|split; [exact Hcaller|split]].
  - unfold attachRemappedMASSensor in *.
    pose proof (scanForMASInterface_copy devList caller) as Hcopy.
    destruct (scanForMASInterface devList caller) as [broken copy]. simpl in *.
    destruct broken; simpl in *; [|done].
    destruct (Hcopy eq_refl) as (dev & iface & Hdev & Hview & ->).
    exists dev, iface. rewrite bool_decide_eq_true_2 by done. done.
  - intros ->. by rewrite Hcaller.
  - split; intros impl ok impl' Hrun.
    + apply preservesMAS_attachAllInertials in Hrun.
      unfold masMembers in Hrun. by injection Hrun as -> ->.
    + apply preservesMAS_attachAllSixAxisForceTorqueSensors in Hrun.
      unfold masMembers in Hrun. by injection Hrun as -> ->.
Qed.

(** ** Sorting and intersecting name lists *)

Lemma ascii_compare_lt_trans (a b c : Ascii.ascii) :
  Ascii.compare a b = Lt → Ascii.compare b c = Lt → Ascii.compare a c = Lt.
Proof.
  unfold Ascii.compare. rewrite !N.compare_lt_iff. lia.
Qed.

Lemma string_compare_lt_trans (s1 s2 s3 : string) :
  String.compare s1 s2 = Lt → String.compare s2 s3 = Lt → String.compare s1 s3 = Lt.
Proof.
  revert s2 s3. induction s1 as [|a s1 IH]; intros [|b s2] [|c s3]; simpl; try done.
  destruct (Ascii.compare a b) eqn:Hab; try done;
    destruct (Ascii.compare b c) eqn:Hbc; try done.
  - apply Ascii.compare_eq_iff in Hab as ->, Hbc as ->.
    rewrite (proj2 (N.compare_eq_iff _ _) eq_refl : Ascii.compare c c = Eq). apply IH.
  - apply Ascii.compare_eq_iff in Hab as ->. by rewrite Hbc.
  - apply Ascii.compare_eq_iff in Hbc as <-. by rewrite Hab.
  - by rewrite (ascii_compare_lt_trans a b c Hab Hbc).
Qed.

Lemma string_compare_refl (s : string) : String.compare s s = Eq.
Proof.
  induction s as [|a s IH]; simpl; [done|].
  by rewrite (proj2 (N.compare_eq_iff _ _) eq_refl : Ascii.compare a a = Eq).
Qed.

Lemma ltb_irrefl (s : string) : String.ltb s s = false.
Proof. unfold String.ltb. by rewrite string_compare_refl. Qed.

Lemma ltb_trans (s1 s2 s3 : string) :
  String.ltb s1 s2 = true → String.ltb s2 s3 = true → String.ltb s1 s3 = true.
Proof.
  unfold String.ltb. intros H12 H23.
  destruct (String.compare s1 s2) eqn:C12; try done.
  destruct (String.compare s2 s3) eqn:C23; try done.
  by rewrite (string_compare_lt_trans s1 s2 s3 C12 C23).
Qed.

Lemma ltb_asym (s1 s2 : string) : String.ltb s1 s2 = true → String.ltb s2 s1 = false.
Proof.
  unfold String.ltb. rewrite (String.compare_antisym s2 s1).
  by destruct (String.compare s1 s2).
Qed.

Lemma ltb_neither_eq (s1 s2 : string) :
  String.ltb s1 s2 = false → String.ltb s2 s1 = false → s1 = s2.
Proof.
  unfold String.ltb. rewrite (String.compare_antisym s2 s1).
  destruct (String.compare s1 s2) eqn:C; try done.
  intros _ _. by apply String.compare_eq_iff.
Qed.

Lemma notAfter_trans_ltb (x y z : string) :
  String.ltb x y = true → notAfter y z → String.ltb x z = true.
Proof.
  unfold notAfter. intros Hxy Hyz.
  destruct (String.ltb x z) eqn:Hxz; [done|].
  destruct (String.ltb y z) eqn:Hyz'.
  - by rewrite (ltb_trans x y z Hxy Hyz') in Hxz.
  - rewrite (ltb_neither_eq y z Hyz' Hyz) in Hxy. congruence.
Qed.

Lemma elem_of_insertSorted (s x : string) (l : list string) :
  x ∈ insertSorted s l ↔ x = s ∨ x ∈ l.
Proof.
  induction l as [|y l IH]; simpl.
  - rewrite list_elem_of_singleton. set_solver.
  - destruct (String.ltb y s); rewrite !elem_of_cons; [rewrite IH|]; naive_solver.
Qed.

Lemma insertSorted_ascending (s : string) (l : list string) :
  ascending l → ascending (insertSorted s l).
Proof.
  induction 1 as [|y l Hy Hl IH]; simpl.
  - constructor; [constructor|constructor].
  - destruct (String.ltb y s) eqn:Hys.
    + constructor; [|done]. apply Forall_forall. intros z Hz.
      apply elem_of_insertSorted in Hz as [->|Hz].
      * unfold notAfter. by apply ltb_asym.
      * by eapply Forall_forall in Hy.
    + constructor; [|by constructor]. constructor; [done|].
      apply Forall_forall. intros z Hz. eapply Forall_forall in Hy; [|done].
      unfold notAfter in *. destruct (String.ltb z s) eqn:Hzs; [|done].
      pose proof (notAfter_trans_ltb z s y Hzs Hys) as Hzy. congruence.
Qed.

Lemma sortStrings_ascending (l : list string) : ascending (sortStrings l).
Proof.
  induction l as [|x l IH]; simpl; [constructor|by apply insertSorted_ascending].
Qed.

Lemma elem_of_sortStrings (x : string) (l : list string) :
  x ∈ sortStrings l ↔ x ∈ l.
Proof.
  induction l as [|y l IH]; simpl; [done|].
  rewrite elem_of_insertSorted, elem_of_cons, IH. done.
Qed.

(** On ascending ranges the merge loop keeps exactly the common names. *)
Lemma elem_of_set_intersection (l1 l2 : list string) (z : string) :
  ascending l1 → ascending l2 →
  z ∈ set_intersection l1 l2 ↔ z ∈ l1 ∧ z ∈ l2.
Proof.
  intros H1. revert l2. induction H1 as [|x xs Hx Hxs IHxs]; intros l2 H2.
  - simpl. set_solver.
  - induction H2 as [|y ys Hy Hys IHys].
    + simpl. set_solver.
    + change (set_intersection (x :: xs) (y :: ys)) with
        (if String.ltb x y then set_intersection xs (y :: ys)
         else if negb (String.ltb y x) then x :: set_intersection xs ys
         else set_intersection (x :: xs) ys).
      destruct (String.ltb x y) eqn:Hxy.
      * rewrite IHxs by (by constructor). rewrite !elem_of_cons.
        split; [naive_solver|]. intros [[->|Hz] Hz2]; [|done].
        exfalso. destruct Hz2 as [->|Hz2]; [by rewrite ltb_irrefl in Hxy|].
        eapply Forall_forall in Hy; [|done].
        pose proof (notAfter_trans_ltb x y x Hxy Hy) as Hxx.
        by rewrite ltb_irrefl in Hxx.
      * destruct (String.ltb y x) eqn:Hyx; simpl.
        -- rewrite IHys. rewrite !elem_of_cons.
           split; [naive_solver|]. intros [Hz1 [->|Hz2]]; [|done].
           exfalso. destruct Hz1 as [->|Hz1]; [by rewrite ltb_irrefl in Hyx|].
           eapply Forall_forall in Hx; [|done].
           pose proof (notAfter_trans_ltb y x y Hyx Hx) as Hyy.
           by rewrite ltb_irrefl in Hyy.
        -- pose proof (ltb_neither_eq x y Hxy Hyx) as ->.
           rewrite !elem_of_cons, IHxs by done. naive_solver.
Qed.

Lemma elem_of_sorted_intersection (l1 l2 : list string) (z : string) :
  z ∈ set_intersection (sortStrings l1) (sortStrings l2) ↔ z ∈ l1 ∧ z ∈ l2.
Proof.
  rewrite elem_of_set_intersection by apply sortStrings_ascending.
  by rewrite !elem_of_sortStrings.
Qed.

(** Whenever an aggregate is found and the member pointer refers to an
    aggregate, the names handed to the analog attachment are the expected
    names that the aggregate enumerates; an expected name the aggregate
    does not enumerate is not among them. *)
Lemma analogFTSensors_common_names (devList : list PolyDriverDescriptor)
    (impl : Impl) (aggregate : ISixAxisForceTorqueSensors) (enumerated : list string) :
  (attachRemappedMASSensor devList
     (sixAxisFTSensors (wholeBodyMASForceTorquesInterface impl))).1 = true →
  sixAxisFTSensors (wholeBodyMASForceTorquesInterface impl) = Some aggregate →
  getAllSensorsInMASInterface (Some aggregate) = Returned enumerated →
  ∃ names, analogFTSensors devList impl = Returned names ∧
    ∀ name, name ∈ names ↔
      name ∈ enumerated ∧
      name ∈ sixAxisForceTorqueSensorsList (sensorsList (metaData impl)).
Proof.
  intros Hfound Hptr Hnames. unfold analogFTSensors.
  rewrite Hfound, Hptr, Hnames. eexists. split; [done|].
  intros name. apply elem_of_sorted_intersection.
Qed.

Lemma attachRemappedMASSensor_leaves_caller_pointer_witness :
  let devList := [plainDevice "r_leg_ft"; masRemapperDevice "mas" ["r_leg_ft_gyro"] []] in
  (∃ dev, dev ∈ devList ∧
     is_Some (viewPtr (view (T:=IThreeAxisGyroscopes) (poly dev)))) ∧
  attachRemappedMASSensor (MASSensorType:=IThreeAxisGyroscopes) devList None
    = (true, Some (gyroscopesReporting ["r_leg_ft_gyro"])) ∧
  attachAndCheckMASSensors (MASSensorType:=IThreeAxisGyroscopes)
    devList None ["r_leg_ft_gyro"] = NullDereference.
Proof.
  intros devList.
  assert (∃ dev, dev ∈ devList ∧
            is_Some (viewPtr (view (T:=IThreeAxisGyroscopes) (poly dev)))) as Hfound.
  { exists (masRemapperDevice "mas" ["r_leg_ft_gyro"] []).
    split; [apply elem_of_cons; right; apply elem_of_cons; by left|].
    by eexists. }
  split; [exact Hfound|]. split; [reflexivity|].
  destruct (attachRemappedMASSensor_leaves_caller_pointer
              (MASSensorType:=IThreeAxisGyroscopes)
              devList None ["r_leg_ft_gyro"] Hfound) as (_ & _ & Hnull & _).
  exact (Hnull eq_refl).
Defined.

(** ** Six axis force torque reconciliation *)

(** C1, at the failing input: the expected list is [r_leg_ft; r_foot_ft]
    and the aggregate reports [r_leg_ft] only.  Even with the member
    pointer referring to that aggregate, the names handed to the legacy
    analog attachment are the intersection [r_leg_ft], not the difference
    [r_foot_ft]: the analog handle of [r_foot_ft] is never looked at, the
    record stays empty and the attachment fails.  With the member pointer
    as constructed, enumerating the aggregate dereferences a null
    pointer. *)
Theorem analogFTSensors_is_the_intersection :
  let aggregate := sixAxisFTReporting ["r_leg_ft"] in
  let devList := [masRemapperDevice "mas" [] ["r_leg_ft"];
                  analogSensorDevice "r_foot_ft" 6] in
  let md := withSixAxisForceTorqueSensors ["r_leg_ft"; "r_foot_ft"] in
  let impl := withMASPointers None (Some aggregate) (constructed md) in
  (attachRemappedMASSensor (MASSensorType:=ISixAxisForceTorqueSensors)
     devList (Some aggregate)).1 = true ∧
  getAllSensorsInMASInterface (Some aggregate) = Returned ["r_leg_ft"] ∧
  analogFTSensors devList impl = Returned ["r_leg_ft"] ∧
  attachAllSixAxisForceTorqueSensors devList impl = Returned (false, impl) ∧
  wholeBodyAnalogSixAxisFTSensorsInterface impl = ∅ ∧
  analogFTSensors devList (constructed md) = NullDereference.
Proof. intros aggregate devList md impl. repeat split; reflexivity. Qed.

(** ** Camera configuration *)

(** Whenever the camera list and the width key are both present, the
    block ends in [return false] with the message for a missing width. *)
Lemma configureCameraType_width_present (ptr : gmap string ParameterValue)
    (listKey widthKey heightKey : string)
    (getList : SensorLists → list string)
    (setList : list string → SensorLists → SensorLists)
    (md : SensorBridgeMetaData) (cameras : list string) (widths : list Z) :
  ptr !! listKey = Some (StringList cameras) →
  ptr !! widthKey = Some (IntList widths) →
  ∃ md', configureCameraType ptr listKey widthKey heightKey getList setList md
         = (false, [RequiredParameterNotAvailable widthKey], md').
Proof.
  intros Hlist Hwidth. unfold configureCameraType, getStringListParameter,
    getIntListParameter. rewrite Hlist, Hwidth. simpl. by eexists.
Qed.

(** C6, at the failing inputs.  With two cameras, widths [640; 320] and
    heights [480], configuration fails, but with the message that
    [rgb_image_width] is not available and not with the size mismatch; it
    fails in the same way when both lists are present with one entry per
    camera.  With an empty camera list and neither key present it
    succeeds.  The depth keys behave in the same way. *)
Theorem configureCameras_present_keys_rejected :
  let mismatched := handlerOf [("rgb_cameras_list", StringList ["cam0"; "cam1"]);
                               ("rgb_image_width", IntList [640; 320]%Z);
                               ("rgb_image_height", IntList [480]%Z)] in
  let wellFormed := handlerOf [("rgb_cameras_list", StringList ["cam0"; "cam1"]);
                               ("rgb_image_width", IntList [640; 320]%Z);
                               ("rgb_image_height", IntList [480; 240]%Z)] in
  let keysAbsent := handlerOf [("rgb_cameras_list", StringList [])] in
  let depth := handlerOf [("depth_cameras_list", StringList ["depth0"]);
                          ("depth_image_width", IntList [640]%Z);
                          ("depth_image_height", IntList [480]%Z)] in
  (configureCameras mismatched emptyMetaData).1
    = (false, [RequiredParameterNotAvailable "rgb_image_width"]) ∧
  (configureCameras wellFormed emptyMetaData).1
    = (false, [RequiredParameterNotAvailable "rgb_image_width"]) ∧
  (configureCameras keysAbsent emptyMetaData).1 = (true, []) ∧
  (configureCameras depth emptyMetaData).1
    = (false, [RequiredParameterNotAvailable "depth_image_width"]).
Proof. intros mismatched wellFormed keysAbsent depth. repeat split; reflexivity. Qed.

(** ** Image buffers *)

Lemma resizeImageBuffers_all_configured (cams : list string)
    (dims : gmap string (Z * Z)) (buffers : gmap string ImageBuffer) :
  (∀ cam, cam ∈ cams → is_Some (dims !! cam)) →
  resizeImageBuffers cams dims buffers = (true, resized cams dims buffers).
Proof.
  revert buffers. induction cams as [|cam cams IH]; intros buffers Hall; simpl; [done|].
  destruct (Hall cam) as [[w h] Hdim]; [by left|].
  unfold resized. simpl. rewrite Hdim. simpl. apply IH.
  intros c Hc. apply Hall. by right.
Qed.

Lemma resizeImageBuffers_stops (before after : list string) (cam : string)
    (dims : gmap string (Z * Z)) (buffers : gmap string ImageBuffer) :
  (∀ c, c ∈ before → is_Some (dims !! c)) →
  dims !! cam = None →
  resizeImageBuffers (before ++ cam :: after) dims buffers
  = (false, resized before dims buffers).
Proof.
  revert buffers. induction before as [|c before IH]; intros buffers Hall Hnone; simpl.
  - by rewrite Hnone.
  - destruct (Hall c) as [[w h] Hdim]; [by left|].
    unfold resized. simpl. rewrite Hdim. simpl. apply IH; [|done].
    intros c' Hc'. apply Hall. by right.
Qed.

Lemma resized_lookup_in (cams : list string) (dims : gmap string (Z * Z))
    (buffers : gmap string ImageBuffer) (cam : string) :
  (∀ c, c ∈ cams → is_Some (dims !! c)) →
  cam ∈ cams → resized cams dims buffers !! cam = dims !! cam.
Proof.
  revert buffers. induction cams as [|c cams IH] using rev_ind;
    intros buffers Hall Hin; [by apply elem_of_nil in Hin|].
  unfold resized. rewrite foldl_app. simpl.
  destruct (Hall c) as [d Hd]; [apply elem_of_app; right; by left|].
  rewrite Hd. destruct (decide (cam = c)) as [->|Hne].
  - by rewrite lookup_insert_eq.
  - rewrite lookup_insert_ne by done. apply IH.
    + intros c' Hc'. apply Hall. apply elem_of_app. by left.
    + apply elem_of_app in Hin as [Hin|Hin]; [done|].
      apply list_elem_of_singleton in Hin. done.
Qed.

Lemma resized_lookup_notin (cams : list string) (dims : gmap string (Z * Z))
    (buffers : gmap string ImageBuffer) (cam : string) :
  cam ∉ cams → resized cams dims buffers !! cam = buffers !! cam.
Proof.
  revert buffers. induction cams as [|c cams IH]; intros buffers Hnotin; [done|].
  apply not_elem_of_cons in Hnotin as [Hne Hnotin].
  unfold resized. simpl. fold (resized cams dims).
  destruct (dims !! c) as [d|].
  - unfold resized in IH. rewrite IH by done. by rewrite lookup_insert_ne.
  - unfold resized in IH. by rewrite IH.
Qed.

(** The first camera of the list without configured dimensions. *)
Lemma first_unconfigured (cams : list string) (dims : gmap string (Z * Z)) :
  (∃ cam, cam ∈ cams ∧ dims !! cam = None) →
  ∃ before cam after,
    cams = before ++ cam :: after ∧ dims !! cam = None ∧
    ∀ c, c ∈ before → is_Some (dims !! c).
Proof.
  induction cams as [|c cams IH]; intros (cam & Hin & Hnone).
  - by apply elem_of_nil in Hin.
  - destruct (dims !! c) as [d|] eqn:Hd.
    + apply elem_of_cons in Hin as [->|Hin]; [congruence|].
      destruct IH as (before & cam' & after & -> & Hnone' & Hall); [by exists cam|].
      exists (c :: before), cam', after. split; [done|]. split; [done|].
      intros c' Hc'. apply elem_of_cons in Hc' as [->|Hc']; [by rewrite Hd|by apply Hall].
    + exists [], c, cams. split; [done|]. split; [done|].
      intros c' Hc'. by apply elem_of_nil in Hc'.
Qed.

(** C7, as stated, fails: both cameras have a handle, the first has
    configured dimensions and the second has none.  The attachment fails,
    but only after the buffer of the first camera has been allocated. *)
Lemma resizeImageBuffers_allocates_before_failing :
  let cams := ["cam0"; "cam1"] in
  let dims : gmap string (Z * Z) := {["cam0" := (640, 480)%Z]} in
  let devList := [cameraDevice "cam0"; cameraDevice "cam1"] in
  let r := attachAllCamerasOfSpecificType (CameraType:=IFrameGrabberImage)
             devList cams dims ∅ ∅ in
  ¬ ((∃ cam, cam ∈ cams ∧ dims !! cam = None) → r.1.1 = false ∧ r.2 = ∅).
Proof.
  intros cams dims devList r Hclaim.
  destruct Hclaim as [_ Hsame].
  - exists "cam1". split; [apply elem_of_cons; right; apply elem_of_cons; by left|done].
  - assert (r.2 !! "cam0" = Some (640, 480)%Z) as Hcam0 by reflexivity.
    rewrite Hsame in Hcam0. done.
Qed.

(** C7, amended.  If some expected camera has no configured dimensions,
    resizing the image buffers fails, and so does the attachment of the
    cameras of either type.  Dimension lookup and allocation alternate
    camera by camera: when [resizeImageBuffers] returns, the cameras
    listed before the first one without dimensions have their buffers at
    their configured shape and the buffer of every other name is as it
    was.  After the failed attachment the buffers are either as they were
    before the call or as that resizing leaves them. *)
Theorem resizeImageBuffers_missing_dimensions (camList : list string)
    (imgDimensionsMap : gmap string (Z * Z))
    (imgBuffersMap : gmap string ImageBuffer)
    (Hmissing : ∃ cam, cam ∈ camList ∧ imgDimensionsMap !! cam = None) :
  ∃ before cam after,
    camList = before ++ cam :: after ∧
    imgDimensionsMap !! cam = None ∧
    (∀ c, c ∈ before → is_Some (imgDimensionsMap !! c)) ∧
    let buffers' := (resizeImageBuffers camList imgDimensionsMap imgBuffersMap).2 in
    (resizeImageBuffers camList imgDimensionsMap imgBuffersMap).1 = false ∧
    (∀ c, c ∈ before → buffers' !! c = imgDimensionsMap !! c) ∧
    (∀ c, c ∉ before → buffers' !! c = imgBuffersMap !! c) ∧
    (∀ (devList : list PolyDriverDescriptor)
       (sensorMap : gmap string IFrameGrabberImage),
       let r := attachAllCamerasOfSpecificType devList camList imgDimensionsMap
                  sensorMap imgBuffersMap in
       r.1.1 = false ∧ (r.2 = imgBuffersMap ∨ r.2 = buffers')) ∧
    (∀ (devList : list PolyDriverDescriptor)
       (sensorMap : gmap string IRGBDSensor),
       let r := attachAllCamerasOfSpecificType devList camList imgDimensionsMap
                  sensorMap imgBuffersMap in
       r.1.1 = false ∧ (r.2 = imgBuffersMap ∨ r.2 = buffers')).
Proof.
  destruct (first_unconfigured camList imgDimensionsMap Hmissing)
    as (before & cam & after & -> & Hnone & Hall).
  exists before, cam, after. split; [done|]. split; [done|]. split; [done|].
  rewrite (resizeImageBuffers_stops before after cam _ _ Hall Hnone). simpl.
  split; [done|]. split; [intros c Hc; by apply resized_lookup_in|].
  split; [intros c Hc; by apply resized_lookup_notin|].
  split; intros devList sensorMap; unfold attachAllCamerasOfSpecificType;
    destruct (attachCamerasInList devList (before ++ cam :: after) sensorMap)
      as [ok sensorMap'];
    (destruct ok; simpl; [|by split; [|left]]);
    (destruct (size sensorMap' =? length (before ++ cam :: after)); simpl;
       [|by split; [|left]]);
    rewrite (resizeImageBuffers_stops before after cam _ _ Hall Hnone); simpl;
    by split; [|right].
Qed.

Lemma resizeImageBuffers_missing_dimensions_witness :
  let cams := ["cam0"; "cam1"] in
  let dims : gmap string (Z * Z) := {["cam0" := (640, 480)%Z]} in
  (∃ cam, cam ∈ cams ∧ dims !! cam = None) ∧
  ∃ before cam after,
    cams = before ++ cam :: after ∧
    dims !! cam = None ∧
    (∀ c, c ∈ before → is_Some (dims !! c)) ∧
    (resizeImageBuffers cams dims ∅).1 = false ∧
    (∀ c, c ∈ before → (resizeImageBuffers cams dims ∅).2 !! c = dims !! c) ∧
    (∀ c, c ∉ before → (resizeImageBuffers cams dims ∅).2 !! c = (∅ : gmap string ImageBuffer) !! c).
Proof.
  intros cams dims.
  assert (∃ cam, cam ∈ cams ∧ dims !! cam = None) as Hmissing.
  { exists "cam1". split; [apply elem_of_cons; right; apply elem_of_cons; by left|done]. }
  split; [exact Hmissing|].
  destruct (resizeImageBuffers_missing_dimensions cams dims ∅ Hmissing)
    as (before & cam & after & Hsplit & Hnone & Hall & Hfail & Hin & Hout & _).
  exists before, cam, after. auto 10.
Defined.

(** ** Validity gate *)

(** The gate passes exactly when both state flags are set; otherwise it
    reports, with the name of the calling method, that the bridge is not
    ready.  The object as constructed is rejected. *)
Lemma checkValid_iff_initialized_and_attached (impl : Impl) (methodName : string) :
  ((checkValid impl methodName).1 = true ↔
   bridgeInitialized impl = true ∧ driversAttached impl = true) ∧
  ((checkValid impl methodName).1 = false ↔
   bridgeInitialized impl = false ∨ driversAttached impl = false) ∧
  checkValid impl methodName
    = (if bridgeInitialized impl && driversAttached impl
       then (true, [])
       else (false, [SensorBridgeNotReady methodName])) ∧
  (checkValid (constructed (metaData impl)) methodName).1 = false.
Proof.
  unfold checkValid.
  destruct (bridgeInitialized impl), (driversAttached impl); simpl; naive_solver.
Qed.

(** * Further properties of the implementation *)

(** ** The record built by the generic and analog attachment *)

Section GenericOrAnalogRecord.
Context {SensorType : Type} `{!ChannelSensor SensorType}.

Lemma attachGenericOrAnalogSensor_entries (devList : list PolyDriverDescriptor)
    (sensorName : string) (nr : Z) (sensorMap : gmap string SensorType) :
  let r := attachGenericOrAnalogSensor devList sensorName nr sensorMap in
  (∀ k, k ≠ sensorName → r.2 !! k = sensorMap !! k) ∧
  (is_Some (sensorMap !! sensorName) → is_Some (r.2 !! sensorName)) ∧
  (∀ v, r.2 !! sensorName = Some v →
        sensorMap !! sensorName = Some v ∨ boundFrom devList nr sensorName v).
Proof.
  revert sensorMap. induction devList as [|dev devs IH]; intros sensorMap; simpl.
  - split; [done|]. split; [done|]. intros v Hv. by left.
  - assert (∀ v, boundFrom devs nr sensorName v → boundFrom (dev :: devs) nr sensorName v)
      as Hweaken.
    { intros v (d & Hd & Hrest). exists d. split; [by right|done]. }
    destruct (String.eqb sensorName (key dev)) eqn:Hk; simpl.
    2:{ destruct (IH sensorMap) as (H1 & H2 & H3). split; [done|]. split; [done|].
        intros v Hv. destruct (H3 v Hv); [by left|right; by apply Hweaken]. }
    apply String.eqb_eq in Hk.
    destruct (viewOk (view (poly dev))) eqn:Hok; simpl.
    2:{ split; [done|]. split; [done|]. intros v Hv. by left. }
    destruct (viewPtr (view (poly dev))) as [iface|] eqn:Hptr; simpl.
    2:{ split; [done|]. split; [done|]. intros v Hv. by left. }
    destruct (getChannels iface =? nr)%Z eqn:Hch; simpl.
    2:{ split; [done|]. split; [done|]. intros v Hv. by left. }
    apply Z.eqb_eq in Hch.
    destruct (IH (<[key dev := iface]> sensorMap)) as (H1 & H2 & H3).
    split; [|split].
    + intros k Hne. rewrite H1 by done. apply lookup_insert_ne. congruence.
    + intros _. apply H2. rewrite <- Hk, lookup_insert_eq. by eexists.
    + intros v Hv. destruct (H3 v Hv) as [Hins|Hb]; [|right; by apply Hweaken].
      rewrite <- Hk, lookup_insert_eq in Hins. injection Hins as <-.
      right. exists dev. split; [by left|]. done.
Qed.

Lemma attachSensorsInList_entries (devList : list PolyDriverDescriptor) (nr : Z)
    (sensorList : list string) (sensorMap : gmap string SensorType) :
  let r := attachSensorsInList devList nr sensorList sensorMap in
  (∀ k, k ∉ sensorList → r.2 !! k = sensorMap !! k) ∧
  (∀ k, is_Some (sensorMap !! k) → is_Some (r.2 !! k)) ∧
  (∀ k v, r.2 !! k = Some v → sensorMap !! k = Some v ∨ boundFrom devList nr k v).
Proof.
  revert sensorMap. induction sensorList as [|name rest IH]; intros sensorMap; simpl.
  - split; [done|]. split; [done|]. intros k v Hv. by left.
  - pose proof (attachGenericOrAnalogSensor_entries devList name nr sensorMap)
      as (A1 & A2 & A3).
    destruct (attachGenericOrAnalogSensor devList name nr sensorMap) as [ok m1].
    simpl in A1, A2, A3.
    assert (∀ k, is_Some (sensorMap !! k) → is_Some (m1 !! k)) as Hkeep.
    { intros k Hk. destruct (decide (k = name)) as [->|Hne]; [by apply A2|].
      by rewrite A1. }
    assert (∀ k v, m1 !! k = Some v →
                   sensorMap !! k = Some v ∨ boundFrom devList nr k v) as Hfrom.
    { intros k v Hv. destruct (decide (k = name)) as [->|Hne]; [by apply A3|].
      left. by rewrite <- A1. }
    destruct ok; simpl.
    + destruct (IH m1) as (B1 & B2 & B3). split; [|split].
      * intros k Hk. apply not_elem_of_cons in Hk as [Hne Hk].
        rewrite B1 by done. by apply A1.
      * intros k Hk. by apply B2, Hkeep.
      * intros k v Hv. destruct (B3 k v Hv) as [Hm1|Hb]; [by apply Hfrom|by right].
    + split; [|done]. intros k Hk. apply not_elem_of_cons in Hk as [Hne Hk].
      by apply A1.
Qed.

End GenericOrAnalogRecord.

(** X1. After a successful generic or analog attachment into the empty
    record, the keys of the record are exactly the expected names,
    [checkSensor] answers [true] for exactly those names, and every bound
    interface is the view of a handle carrying that name and has the
    expected number of channels. *)
Theorem attachAllGenericOrAnalogSensors_record
    {SensorType : Type} `{!ChannelSensor SensorType}
    (devList : list PolyDriverDescriptor) (nr : Z) (sensorList : list string)
    (sensorMap' : gmap string SensorType)
    (Hattached : attachAllGenericOrAnalogSensors devList ∅ nr sensorList
                 = (true, sensorMap')) :
  dom sensorMap' = list_to_set sensorList ∧
  (∀ name, checkSensor sensorMap' name = true ↔ name ∈ sensorList) ∧
  (∀ name iface, sensorMap' !! name = Some iface →
     boundFrom devList nr name iface).
Proof.
  pose proof (attachAllGenericOrAnalogSensors_exact devList
                (∅ : gmap string SensorType) nr sensorList) as Hexact.
  rewrite Hattached in Hexact. simpl in Hexact.
  destruct (proj1 Hexact eq_refl) as [_ Hsize].
  rewrite dom_empty_L, (left_id_L ∅ (∪)) in Hsize.
  apply size_inter_eq_length in Hsize as [_ Hkeys].
  unfold attachAllGenericOrAnalogSensors in Hattached.
  pose proof (attachSensorsInList_spec devList nr sensorList
                (∅ : gmap string SensorType)) as [_ Hdom].
  pose proof (attachSensorsInList_entries devList nr sensorList
                (∅ : gmap string SensorType)) as (_ & _ & Hfrom).
  destruct (attachSensorsInList devList nr sensorList ∅) as [ok m] eqn:Hrun.
  simpl in Hdom, Hfrom.
  destruct ok; simpl in Hattached; [|done].
  destruct (negb (size m =? length sensorList)); [done|].
  injection Hattached as <-.
  assert (dom m = list_to_set sensorList) as Hd.
  { rewrite (Hdom eq_refl), dom_empty_L. set_solver. }
  split; [done|]. split.
  - intros name. unfold checkSensor.
    rewrite <- (elem_of_list_to_set (C:=gset string)), <- Hd, elem_of_dom.
    destruct (m !! name); split; try done; by intros [? ?].
  - intros name iface Hname. destruct (Hfrom name iface Hname) as [Hempty|Hb]; [|done].
    by rewrite lookup_empty in Hempty.
Qed.

Lemma attachAllGenericOrAnalogSensors_record_witness :
  let devList := [genericSensorDevice "left_wrench" 6; genericSensorDevice "head_imu" 12;
                  genericSensorDevice "right_wrench" 6] in
  ∃ sensorMap',
    attachAllGenericOrAnalogSensors (SensorType:=IGenericSensor) devList ∅
      nrChannelsInYARPGenericCartesianWrench ["right_wrench"; "left_wrench"]
    = (true, sensorMap') ∧
    dom sensorMap' = list_to_set ["right_wrench"; "left_wrench"] ∧
    checkSensor sensorMap' "head_imu" = false.
Proof.
  intros devList. eexists. split; [reflexivity|].
  match goal with
  | |- dom ?m = _ ∧ _ =>
      pose proof (attachAllGenericOrAnalogSensors_record (SensorType:=IGenericSensor)
                    devList nrChannelsInYARPGenericCartesianWrench
                    ["right_wrench"; "left_wrench"] m eq_refl) as (Hdom & Hcheck & _)
  end.
  split; [exact Hdom|]. reflexivity.
Defined.


(** X3. When the record already holds exactly the expected names, a
    repeated attachment succeeds if and only if every handle that carries
    an expected name exposes the capability with the expected number of
    channels; handles need no longer be present, so it succeeds for the
    empty device list. *)
Theorem attachAllGenericOrAnalogSensors_again
    {SensorType : Type} `{!ChannelSensor SensorType}
    (devList : list PolyDriverDescriptor) (sensorMap : gmap string SensorType)
    (nr : Z) (sensorList : list string)
    (Hnodup : NoDup sensorList)
    (Hheld : dom sensorMap = list_to_set sensorList) :
  ((attachAllGenericOrAnalogSensors devList sensorMap nr sensorList).1 = true ↔
   ∀ name, name ∈ sensorList →
     ∀ dev, dev ∈ devList → key dev = name → exposes (SensorType:=SensorType) nr dev) ∧
  (attachAllGenericOrAnalogSensors [] sensorMap nr sensorList).1 = true.
Proof.
  assert (∀ devs, size (dom sensorMap ∪ list_to_set sensorList ∩ keysOf devs)
                  = length sensorList) as Hsize.
  { intros devs. rewrite Hheld.
    assert (list_to_set sensorList ∪ list_to_set sensorList ∩ keysOf devs
            = (list_to_set sensorList : gset string)) as -> by set_solver.
    by apply size_list_to_set. }
  split.
  - rewrite attachAllGenericOrAnalogSensors_exact. naive_solver.
  - apply attachAllGenericOrAnalogSensors_exact. split; [|done].
    intros name _ dev Hdev. by apply elem_of_nil in Hdev.
Qed.

Lemma attachAllGenericOrAnalogSensors_again_witness :
  let held : gmap string IAnalogSensor :=
    {["r_leg_ft" := {| analogGetChannels := 6 |}]} in
  NoDup ["r_leg_ft"] ∧
  dom held = list_to_set ["r_leg_ft"] ∧
  (attachAllGenericOrAnalogSensors [] held
     nrChannelsInYARPAnalogSixAxisFTSensor ["r_leg_ft"]).1 = true.
Proof.
  intros held.
  assert (NoDup ["r_leg_ft"]) as Hnodup by apply NoDup_singleton.
  assert (dom held = list_to_set ["r_leg_ft"]) as Hheld.
  { unfold held. rewrite dom_singleton_L. set_solver. }
  split; [exact Hnodup|]. split; [exact Hheld|].
  exact (proj2 (attachAllGenericOrAnalogSensors_again (SensorType:=IAnalogSensor)
                  [] held nrChannelsInYARPAnalogSixAxisFTSensor ["r_leg_ft"]
                  Hnodup Hheld)).
Defined.

(** ** Camera attachment and image buffers *)

Section CameraFacts.
Context {CameraType : Type} `{!Viewable CameraType}.

Lemma elem_of_viewableKeysOf (devList : list PolyDriverDescriptor) (name : string) :
  name ∈ viewableKeysOf (CameraType:=CameraType) devList ↔
  ∃ dev, dev ∈ devList ∧ key dev = name ∧
         viewOk (view (T:=CameraType) (poly dev)) = true.
Proof.
  unfold viewableKeysOf. rewrite elem_of_list_to_set, list_elem_of_fmap.
  setoid_rewrite list_elem_of_filter. naive_solver.
Qed.

Lemma viewableKeysOf_cons (dev : PolyDriverDescriptor)
    (devs : list PolyDriverDescriptor) :
  viewableKeysOf (CameraType:=CameraType) (dev :: devs)
  = (if viewOk (view (T:=CameraType) (poly dev)) then {[key dev]} else ∅)
    ∪ viewableKeysOf (CameraType:=CameraType) devs.
Proof.
  apply set_eq. intros name.
  rewrite elem_of_union, !elem_of_viewableKeysOf. split.
  - intros (d & Hd & Hk & Hv). apply elem_of_cons in Hd as [->|Hd].
    + left. rewrite Hv. set_solver.
    + right. by exists d.
  - intros [Hhead|(d & Hd & Hk & Hv)].
    + destruct (viewOk (view (poly dev))) eqn:Hv; [|set_solver].
      exists dev. split; [by left|]. set_solver.
    + exists d. split; [by right|done].
Qed.

Lemma attachCamera_spec (devList : list PolyDriverDescriptor) (sensorName : string)
    (sensorMap : gmap string CameraType) :
  let r := attachCamera devList sensorName sensorMap in
  (r.1 = true ↔
     ∀ dev, dev ∈ devList → ¬ nullCameraView (CameraType:=CameraType) sensorName dev) ∧
  (r.1 = true →
     dom r.2 = dom sensorMap ∪
               ({[sensorName]} ∩ viewableKeysOf (CameraType:=CameraType) devList)).
Proof.
  revert sensorMap. induction devList as [|dev devs IH]; intros sensorMap; simpl.
  - split; [split; [intros _ d Hd; by apply elem_of_nil in Hd|done]|].
    intros _. unfold viewableKeysOf. set_solver.
  - rewrite viewableKeysOf_cons.
    destruct (String.eqb sensorName (key dev)) eqn:Hk; simpl.
    + apply String.eqb_eq in Hk.
      destruct (viewOk (view (poly dev))) eqn:Hok; simpl.
      * destruct (viewPtr (view (poly dev))) as [iface|] eqn:Hptr; simpl.
        -- destruct (IH (<[key dev := iface]> sensorMap)) as [IH1 IH2]. split.
           ++ rewrite IH1. split.
              ** intros Hall d Hd. apply elem_of_cons in Hd as [->|Hd]; [|by apply Hall].
                 intros (_ & _ & Hnull). by rewrite Hptr in Hnull.
              ** intros Hall d Hd. apply Hall. by right.
           ++ intros Ht. rewrite (IH2 Ht), dom_insert_L. clear -Hk. set_solver.
        -- split; [|done]. split; [done|]. intros Hall.
           destruct (Hall dev); [by left|]. done.
      * destruct (IH sensorMap) as [IH1 IH2]. split.
        -- rewrite IH1. split.
           ++ intros Hall d Hd. apply elem_of_cons in Hd as [->|Hd]; [|by apply Hall].
              intros (_ & Hv & _). by rewrite Hok in Hv.
           ++ intros Hall d Hd. apply Hall. by right.
        -- intros Ht. rewrite (IH2 Ht). clear. set_solver.
    + apply String.eqb_neq in Hk. destruct (IH sensorMap) as [IH1 IH2]. split.
      * rewrite IH1. split.
        -- intros Hall d Hd. apply elem_of_cons in Hd as [->|Hd]; [|by apply Hall].
           intros (Hkey & _). congruence.
        -- intros Hall d Hd. apply Hall. by right.
      * intros Ht. rewrite (IH2 Ht).
        destruct (viewOk (view (poly dev))); clear -Hk; set_solver.
Qed.

Lemma attachCamerasInList_spec (devList : list PolyDriverDescriptor)
    (camList : list string) (sensorMap : gmap string CameraType) :
  let r := attachCamerasInList devList camList sensorMap in
  (r.1 = true ↔
     ∀ cam, cam ∈ camList →
       ∀ dev, dev ∈ devList → ¬ nullCameraView (CameraType:=CameraType) cam dev) ∧
  (r.1 = true →
     dom r.2 = dom sensorMap ∪
               (list_to_set camList ∩ viewableKeysOf (CameraType:=CameraType) devList)).
Proof.
  revert sensorMap. induction camList as [|cam rest IH]; intros sensorMap; simpl.
  - split; [split; [intros _ n Hn; by apply elem_of_nil in Hn|done]|].
    intros _. set_solver.
  - pose proof (attachCamera_spec devList cam sensorMap) as [H1 H2].
    destruct (attachCamera devList cam sensorMap) as [ok m'] eqn:Hone.
    simpl in H1, H2. destruct ok; simpl.
    + destruct (IH m') as [IH1 IH2]. split.
      * rewrite IH1. split.
        -- intros Hall n Hn. apply elem_of_cons in Hn as [->|Hn]; [by apply H1|by apply Hall].
        -- intros Hall n Hn. apply Hall. by right.
      * intros Ht. rewrite (IH2 Ht), (H2 eq_refl). clear. set_solver.
    + split; [|done]. split; [done|]. intros Hall.
      apply H1. apply Hall. by left.
Qed.

End CameraFacts.

Lemma resizeImageBuffers_succeeds_iff (camList : list string)
    (dims : gmap string (Z * Z)) (buffers : gmap string ImageBuffer) :
  (resizeImageBuffers camList dims buffers).1 = true ↔
  ∀ cam, cam ∈ camList → is_Some (dims !! cam).
Proof.
  split.
  - intros Hok cam Hcam. destruct (dims !! cam) as [d|] eqn:Hd; [done|].
    destruct (first_unconfigured camList dims) as (before & c & after & -> & Hnone & Hall);
      [by exists cam|].
    by rewrite (resizeImageBuffers_stops before after c dims buffers Hall Hnone) in Hok.
  - intros Hall. by rewrite resizeImageBuffers_all_configured.
Qed.

(** X4. Attachment of the cameras of one type into an empty interface
    record succeeds if and only if no camera name is repeated and every
    expected camera has a handle whose view is reported as available, no
    handle carrying its name returns a null pointer with an available view,
    and its image dimensions are configured.  A handle whose view is not
    available is passed over without failing. *)
Theorem attachAllCamerasOfSpecificType_succeeds_iff
    {CameraType : Type} `{!Viewable CameraType}
    (devList : list PolyDriverDescriptor) (camList : list string)
    (imgDimensionsMap : gmap string (Z * Z))
    (imgBuffersMap : gmap string ImageBuffer) :
  (attachAllCamerasOfSpecificType (CameraType:=CameraType) devList camList
     imgDimensionsMap ∅ imgBuffersMap).1.1 = true ↔
  NoDup camList ∧
  ∀ cam, cam ∈ camList →
    (∃ dev, dev ∈ devList ∧ key dev = cam ∧
            viewOk (view (T:=CameraType) (poly dev)) = true) ∧
    (∀ dev, dev ∈ devList → ¬ nullCameraView (CameraType:=CameraType) cam dev) ∧
    is_Some (imgDimensionsMap !! cam).
Proof.
  unfold attachAllCamerasOfSpecificType.
  pose proof (attachCamerasInList_spec (CameraType:=CameraType) devList camList ∅)
    as [H1 H2].
  destruct (attachCamerasInList devList camList ∅) as [ok m] eqn:Hrun.
  simpl in H1, H2.
  pose proof (resizeImageBuffers_succeeds_iff camList imgDimensionsMap imgBuffersMap)
    as Hresize.
  destruct ok; simpl.
  2:{ split; [done|]. intros [_ Hall]. apply H1. intros cam Hcam. by apply Hall. }
  assert (size m = length camList ↔
          NoDup camList ∧
          ∀ cam, cam ∈ camList →
            ∃ dev, dev ∈ devList ∧ key dev = cam ∧
                   viewOk (view (T:=CameraType) (poly dev)) = true) as Hsize.
  { rewrite <- size_dom, (H2 eq_refl), dom_empty_L, (left_id_L ∅ (∪)).
    rewrite size_inter_eq_length. by setoid_rewrite elem_of_viewableKeysOf. }
  destruct (size m =? length camList) eqn:Hsz; simpl.
  - apply Nat.eqb_eq in Hsz. apply Hsize in Hsz as [Hnd Hview].
    destruct (resizeImageBuffers camList imgDimensionsMap imgBuffersMap)
      as [resized buffers']. simpl in Hresize.
    destruct resized; simpl.
    + split; [|done]. intros _. split; [done|]. intros cam Hcam.
      split; [by apply Hview|]. split; [by apply (proj1 H1 eq_refl)|].
      by apply Hresize.
    + split; [done|]. intros [_ Hall]. apply Hresize. intros cam Hcam. by apply Hall.
  - apply Nat.eqb_neq in Hsz. split; [done|]. intros [Hnd Hall].
    destruct Hsz. apply Hsize. split; [done|]. intros cam Hcam. by apply Hall.
Qed.

(** X5. Resizing the image buffers succeeds exactly when every listed
    camera has configured dimensions; then the buffer of every listed
    camera has its configured shape.  Whether it succeeds or not, the
    buffer of a camera that is not listed is left as it was. *)
Theorem resizeImageBuffers_shapes (camList : list string)
    (imgDimensionsMap : gmap string (Z * Z))
    (imgBuffersMap : gmap string ImageBuffer) :
  let r := resizeImageBuffers camList imgDimensionsMap imgBuffersMap in
  (r.1 = true ↔ ∀ cam, cam ∈ camList → is_Some (imgDimensionsMap !! cam)) ∧
  (r.1 = true → ∀ cam, cam ∈ camList → r.2 !! cam = imgDimensionsMap !! cam) ∧
  (∀ cam, cam ∉ camList → r.2 !! cam = imgBuffersMap !! cam).
Proof.
  simpl. split; [apply resizeImageBuffers_succeeds_iff|]. split.
  - intros Hok cam Hcam.
    pose proof (proj1 (resizeImageBuffers_succeeds_iff _ _ _) Hok) as Hall.
    rewrite (resizeImageBuffers_all_configured _ _ _ Hall). simpl.
    by apply resized_lookup_in.
  - intros cam Hcam.
    destruct (decide (Forall (λ c, is_Some (imgDimensionsMap !! c)) camList))
      as [Hall|Hnot].
    + rewrite Forall_forall in Hall.
      rewrite (resizeImageBuffers_all_configured _ _ _ Hall). simpl.
      by apply resized_lookup_notin.
    + destruct (first_unconfigured camList imgDimensionsMap)
        as (before & c & after & -> & Hnone & Hall).
      { apply not_Forall_Exists in Hnot; [|apply _].
        apply Exists_exists in Hnot as (c & Hc & Hnone).
        exists c. split; [done|]. by apply eq_None_not_Some. }
      rewrite (resizeImageBuffers_stops before after c _ _ Hall Hnone). simpl.
      apply resized_lookup_notin. intros Hin. apply Hcam.
      apply elem_of_app. by left.
Qed.

(** ** Control board attachment *)

(** X6. Control board discovery looks at the first handle only.  For an
    empty device list it reports success and leaves the object as it was;
    otherwise its result is whether the first handle offers both the axis
    view and the encoder view, whatever the later handles offer, and on
    success the interfaces bound are the views of that first handle. *)
Theorem discoverControlBoard_first_handle (devList : list PolyDriverDescriptor)
    (impl : Impl) :
  match devList with
  | [] => discoverControlBoard [] impl = Returned (true, impl)
  | dev :: devs =>
      ∃ impl', discoverControlBoard (dev :: devs) impl
               = Returned (offersControlBoard dev, impl') ∧
               (offersControlBoard dev = true →
                impl' = set_controlBoardRemapperInterfaces
                          {| encoders := viewPtr (view (T:=IEncodersTimed) (poly dev));
                             axis := viewPtr (view (T:=IAxisInfo) (poly dev)) |} impl)
  end.
Proof.
  destruct devList as [|dev devs].
  - unfold discoverControlBoard. simpl. by destruct impl as [[] ? ? ? ? ? ? ? ? ? ? ? ? ?].
  - unfold discoverControlBoard, offersControlBoard. simpl.
    destruct (viewOk (view (T:=IAxisInfo) (poly dev))); simpl.
    + destruct (viewOk (view (T:=IEncodersTimed) (poly dev))); simpl.
      * eexists. split; [done|]. done.
      * rewrite scanForControlBoard_false. eexists. split; [done|]. done.
    + rewrite scanForControlBoard_false. eexists. split; [done|]. done.
Qed.

Lemma remapJoints_all_present (desiredJoints : list string) (desiredDOF : nat)
    (controlBoardJoints : list string) (jointFound : bool) (remapped : list nat) :
  desiredDOF + length desiredJoints ≤ length remapped →
  (∀ name, name ∈ desiredJoints → name ∈ controlBoardJoints) →
  ∃ remapped',
    remapJoints desiredJoints desiredDOF controlBoardJoints jointFound remapped
    = Returned (match desiredJoints with [] => jointFound | _ => true end, remapped') ∧
    (Forall (λ idx, idx < length controlBoardJoints) remapped →
     Forall (λ idx, idx < length controlBoardJoints) remapped').
Proof.
  revert desiredDOF jointFound remapped.
  induction desiredJoints as [|desired rest IH];
    intros desiredDOF jointFound remapped Hroom Hall; simpl.
  - by eexists.
  - simpl in Hroom.
    destruct (findControlBoardJoint desired controlBoardJoints 0) as [DOF|] eqn:Hfind.
    2:{ apply (findControlBoardJoint_None _ _ 0) in Hfind.
        destruct Hfind. apply Hall. by left. }
    rewrite bool_decide_eq_true_2 by lia.
    destruct (IH (S desiredDOF) true (<[desiredDOF := DOF]> remapped))
      as (remapped' & Hrun & Hbound).
    { rewrite length_insert. lia. }
    { intros name Hname. apply Hall. by right. }
    exists remapped'. split.
    + rewrite Hrun. by destruct rest.
    + intros Hrem. apply Hbound.
      apply findControlBoardJoint_Some in Hfind as (pos & -> & Hpos & _).
      apply Forall_insert; [done|]. simpl. by apply lookup_lt_Some in Hpos.
Qed.

(** What the attachment computes once discovery has bound a control board
    whose joint names can be read. *)
Lemma attachRemappedRemoteControlBoard_run
    (devList : list PolyDriverDescriptor) (impl : Impl)
    (interfaces : ControlBoardRemapperInterfaces) (encodersTimed : IEncodersTimed)
    (live : list string) :
  isKinematicsEnabled (bridgeOptions (metaData impl)) = true →
  scanForControlBoard devList true (controlBoardRemapperInterfaces impl)
    = (true, interfaces) →
  encoders interfaces = Some encodersTimed →
  readControlBoardJoints (axis interfaces) (getAxes encodersTimed) = Returned live →
  attachRemappedRemoteControlBoard devList impl
  = match remapJoints (jointsList (sensorsList (metaData impl))) 0 live false
            (replicate (nrJoints (bridgeOptions (metaData impl))) 0) with
    | Returned (jointFound, remapped) =>
        if negb jointFound
        then Returned (false, withControlBoard interfaces remapped impl)
        else if forallb (λ idx, bool_decide (idx < length live)) remapped
        then Returned (true, withControlBoard interfaces remapped impl)
        else IndexOutOfRange
    | NullDereference => NullDereference
    | IndexOutOfRange => IndexOutOfRange
    end.
Proof.
  intros Henabled Hscan Henc Hlive.
  unfold attachRemappedRemoteControlBoard, orReturnFalse, discoverControlBoard.
  rewrite Henabled, Hscan. simpl.
  destruct impl as [cb masI masFT imu cw ft fg rgbd meas img md bi da dry].
  simpl in *. unfold compareControlBoardJointsList. simpl. rewrite Henc, Hlive.
  by destruct (remapJoints _ _ _ _ _) as [[[] remapped]| |].
Qed.

(** X7. Let discovery bind a control board whose joint names [live] can be
    read, with the kinematics category enabled and the joint count equal to
    the length of the canonical joint list.  Then the attachment always
    returns: it succeeds if and only if the canonical list is not empty and
    each of its joints is reported by the control board.  Afterwards the
    index buffer has one entry per canonical joint, each a valid position
    in [live] when the attachment succeeded, and the position and velocity
    buffers hold that many zeros. *)
Theorem attachRemappedRemoteControlBoard_succeeds_iff
    (devList : list PolyDriverDescriptor) (impl : Impl)
    (interfaces : ControlBoardRemapperInterfaces) (encodersTimed : IEncodersTimed)
    (live : list string)
    (Henabled : isKinematicsEnabled (bridgeOptions (metaData impl)) = true)
    (HnrJoints : nrJoints (bridgeOptions (metaData impl))
                 = length (jointsList (sensorsList (metaData impl))))
    (Hscan : scanForControlBoard devList true (controlBoardRemapperInterfaces impl)
             = (true, interfaces))
    (Hencoders : encoders interfaces = Some encodersTimed)
    (Hlive : readControlBoardJoints (axis interfaces) (getAxes encodersTimed)
             = Returned live) :
  let canonical := jointsList (sensorsList (metaData impl)) in
  ∃ ok impl',
    attachRemappedRemoteControlBoard devList impl = Returned (ok, impl') ∧
    (ok = true ↔ canonical ≠ [] ∧ ∀ name, name ∈ canonical → name ∈ live) ∧
    controlBoardRemapperInterfaces impl' = interfaces ∧
    length (remappedJointIndices (controlBoardRemapperMeasures impl'))
      = length canonical ∧
    (ok = true → Forall (λ idx, idx < length live)
                   (remappedJointIndices (controlBoardRemapperMeasures impl'))) ∧
    jointPositions (controlBoardRemapperMeasures impl')
      = replicate (length canonical) 0%Z ∧
    jointVelocities (controlBoardRemapperMeasures impl')
      = replicate (length canonical) 0%Z.
Proof.
  intros canonical.
  rewrite (attachRemappedRemoteControlBoard_run devList impl interfaces encodersTimed
             live Henabled Hscan Hencoders Hlive).
  fold canonical. rewrite HnrJoints. fold canonical.
  assert (∀ remapped, controlBoardRemapperInterfaces
                        (withControlBoard interfaces remapped impl) = interfaces ∧
            remappedJointIndices (controlBoardRemapperMeasures
              (withControlBoard interfaces remapped impl)) = remapped ∧
            jointPositions (controlBoardRemapperMeasures
              (withControlBoard interfaces remapped impl))
              = replicate (length canonical) 0%Z ∧
            jointVelocities (controlBoardRemapperMeasures
              (withControlBoard interfaces remapped impl))
              = replicate (length canonical) 0%Z) as Hfields.
  { intros remapped. unfold withControlBoard. rewrite HnrJoints. fold canonical.
    by destruct impl. }
  destruct (decide (Forall (λ name, name ∈ live) canonical)) as [Hpresent|Habs].
  2:{ apply not_Forall_Exists in Habs; [|apply _].
      apply Exists_exists in Habs.
      destruct (remapJoints_absent canonical 0 live false
                (replicate (length canonical) 0)) as [remapped Hrun];
      [rewrite length_replicate; lia|done|].
    rewrite Hrun. simpl.
    apply remapJoints_Returned in Hrun as (Hlen & _ & _).
    rewrite length_replicate in Hlen.
    destruct (Hfields remapped) as (F1 & F2 & F3 & F4).
    eexists false, _. split; [done|]. rewrite F1, F2, F3, F4.
    split; [|done]. split; [done|]. intros [_ Hall].
    destruct Habs as (name & Hin & Hout). destruct Hout. by apply Hall. }
  - assert (∀ name, name ∈ canonical → name ∈ live) as Hall
      by (by apply Forall_forall).
    destruct (remapJoints_all_present canonical 0 live false
                (replicate (length canonical) 0)) as (remapped & Hrun & Hbound);
      [rewrite length_replicate; lia|done|].
    rewrite Hrun.
    apply remapJoints_Returned in Hrun as (Hlen & _ & _).
    rewrite length_replicate in Hlen.
    destruct (Hfields remapped) as (F1 & F2 & F3 & F4).
    destruct canonical as [|first rest] eqn:Hcanonical; simpl.
    + eexists false, _. split; [done|]. rewrite F1, F2, F3, F4.
      split; [|done]. split; [done|]. by intros [? _].
    + assert (Forall (λ idx, idx < length live) remapped) as Hvalid.
      { apply Hbound. apply Forall_replicate.
        assert (first ∈ live) as Hfirst by (apply Hall; by left).
        destruct live; [by apply elem_of_nil in Hfirst|simpl; lia]. }
      assert (forallb (λ idx, bool_decide (idx < length live)) remapped = true) as ->.
      { apply forallb_forall. intros idx Hidx. apply bool_decide_eq_true.
        rewrite Forall_forall in Hvalid. apply Hvalid. by apply list_elem_of_In. }
      eexists true, _. split; [done|]. rewrite F1, F2, F3, F4.
      split; [|done]. split; [|done]. intros _. split; [done|]. exact Hall.
Qed.

Lemma attachRemappedRemoteControlBoard_succeeds_iff_witness :
  let live := ["r_hip_pitch"; "r_hip_roll"; "r_knee"] in
  let devList := [controlBoardDevice "remapper" live] in
  let impl := constructed (withJoints ["r_knee"; "r_hip_pitch"]) in
  ∃ ok impl',
    attachRemappedRemoteControlBoard devList impl = Returned (ok, impl') ∧
    (ok = true ↔
     ["r_knee"; "r_hip_pitch"] ≠ [] ∧
     ∀ name, name ∈ ["r_knee"; "r_hip_pitch"] → name ∈ live) ∧
    jointPositions (controlBoardRemapperMeasures impl') = [0; 0]%Z.
Proof.
  intros live devList impl.
  destruct (attachRemappedRemoteControlBoard_succeeds_iff devList impl
              {| encoders := Some {| getAxes := 3 |};
                 axis := Some {| getAxisName :=
                                   λ DOF, default EmptyString (live !! DOF) |} |}
              {| getAxes := 3 |} live eq_refl eq_refl eq_refl eq_refl eq_refl)
    as (ok & impl' & Hrun & Hiff & _ & _ & _ & Hpos & _).
  exists ok, impl'. split; [exact Hrun|]. split; [exact Hiff|exact Hpos].
Defined.

(** X8. With the kinematics category enabled, an empty device list and no
    encoder interface bound so far, the attachment does not return
    [false]: discovery reports success without binding anything and the
    joint comparison calls through the null encoder pointer. *)
Theorem attachRemappedRemoteControlBoard_no_devices (impl : Impl)
    (Henabled : isKinematicsEnabled (bridgeOptions (metaData impl)) = true)
    (Hnull : encoders (controlBoardRemapperInterfaces impl) = None) :
  attachRemappedRemoteControlBoard [] impl = NullDereference.
Proof.
  unfold attachRemappedRemoteControlBoard, orReturnFalse, discoverControlBoard.
  rewrite Henabled. simpl.
  destruct impl as [[enc ax] masI masFT imu cw ft fg rgbd meas img md bi da dry].
  simpl in *. subst enc. reflexivity.
Qed.

Lemma attachRemappedRemoteControlBoard_no_devices_witness :
  attachRemappedRemoteControlBoard [] (constructed (withJoints ["r_knee"]))
  = NullDereference.
Proof.
  exact (attachRemappedRemoteControlBoard_no_devices
           (constructed (withJoints ["r_knee"])) eq_refl eq_refl).
Defined.

(** X9. After a successful control board attachment with pairwise
    distinct canonical joint names, distinct canonical joints are mapped to
    distinct control board positions. *)
Theorem attachRemappedRemoteControlBoard_injective
    (devList : list PolyDriverDescriptor) (impl impl' : Impl)
    (interfaces : ControlBoardRemapperInterfaces) (encodersTimed : IEncodersTimed)
    (live : list string)
    (Henabled : isKinematicsEnabled (bridgeOptions (metaData impl)) = true)
    (Hscan : scanForControlBoard devList true (controlBoardRemapperInterfaces impl)
             = (true, interfaces))
    (Hencoders : encoders interfaces = Some encodersTimed)
    (Hlive : readControlBoardJoints (axis interfaces) (getAxes encodersTimed)
             = Returned live)
    (Hdistinct : NoDup (jointsList (sensorsList (metaData impl))))
    (Hattached : attachRemappedRemoteControlBoard devList impl = Returned (true, impl')) :
  ∀ i j k,
    i < length (jointsList (sensorsList (metaData impl))) →
    j < length (jointsList (sensorsList (metaData impl))) →
    remappedJointIndices (controlBoardRemapperMeasures impl') !! i = Some k →
    remappedJointIndices (controlBoardRemapperMeasures impl') !! j = Some k →
    i = j.
Proof.
  rewrite (attachRemappedRemoteControlBoard_run devList impl interfaces encodersTimed
             live Henabled Hscan Hencoders Hlive) in Hattached.
  destruct (remapJoints _ _ _ _ _) as [[found remapped]| |] eqn:Hrun; try done.
  destruct found; simpl in Hattached; [|done].
  destruct (forallb _ remapped); [|done].
  injection Hattached as <-.
  assert (remappedJointIndices (controlBoardRemapperMeasures
            (withControlBoard interfaces remapped impl)) = remapped) as ->
    by (by destruct impl).
  apply remapJoints_Returned in Hrun as (_ & _ & Hall).
  intros i j k Hi Hj Hki Hkj.
  destruct (lookup_lt_is_Some_2 _ _ Hi) as [ni Hni].
  destruct (lookup_lt_is_Some_2 _ _ Hj) as [nj Hnj].
  destruct (Hall eq_refl i ni Hni) as (ki & Hki' & Hfi).
  destruct (Hall eq_refl j nj Hnj) as (kj & Hkj' & Hfj).
  simpl in Hki', Hkj'. rewrite Hki in Hki'. rewrite Hkj in Hkj'.
  injection Hki' as <-. injection Hkj' as <-.
  apply findControlBoardJoint_Some in Hfi as (pi & -> & Hpi & _).
  apply findControlBoardJoint_Some in Hfj as (pj & Heq & Hpj & _).
  simpl in Heq. subst pj. rewrite Hpi in Hpj. injection Hpj as <-.
  by eapply NoDup_lookup.
Qed.

Lemma attachRemappedRemoteControlBoard_injective_witness :
  let live := ["r_hip_pitch"; "r_hip_roll"; "r_knee"] in
  let devList := [controlBoardDevice "remapper" live] in
  let impl := constructed (withJoints ["r_knee"; "r_hip_pitch"]) in
  NoDup ["r_knee"; "r_hip_pitch"] ∧
  ∃ impl',
    attachRemappedRemoteControlBoard devList impl = Returned (true, impl') ∧
    ∀ i j k, i < 2 → j < 2 →
      remappedJointIndices (controlBoardRemapperMeasures impl') !! i = Some k →
      remappedJointIndices (controlBoardRemapperMeasures impl') !! j = Some k →
      i = j.
Proof.
  intros live devList impl.
  assert (NoDup ["r_knee"; "r_hip_pitch"]) as Hdistinct.
  { apply NoDup_cons. split; [|apply NoDup_singleton].
    intros Hin. apply list_elem_of_singleton in Hin. discriminate. }
  split; [exact Hdistinct|].
  eexists. split; [reflexivity|].
  exact (attachRemappedRemoteControlBoard_injective devList impl _
           {| encoders := Some {| getAxes := 3 |};
              axis := Some {| getAxisName :=
                                λ DOF, default EmptyString (live !! DOF) |} |}
           {| getAxes := 3 |} live eq_refl eq_refl eq_refl eq_refl Hdistinct eq_refl).
Defined.

(** ** MAS attachment *)

Section MASMore.
Context {MASSensorType : Type} `{!MASSensor MASSensorType}.

Lemma scanForMASInterface_first (before after : list PolyDriverDescriptor)
    (dev : PolyDriverDescriptor) (iface : MASSensorType)
    (masSensorInterface : option MASSensorType) :
  (∀ d, d ∈ before → viewPtr (view (T:=MASSensorType) (poly d)) = None) →
  viewPtr (view (T:=MASSensorType) (poly dev)) = Some iface →
  scanForMASInterface (before ++ dev :: after) masSensorInterface = (true, Some iface).
Proof.
  intros Hnone Hsome. induction before as [|d before IH]; simpl.
  - by rewrite Hsome.
  - rewrite (Hnone d) by (by left). apply IH. intros d' Hd'. apply Hnone. by right.
Qed.

Lemma scanForMASInterface_none (devList : list PolyDriverDescriptor)
    (masSensorInterface : option MASSensorType) :
  (∀ d, d ∈ devList → viewPtr (view (T:=MASSensorType) (poly d)) = None) →
  scanForMASInterface devList masSensorInterface = (false, masSensorInterface).
Proof.
  intros Hnone. induction devList as [|d devs IH]; simpl; [done|].
  rewrite (Hnone d) by (by left). apply IH. intros d' Hd'. apply Hnone. by right.
Qed.

Lemma reportMissingMASSensors_elem (iface : MASSensorType) (nrSensors : nat)
    (sensorList : list string) (message : LogMessage) :
  message ∈ reportMissingMASSensors iface nrSensors sensorList ↔
  ∃ name, message = CouldNotAttachToMASSensor name ∧ name ∈ sensorList ∧
          masSensorFound iface nrSensors name = false.
Proof.
  unfold reportMissingMASSensors. rewrite list_elem_of_In, in_flat_map. split.
  - intros (name & Hin & Hmsg). apply list_elem_of_In in Hin.
    destruct (masSensorFound iface nrSensors name) eqn:Hfound; [done|].
    apply list_elem_of_In, list_elem_of_singleton in Hmsg. by exists name.
  - intros (name & -> & Hin & Hfound). exists name.
    split; [by apply list_elem_of_In|]. rewrite Hfound. by left.
Qed.

End MASMore.

(** X10. The aggregate pointer is handed to [attachRemappedMASSensor] by
    value, so the returned flag does not depend on it: the function returns
    [true] exactly when some handle yields a non-null aggregate view, its
    own copy then being the view of the first such handle in list order,
    and returns [false] with its copy untouched when no handle does. *)
Theorem attachRemappedMASSensor_first_match
    {MASSensorType : Type} `{!MASSensor MASSensorType}
    (devList : list PolyDriverDescriptor) (pointer other : option MASSensorType) :
  (attachRemappedMASSensor devList pointer).1
    = (attachRemappedMASSensor devList other).1 ∧
  (∀ before dev after iface,
     devList = before ++ dev :: after →
     (∀ d, d ∈ before → viewPtr (view (T:=MASSensorType) (poly d)) = None) →
     viewPtr (view (T:=MASSensorType) (poly dev)) = Some iface →
     attachRemappedMASSensor devList pointer = (true, Some iface)) ∧
  ((∀ d, d ∈ devList → viewPtr (view (T:=MASSensorType) (poly d)) = None) →
   attachRemappedMASSensor devList pointer = (false, pointer)).
Proof.
  split; [|split].
  - destruct (attachRemappedMASSensor devList pointer).1 eqn:Hp;
      destruct (attachRemappedMASSensor devList other).1 eqn:Ho; try done.
    + apply attachRemappedMASSensor_found in Hp.
      apply (attachRemappedMASSensor_found devList other) in Hp. congruence.
    + apply attachRemappedMASSensor_found in Ho.
      apply (attachRemappedMASSensor_found devList pointer) in Ho. congruence.
  - intros before dev after iface -> Hnone Hsome. unfold attachRemappedMASSensor.
    by rewrite (scanForMASInterface_first before after dev iface pointer Hnone Hsome).
  - intros Hnone. unfold attachRemappedMASSensor.
    by rewrite (scanForMASInterface_none devList pointer Hnone).
Qed.

(** X11. When the pointer handed to [attachAndCheckMASSensors] refers to an
    aggregate, the call always returns, and it returns [true] if and only
    if some handle of the device list yields a non-null aggregate view and
    the count reported by the aggregate the pointer refers to equals the
    number of expected names.  The names play no part in the result: on
    success the messages written are exactly those for the expected names
    that the aggregate does not enumerate. *)
Theorem attachAndCheckMASSensors_succeeds_iff
    {MASSensorType : Type} `{!MASSensor MASSensorType}
    (devList : list PolyDriverDescriptor) (iface : MASSensorType)
    (sensorList : list string) :
  ∃ ok log,
    attachAndCheckMASSensors devList (Some iface) sensorList = Returned (ok, log) ∧
    (ok = true ↔
     (∃ dev, dev ∈ devList ∧ is_Some (viewPtr (view (T:=MASSensorType) (poly dev)))) ∧
     getNumberOfMASSensors iface = length sensorList) ∧
    (ok = true →
     ∀ message, message ∈ log ↔
       ∃ name, message = CouldNotAttachToMASSensor name ∧ name ∈ sensorList ∧
               masSensorFound iface (getNumberOfMASSensors iface) name = false).
Proof.
  unfold attachAndCheckMASSensors.
  pose proof (attachRemappedMASSensor_found devList (Some iface)) as Hfound.
  destruct (attachRemappedMASSensor devList (Some iface)).1; simpl.
  - unfold checkAttachedMASSensors.
    destruct (getNumberOfMASSensors iface =? length sensorList) eqn:Hnr; simpl.
    + apply Nat.eqb_eq in Hnr. eexists true, _. split; [done|]. split.
      * split; [|done]. intros _. split; [by apply Hfound|done].
      * intros _ message. apply reportMissingMASSensors_elem.
    + apply Nat.eqb_neq in Hnr. eexists false, _. split; [done|].
      split; [|done]. split; [done|]. by intros [_ ?].
  - eexists false, _. split; [done|]. split; [|done]. split; [done|].
    intros [Hdev _]. by apply Hfound in Hdev.
Qed.

(** X12. Every name the sensor check can match is among the names that
    [getAllSensorsInMASInterface] enumerates for the same aggregate; when
    every name getter of the aggregate reports success the two agree. *)
Theorem masSensorFound_enumerated
    {MASSensorType : Type} `{!MASSensor MASSensorType}
    (iface : MASSensorType) (name : string) :
  ∃ names,
    getAllSensorsInMASInterface (Some iface) = Returned names ∧
    length names = getNumberOfMASSensors iface ∧
    (masSensorFound iface (getNumberOfMASSensors iface) name = true → name ∈ names) ∧
    ((∀ idx, idx < getNumberOfMASSensors iface → (getMASSensorName iface idx).1 = true) →
     (masSensorFound iface (getNumberOfMASSensors iface) name = true ↔ name ∈ names)).
Proof.
  eexists. split; [reflexivity|]. split; [by rewrite length_map, length_seq|].
  assert (masSensorFound iface (getNumberOfMASSensors iface) name = true →
          name ∈ map (λ sensIdx, (getMASSensorName iface sensIdx).2)
                     (seq 0 (getNumberOfMASSensors iface))) as Hfwd.
  { unfold masSensorFound. rewrite existsb_exists. intros (idx & Hidx & Hmatch).
    destruct (getMASSensorName iface idx) as [ok attached] eqn:Hget.
    apply andb_true_iff in Hmatch as [_ Heq]. apply String.eqb_eq in Heq as <-.
    apply list_elem_of_In, in_map_iff. exists idx. by rewrite Hget. }
  split; [exact Hfwd|]. intros Hok. split; [exact Hfwd|].
  intros Hin. apply list_elem_of_In, in_map_iff in Hin as (idx & Hname & Hidx).
  unfold masSensorFound. apply existsb_exists. exists idx. split; [done|].
  apply in_seq in Hidx. specialize (Hok idx). 
  destruct (getMASSensorName iface idx) as [ok attached]. simpl in *.
  rewrite Hok by lia. subst. simpl. apply String.eqb_refl.
Qed.

Lemma attachAndCheckMASSensors_null
    {MASSensorType : Type} `{!MASSensor MASSensorType}
    (devList : list PolyDriverDescriptor) (sensorList : list string) :
  attachAndCheckMASSensors (MASSensorType:=MASSensorType) devList None sensorList
  = if (attachRemappedMASSensor (MASSensorType:=MASSensorType) devList None).1
    then NullDereference
    else Returned (false, [CouldNotViewInterface; CouldNotFindInterface]).
Proof.
  unfold attachAndCheckMASSensors.
  by destruct (attachRemappedMASSensor devList None).1.
Qed.

(** X13. While the object refers to no inertial MAS aggregate, as it does
    when constructed, the attachment of the inertial sensors cannot succeed
    once an inertial MAS category is enabled: discovery never stores the
    aggregate it finds, so the attachment either returns [false] or calls
    through a null pointer. *)
Theorem attachAllInertials_never_succeeds_without_aggregates
    (devList : list PolyDriverDescriptor) (impl : Impl)
    (Hnull : wholeBodyMASInertialsInterface impl = noInertialAggregates)
    (Henabled : inertialMASEnabled (bridgeOptions (metaData impl)) = true) :
  ∀ impl', attachAllInertials devList impl ≠ Returned (true, impl').
Proof.
  intros impl'.
  destruct impl as [cb masI masFT imu cw ft fg rgbd meas img md bi da dry].
  simpl in *. subst masI. unfold inertialMASEnabled in Henabled.
  unfold attachAllInertials, orReturnFalse, whenEnabled, onMap, byValue, returnTrue.
  simpl.
  repeat (simpl;
          first
            [ rewrite attachAndCheckMASSensors_null
            | match goal with
              | |- context [let '(_, _) := ?x in _] => destruct x as [[] ?]
              end
            | match goal with
              | |- context [if ?b then _ else _] => destruct b
              end ]);
    simpl in *; done.
Qed.

Lemma attachAllInertials_never_succeeds_without_aggregates_witness :
  let devList := [masRemapperDevice "mas" ["r_leg_ft_gyro"] []] in
  let impl := constructed (withGyroscopes ["r_leg_ft_gyro"]) in
  wholeBodyMASInertialsInterface impl = noInertialAggregates ∧
  inertialMASEnabled (bridgeOptions (metaData impl)) = true ∧
  attachAllInertials devList impl ≠ Returned (true, impl).
Proof.
  intros devList impl. split; [reflexivity|]. split; [reflexivity|].
  exact (attachAllInertials_never_succeeds_without_aggregates devList impl
           eq_refl eq_refl impl).
Defined.

(** ** Six axis force torque attachment *)

(** X14. When no handle yields a six axis force torque aggregate view, the
    whole configured list is handed to the legacy analog attachment: with
    the category enabled and the analog record empty, the attachment
    returns, and it succeeds if and only if no configured name is repeated,
    every configured name is the key of a handle, and every handle carrying
    a configured name exposes the analog view with six channels. *)
Theorem attachAllSixAxisForceTorqueSensors_without_aggregate
    (devList : list PolyDriverDescriptor) (impl : Impl)
    (Henabled : isSixAxisForceTorqueSensorEnabled (bridgeOptions (metaData impl)) = true)
    (Hnone : ∀ dev, dev ∈ devList →
               viewPtr (view (T:=ISixAxisForceTorqueSensors) (poly dev)) = None)
    (Hfresh : wholeBodyAnalogSixAxisFTSensorsInterface impl = ∅) :
  let configured := sixAxisForceTorqueSensorsList (sensorsList (metaData impl)) in
  analogFTSensors devList impl = Returned configured ∧
  ∃ ok impl',
    attachAllSixAxisForceTorqueSensors devList impl = Returned (ok, impl') ∧
    (ok = true ↔
     NoDup configured ∧
     ∀ name, name ∈ configured →
       (∃ dev, dev ∈ devList ∧ key dev = name) ∧
       (∀ dev, dev ∈ devList → key dev = name →
          exposes (SensorType:=IAnalogSensor) nrChannelsInYARPAnalogSixAxisFTSensor dev)).
Proof.
  intros configured.
  assert (analogFTSensors devList impl = Returned configured) as Hnames.
  { unfold analogFTSensors, attachRemappedMASSensor.
    by rewrite (scanForMASInterface_none devList _ Hnone). }
  split; [exact Hnames|].
  unfold attachAllSixAxisForceTorqueSensors, onMap.
  rewrite Henabled, Hnames, Hfresh. simpl.
  pose proof (attachAllGenericOrAnalogSensors_fresh_iff (SensorType:=IAnalogSensor)
                devList nrChannelsInYARPAnalogSixAxisFTSensor configured) as Hiff.
  destruct (attachAllGenericOrAnalogSensors devList ∅ _ configured) as [ok m].
  simpl in Hiff. exists ok. eexists. split; [done|]. by rewrite <- Hiff.
Qed.

Lemma attachAllSixAxisForceTorqueSensors_without_aggregate_witness :
  let devList := [analogSensorDevice "r_leg_ft" 6; analogSensorDevice "r_foot_ft" 6] in
  let impl := constructed (withSixAxisForceTorqueSensors ["r_leg_ft"; "r_foot_ft"]) in
  (∀ dev, dev ∈ devList →
     viewPtr (view (T:=ISixAxisForceTorqueSensors) (poly dev)) = None) ∧
  analogFTSensors devList impl = Returned ["r_leg_ft"; "r_foot_ft"] ∧
  ∃ impl', attachAllSixAxisForceTorqueSensors devList impl = Returned (true, impl').
Proof.
  intros devList impl.
  assert (∀ dev, dev ∈ devList →
            viewPtr (view (T:=ISixAxisForceTorqueSensors) (poly dev)) = None) as Hnone.
  { intros dev Hdev. repeat (apply elem_of_cons in Hdev as [->|Hdev]; [done|]).
    by apply elem_of_nil in Hdev. }
  split; [exact Hnone|].
  split; [|eexists; reflexivity].
  exact (proj1 (attachAllSixAxisForceTorqueSensors_without_aggregate devList impl
                  eq_refl Hnone eq_refl)).
Defined.

(** X15. With the category enabled and the force torque aggregate pointer
    of the object null, as it is when constructed, a device list in which
    some handle yields the aggregate view makes the attachment call
    through the null pointer: the aggregate that discovery finds is never
    stored. *)
Theorem attachAllSixAxisForceTorqueSensors_null_aggregate
    (devList : list PolyDriverDescriptor) (impl : Impl)
    (Henabled : isSixAxisForceTorqueSensorEnabled (bridgeOptions (metaData impl)) = true)
    (Hnull : sixAxisFTSensors (wholeBodyMASForceTorquesInterface impl) = None)
    (Hfound : ∃ dev, dev ∈ devList ∧
                is_Some (viewPtr (view (T:=ISixAxisForceTorqueSensors) (poly dev)))) :
  analogFTSensors devList impl = NullDereference ∧
  attachAllSixAxisForceTorqueSensors devList impl = NullDereference.
Proof.
  assert (analogFTSensors devList impl = NullDereference) as Hnames.
  { unfold analogFTSensors. rewrite Hnull.
    by rewrite (proj2 (attachRemappedMASSensor_found devList None) Hfound). }
  split; [exact Hnames|].
  unfold attachAllSixAxisForceTorqueSensors. by rewrite Henabled, Hnames.
Qed.

Lemma attachAllSixAxisForceTorqueSensors_null_aggregate_witness :
  let devList := [masRemapperDevice "mas" [] ["r_leg_ft"];
                  analogSensorDevice "r_foot_ft" 6] in
  let impl := constructed (withSixAxisForceTorqueSensors ["r_leg_ft"; "r_foot_ft"]) in
  (∃ dev, dev ∈ devList ∧
     is_Some (viewPtr (view (T:=ISixAxisForceTorqueSensors) (poly dev)))) ∧
  attachAllSixAxisForceTorqueSensors devList impl = NullDereference.
Proof.
  intros devList impl.
  assert (∃ dev, dev ∈ devList ∧
            is_Some (viewPtr (view (T:=ISixAxisForceTorqueSensors) (poly dev))))
    as Hfound.
  { exists (masRemapperDevice "mas" [] ["r_leg_ft"]). split; [by left|by eexists]. }
  split; [exact Hfound|].
  exact (proj2 (attachAllSixAxisForceTorqueSensors_null_aggregate devList impl
                  eq_refl eq_refl Hfound)).
Defined.

(** ** Reconciliation is independent of the order of the name lists *)

Lemma insertSorted_Permutation (s : string) (l : list string) :
  insertSorted s l ≡ₚ s :: l.
Proof.
  induction l as [|x l IH]; simpl; [done|].
  destruct (String.ltb x s); [|done].
  rewrite IH. apply Permutation_swap.
Qed.

Lemma sortStrings_Permutation (l : list string) : sortStrings l ≡ₚ l.
Proof.
  induction l as [|x l IH]; simpl; [done|].
  by rewrite insertSorted_Permutation, IH.
Qed.

Lemma ascending_unique (l1 l2 : list string) :
  ascending l1 → ascending l2 → l1 ≡ₚ l2 → l1 = l2.
Proof.
  intros H1. revert l2. induction H1 as [|x xs Hx Hxs IH]; intros l2 H2 Hperm.
  - by apply Permutation_nil_l in Hperm.
  - destruct H2 as [|y ys Hy Hys].
    + by apply Permutation_nil_r in Hperm.
    + assert (x = y) as ->.
      { assert (x ∈ y :: ys) as Hxin by (rewrite <- Hperm; by left).
        assert (y ∈ x :: xs) as Hyin by (rewrite Hperm; by left).
        apply elem_of_cons in Hxin as [->|Hxin]; [done|].
        apply elem_of_cons in Hyin as [->|Hyin]; [done|].
        rewrite Forall_forall in Hx, Hy.
        apply ltb_neither_eq; [apply (Hy x Hxin)|apply (Hx y Hyin)]. }
      f_equal. apply IH; [done|]. by apply Permutation_cons_inv in Hperm.
Qed.

Lemma sortStrings_order_independent (l l' : list string) :
  l ≡ₚ l' → sortStrings l = sortStrings l'.
Proof.
  intros Hperm. apply ascending_unique; try apply sortStrings_ascending.
  by rewrite !sortStrings_Permutation.
Qed.

Lemma set_intersection_sublist (l1 l2 : list string) :
  set_intersection l1 l2 `sublist_of` l1.
Proof.
  revert l2. induction l1 as [|x xs IHxs]; intros l2; [done|].
  induction l2 as [|y ys IHys]; [apply sublist_nil_l|].
  change (set_intersection (x :: xs) (y :: ys)) with
    (if String.ltb x y then set_intersection xs (y :: ys)
     else if negb (String.ltb y x) then x :: set_intersection xs ys
     else set_intersection (x :: xs) ys).
  destruct (String.ltb x y); [by apply sublist_cons|].
  destruct (String.ltb y x); simpl; [done|]. by apply sublist_skip.
Qed.

Lemma ascending_sublist (l1 l2 : list string) :
  l1 `sublist_of` l2 → ascending l2 → ascending l1.
Proof.
  induction 1 as [|x l1 l2 Hsub IH|x l1 l2 Hsub IH]; intros Hasc; [done| |].
  - inversion Hasc as [|? ? Hx Hrest]; subst. constructor; [|by apply IH].
    rewrite Forall_forall in Hx |- *. intros z Hz. apply Hx.
    by eapply elem_of_sublist.
  - inversion Hasc; subst. by apply IH.
Qed.

(** X16. When an aggregate is found and the force torque pointer of the
    object refers to an aggregate, the names handed to the analog
    attachment are in ascending order and depend on the enumerated and the
    configured names only up to their order: permuting either list gives
    the same result. *)
Theorem analogFTSensors_order_independent
    (devList : list PolyDriverDescriptor) (impl : Impl)
    (aggregate : ISixAxisForceTorqueSensors)
    (Hfound : ∃ dev, dev ∈ devList ∧
                is_Some (viewPtr (view (T:=ISixAxisForceTorqueSensors) (poly dev))))
    (Hpointer : sixAxisFTSensors (wholeBodyMASForceTorquesInterface impl)
                = Some aggregate) :
  ∃ enumerated names,
    getAllSensorsInMASInterface (Some aggregate) = Returned enumerated ∧
    analogFTSensors devList impl = Returned names ∧
    ascending names ∧
    ∀ enumerated' configured',
      enumerated' ≡ₚ enumerated →
      configured' ≡ₚ sixAxisForceTorqueSensorsList (sensorsList (metaData impl)) →
      set_intersection (sortStrings enumerated') (sortStrings configured') = names.
Proof.
  eexists _, _. split; [reflexivity|].
  unfold analogFTSensors. rewrite Hpointer.
  rewrite (proj2 (attachRemappedMASSensor_found devList (Some aggregate)) Hfound).
  simpl. split; [reflexivity|]. split.
  - eapply ascending_sublist; [apply set_intersection_sublist|].
    apply sortStrings_ascending.
  - intros enumerated' configured' He Hc.
    by rewrite (sortStrings_order_independent _ _ He),
               (sortStrings_order_independent _ _ Hc).
Qed.

Lemma analogFTSensors_order_independent_witness :
  let aggregate := sixAxisFTReporting ["r_leg_ft"; "l_leg_ft"] in
  let devList := [masRemapperDevice "mas" [] ["r_leg_ft"; "l_leg_ft"]] in
  let impl := withMASPointers None (Some aggregate)
                (constructed (withSixAxisForceTorqueSensors
                                ["r_foot_ft"; "r_leg_ft"; "l_leg_ft"])) in
  (∃ dev, dev ∈ devList ∧
     is_Some (viewPtr (view (T:=ISixAxisForceTorqueSensors) (poly dev)))) ∧
  analogFTSensors devList impl = Returned ["l_leg_ft"; "r_leg_ft"] ∧
  ∃ enumerated names,
    getAllSensorsInMASInterface (Some aggregate) = Returned enumerated ∧
    analogFTSensors devList impl = Returned names ∧ ascending names.
Proof.
  intros aggregate devList impl.
  assert (∃ dev, dev ∈ devList ∧
            is_Some (viewPtr (view (T:=ISixAxisForceTorqueSensors) (poly dev))))
    as Hfound.
  { exists (masRemapperDevice "mas" [] ["r_leg_ft"; "l_leg_ft"]).
    split; [by left|by eexists]. }
  split; [exact Hfound|]. split; [reflexivity|].
  destruct (analogFTSensors_order_independent devList impl aggregate Hfound eq_refl)
    as (enumerated & names & Henum & Hnames & Hasc & _).
  exists enumerated, names. auto.
Defined.

(** ** Configuration loaders *)

Lemma configureCameraType_result (ptr : gmap string ParameterValue)
    (listKey widthKey heightKey : string)
    (getList : SensorLists → list string)
    (setList : list string → SensorLists → SensorLists)
    (md : SensorBridgeMetaData) :
  let r := configureCameraType ptr listKey widthKey heightKey getList setList md in
  (r.1.1 = true ↔ cameraBlockAccepted ptr listKey widthKey heightKey) ∧
  (r.1.1 = true →
   r.1.2 = [] ∧
   imgDimensions (bridgeOptions r.2) = imgDimensions (bridgeOptions md)).
Proof.
  unfold configureCameraType, cameraBlockAccepted, getStringListParameter,
    getIntListParameter.
  destruct md as [lists [kin imu acc gyro ori mag ft cw cam n dims]].
  destruct (ptr !! listKey) as [[cameras|ints]|]; simpl; [|done|done].
  destruct (ptr !! widthKey) as [[ws|widths]|]; simpl;
    try (split; [|done]; split; [done|]; intros (_ & Hw & _); by edestruct Hw);
    (destruct (ptr !! heightKey) as [[hs|heights]|]; simpl;
     try (split; [|done]; split; [done|]; intros (_ & _ & Hh); by edestruct Hh));
    destruct cameras as [|camera cameras]; simpl; try done;
    try (split; [|done]; split; [done|]; by intros [? _]).
Qed.

(** X17. [configureCameras] succeeds exactly when the handler is alive
    and, for each of the two camera types, either the camera list is absent
    or it is empty with neither its width key nor its height key present.
    A successful configuration therefore never stores an image dimension:
    the dimensions map is left as it was. *)
Theorem configureCameras_accepted (handler : Handler) (md : SensorBridgeMetaData) :
  let r := configureCameras handler md in
  (r.1.1 = true ↔
   ∃ ptr, handler = Some ptr ∧
     cameraBlockAccepted ptr "rgb_cameras_list" "rgb_image_width" "rgb_image_height" ∧
     cameraBlockAccepted ptr "depth_cameras_list" "depth_image_width"
                         "depth_image_height") ∧
  (r.1.1 = true →
   r.1.2 = [] ∧ imgDimensions (bridgeOptions r.2) = imgDimensions (bridgeOptions md)).
Proof.
  unfold configureCameras. destruct handler as [ptr|]; simpl.
  2:{ split; [|done]. split; [done|]. by intros (? & ? & _). }
  pose proof (configureCameraType_result ptr "rgb_cameras_list" "rgb_image_width"
                "rgb_image_height" rgbCamerasList set_rgbCamerasList md) as [R1 R2].
  destruct (configureCameraType ptr "rgb_cameras_list" _ _ _ _ md)
    as [[ok log] md1]. simpl in R1, R2.
  destruct ok; simpl.
  - pose proof (configureCameraType_result ptr "depth_cameras_list" "depth_image_width"
                  "depth_image_height" depthCamerasList set_depthCamerasList md1)
      as [D1 D2].
    destruct (R2 eq_refl) as [_ Hdims1].
    split.
    + rewrite D1. split.
      * intros Hd. exists ptr. split; [done|]. split; [by apply R1|done].
      * intros (p & [= <-] & _ & Hd). done.
    + intros Hok. destruct (D2 Hok) as [Hlog Hdims]. split; [done|]. congruence.
  - split; [|done]. split; [done|]. intros (p & [= <-] & Hrgb & _). by apply R1.
Qed.

(** X18. Configuration of the control board succeeds exactly when the
    handler is alive and holds a string list under [joints_list]; the
    canonical joint list is then that list and the joint count its length.
    On failure the meta data is left as it was. *)
Theorem configureRemoteControlBoardRemapper_result (handler : Handler)
    (md : SensorBridgeMetaData) :
  let r := configureRemoteControlBoardRemapper handler md in
  (r.1.1 = true ↔
   ∃ ptr joints, handler = Some ptr ∧ ptr !! "joints_list" = Some (StringList joints)) ∧
  (∀ ptr joints,
     handler = Some ptr → ptr !! "joints_list" = Some (StringList joints) →
     jointsList (sensorsList r.2) = joints ∧
     nrJoints (bridgeOptions r.2) = length joints) ∧
  (r.1.1 = false → r.2 = md).
Proof.
  unfold configureRemoteControlBoardRemapper, getStringListParameter.
  destruct md as [[j imu acc gyro ori mag ft cw rgb depth] opts].
  destruct handler as [ptr|]; simpl.
  2:{ split; [|done]. split; [done|]. by intros (? & ? & ? & _). }
  destruct (ptr !! "joints_list") as [[joints|ints]|] eqn:Hkey; simpl.
  - split; [|split; [|done]].
    + split; [|done]. intros _. by exists ptr, joints.
    + intros p js [= <-] Hjs. rewrite Hkey in Hjs. injection Hjs as <-.
      by destruct opts.
  - split; [|split; [|done]].
    + split; [done|]. intros (p & js & [= <-] & Hjs). congruence.
    + intros p js [= <-] Hjs. congruence.
  - split; [|split; [|done]].
    + split; [done|]. intros (p & js & [= <-] & Hjs). congruence.
    + intros p js [= <-] Hjs. congruence.
Qed.

Lemma inertialStep_effect (ptr : gmap string ParameterValue)
    (c0 : InertialCategory) (md : SensorBridgeMetaData) :
  nonInertialPart (inertialStep ptr c0 md) = nonInertialPart md ∧
  (∀ c, c ≠ c0 →
     inertialList c (inertialStep ptr c0 md) = inertialList c md ∧
     inertialFlag c (inertialStep ptr c0 md) = inertialFlag c md) ∧
  match ptr !! inertialKey c0 with
  | Some (StringList names) =>
      inertialList c0 (inertialStep ptr c0 md) = names ∧
      inertialFlag c0 (inertialStep ptr c0 md) = true
  | _ =>
      inertialList c0 (inertialStep ptr c0 md) = inertialList c0 md ∧
      inertialFlag c0 (inertialStep ptr c0 md) = inertialFlag c0 md
  end.
Proof.
  destruct md as [[j imu acc gyro ori mag ft cw rgb depth]
                  [kin eimu eacc egyro eori emag eft ecw ecam n dims]].
  destruct c0; unfold inertialStep, configureInertialList, getStringListParameter,
    nonInertialPart, inertialKey;
    (match goal with |- context [ptr !! ?k] => destruct (ptr !! k) as [[]|] end);
    (split; [reflexivity|]); (split; [|by split]); by intros [].
Qed.

(** X19. For every live handler [configureInertialSensors] succeeds, even
    when none of its lists is present.  The flag of each inertial category
    is set when its list is present and is otherwise left as it was, so no
    flag is ever cleared; the name list of a category is replaced when its
    list is present and kept otherwise; joints, force torque, wrench and
    camera settings are not touched. *)
Theorem configureInertialSensors_result (ptr : gmap string ParameterValue)
    (md : SensorBridgeMetaData) :
  ∃ md',
    configureInertialSensors (Some ptr) md = (true, [], md') ∧
    nonInertialPart md' = nonInertialPart md ∧
    ∀ c : InertialCategory,
      match ptr !! inertialKey c with
      | Some (StringList names) =>
          inertialList c md' = names ∧ inertialFlag c md' = true
      | _ =>
          inertialList c md' = inertialList c md ∧
          inertialFlag c md' = inertialFlag c md
      end.
Proof.
  set (md1 := inertialStep ptr GenericIMU md).
  set (md2 := inertialStep ptr LinearAccelerometer md1).
  set (md3 := inertialStep ptr Gyroscope md2).
  set (md4 := inertialStep ptr OrientationSensor md3).
  set (md5 := inertialStep ptr Magnetometer md4).
  exists md5. split; [reflexivity|].
  destruct (inertialStep_effect ptr GenericIMU md) as (N1 & O1 & S1).
  destruct (inertialStep_effect ptr LinearAccelerometer md1) as (N2 & O2 & S2).
  destruct (inertialStep_effect ptr Gyroscope md2) as (N3 & O3 & S3).
  destruct (inertialStep_effect ptr OrientationSensor md3) as (N4 & O4 & S4).
  destruct (inertialStep_effect ptr Magnetometer md4) as (N5 & O5 & S5).
  fold md1 in N1, O1, S1. fold md2 in N2, O2, S2. fold md3 in N3, O3, S3.
  fold md4 in N4, O4, S4. fold md5 in N5, O5, S5.
  split; [congruence|].
  intros c.
  destruct c.
  - destruct (O2 GenericIMU), (O3 GenericIMU), (O4 GenericIMU), (O5 GenericIMU); try done.
    destruct (ptr !! inertialKey GenericIMU) as [[]|]; destruct S1; split; congruence.
  - destruct (O1 LinearAccelerometer), (O3 LinearAccelerometer),
      (O4 LinearAccelerometer), (O5 LinearAccelerometer); try done.
    destruct (ptr !! inertialKey LinearAccelerometer) as [[]|]; destruct S2;
      split; congruence.
  - destruct (O1 Gyroscope), (O2 Gyroscope), (O4 Gyroscope), (O5 Gyroscope); try done.
    destruct (ptr !! inertialKey Gyroscope) as [[]|]; destruct S3; split; congruence.
  - destruct (O1 OrientationSensor), (O2 OrientationSensor), (O3 OrientationSensor),
      (O5 OrientationSensor); try done.
    destruct (ptr !! inertialKey OrientationSensor) as [[]|]; destruct S4;
      split; congruence.
  - destruct (O1 Magnetometer), (O2 Magnetometer), (O3 Magnetometer),
      (O4 Magnetometer); try done.
    destruct (ptr !! inertialKey Magnetometer) as [[]|]; destruct S5; split; congruence.
Qed.

(** X20. When a stream is switched on (its enable parameter is present and
    not zero), the loader is run on the weak pointer that [getGroup] hands
    out for the stream's group.  If that pointer has expired, loading fails
    for all five loaders.  If it is alive and its handler holds no
    parameter, loading fails for the control board, the force torque
    sensors and the cartesian wrenches, whose list is required, and
    succeeds for the inertial sensors and the cameras, which are then left
    without any list.  The meta data is unchanged in all ten cases and the
    stream flag is set. *)
Theorem subConfigLoader_group_without_lists (enableStreamString streamGroupString : string)
    (ptr : ParametersHandler) (md : SensorBridgeMetaData) (flag : bool) (value : Z)
    (Hswitch : intParameters ptr !! enableStreamString = Some value)
    (Hon : value ≠ 0%Z) :
  (getGroup ptr streamGroupString = None →
   ∀ loader : SubConfigLoader,
     loader ∈ [configureRemoteControlBoardRemapper; configureInertialSensors;
               configureSixAxisForceTorqueSensors; configureCartesianWrenches;
               configureCameras] →
     subConfigLoader enableStreamString streamGroupString loader (Some ptr) md flag
     = (false, md, true)) ∧
  (getGroup ptr streamGroupString = Some ∅ →
   subConfigLoader enableStreamString streamGroupString
     configureRemoteControlBoardRemapper (Some ptr) md flag = (false, md, true) ∧
   subConfigLoader enableStreamString streamGroupString
     configureSixAxisForceTorqueSensors (Some ptr) md flag = (false, md, true) ∧
   subConfigLoader enableStreamString streamGroupString
     configureCartesianWrenches (Some ptr) md flag = (false, md, true) ∧
   subConfigLoader enableStreamString streamGroupString
     configureInertialSensors (Some ptr) md flag = (true, md, true) ∧
   subConfigLoader enableStreamString streamGroupString
     configureCameras (Some ptr) md flag = (true, md, true)).
Proof.
  unfold subConfigLoader, getIntParameter.
  rewrite Hswitch.
  apply Z.eqb_neq in Hon. rewrite Hon. simpl.
  split; intros ->.
  - intros loader Hloader.
    repeat (apply elem_of_cons in Hloader as [->|Hloader]; [reflexivity|]).
    by apply elem_of_nil in Hloader.
  - destruct md as [[j imu acc gyro ori mag ft cw rgb depth]
                    [kin eimu eacc egyro eori emag eft ecw ecam n dims]].
    repeat split; reflexivity.
Qed.

Lemma subConfigLoader_group_without_lists_witness :
  let expired := {| intParameters := {["stream_forcetorque_sensors" := 1%Z]};
                    groups := λ _, None |} in
  let empty := {| intParameters := {["stream_forcetorque_sensors" := 1%Z]};
                  groups := λ _, Some ∅ |} in
  subConfigLoader "stream_forcetorque_sensors" "SixAxisForceTorqueSensors"
    configureInertialSensors (Some expired) emptyMetaData false
  = (false, emptyMetaData, true) ∧
  subConfigLoader "stream_forcetorque_sensors" "SixAxisForceTorqueSensors"
    configureSixAxisForceTorqueSensors (Some empty) emptyMetaData false
  = (false, emptyMetaData, true) ∧
  subConfigLoader "stream_forcetorque_sensors" "SixAxisForceTorqueSensors"
    configureInertialSensors (Some empty) emptyMetaData false
  = (true, emptyMetaData, true).
Proof.
  intros expired empty.
  destruct (subConfigLoader_group_without_lists "stream_forcetorque_sensors"
              "SixAxisForceTorqueSensors" expired emptyMetaData false 1%Z
              eq_refl ltac:(discriminate)) as [Hexpired _].
  destruct (subConfigLoader_group_without_lists "stream_forcetorque_sensors"
              "SixAxisForceTorqueSensors" empty emptyMetaData false 1%Z
              eq_refl ltac:(discriminate)) as [_ Hempty].
  destruct (Hempty eq_refl) as (_ & Hft & _ & Hinertial & _).
  split; [|split; [exact Hft|exact Hinertial]].
  apply (Hexpired eq_refl). apply elem_of_cons. right. apply elem_of_cons. by left.
Defined.

(** X21. [subConfigLoader] succeeds exactly when the handler is alive and,
    if the stream is switched on, the loader succeeds on the stream's
    group.  When the enable parameter is absent or zero the loader is not
    run and the meta data stays as it was; the stream flag becomes whether
    the parameter is not zero, and keeps its value when the parameter is
    absent or the handler has expired. *)
Theorem subConfigLoader_result (enableStreamString streamGroupString : string)
    (loader : SubConfigLoader) (handler : option ParametersHandler)
    (md : SensorBridgeMetaData) (flag : bool) :
  let r := subConfigLoader enableStreamString streamGroupString loader handler md flag in
  (r.1.1 = true ↔
   ∃ ptr, handler = Some ptr ∧
     ∀ value, intParameters ptr !! enableStreamString = Some value → value ≠ 0%Z →
       (loader (getGroup ptr streamGroupString) md).1.1 = true) ∧
  ((∀ ptr value, handler = Some ptr →
      intParameters ptr !! enableStreamString = Some value → value = 0%Z) →
   r.1.2 = md) ∧
  r.2 = match handler with
        | Some ptr =>
            match intParameters ptr !! enableStreamString with
            | Some value => negb (value =? 0)%Z
            | None => flag
            end
        | None => flag
        end.
Proof.
  unfold subConfigLoader, getIntParameter.
  destruct handler as [ptr|]; simpl.
  2:{ split; [|done]. split; [done|]. by intros (? & ? & _). }
  destruct (intParameters ptr !! enableStreamString) as [value|] eqn:Hswitch; simpl.
  2:{ split; [|done]. split; [|done]. intros _. exists ptr. split; [done|].
      intros v Hv. congruence. }
  destruct (value =? 0)%Z eqn:Hzero; simpl.
  - apply Z.eqb_eq in Hzero as ->. split; [|done]. split; [|done]. intros _.
    exists ptr. split; [done|]. intros v Hv Hnz. congruence.
  - apply Z.eqb_neq in Hzero.
    destruct (loader (getGroup ptr streamGroupString) md) as [[ok log] md'] eqn:Hload.
    split; [|split; [|by destruct ok]].
    + destruct ok; simpl.
      * split; [|done]. intros _. exists ptr. split; [done|].
        intros v Hv _. by rewrite Hload.
      * split; [done|]. intros (p & [= <-] & Hall).
        specialize (Hall value Hswitch Hzero). by rewrite Hload in Hall.
    + intros Hoff. destruct Hzero. by apply (Hoff ptr).
Qed.

(** ** The attachment functions and the validity gate *)

Lemma preservesGate_returnTrue : preservesGate returnTrue.
Proof. intros impl ok impl' [= <- <-]. done. Qed.

Lemma preservesGate_orReturnFalse (step rest : Attach) :
  preservesGate step → preservesGate rest → preservesGate (orReturnFalse step rest).
Proof.
  intros Hstep Hrest impl ok impl'. unfold orReturnFalse.
  destruct (step impl) as [[[] mid]| |] eqn:Hs; try done.
  - intros Hr. rewrite (Hrest _ _ _ Hr). by eapply Hstep.
  - intros [= <- <-]. by eapply Hstep.
Qed.

Lemma preservesGate_whenEnabled (enabled : SensorBridgeOptions → bool) (body : Attach) :
  preservesGate body → preservesGate (whenEnabled enabled body).
Proof.
  intros Hbody impl ok impl'. unfold whenEnabled.
  destruct (enabled _); [apply Hbody|apply preservesGate_returnTrue].
Qed.

Lemma preservesGate_onMap {V : Type} (get : Impl → gmap string V)
    (set : gmap string V → Impl → Impl)
    (call : Impl → gmap string V → bool * gmap string V) :
  (∀ v impl, gateState (set v impl) = gateState impl) →
  preservesGate (λ impl, onMap get set (call impl) impl).
Proof.
  intros Hset impl ok impl'. unfold onMap.
  destruct (call impl (get impl)) as [b m]. intros [= <- <-]. apply Hset.
Qed.

Lemma preservesGate_byValue {T : Type} (get : Impl → option T)
    (call : Impl → option T → Outcome (bool * list LogMessage)) :
  preservesGate (λ impl, byValue get (call impl) impl).
Proof.
  intros impl ok impl'. unfold byValue.
  destruct (call impl (get impl)) as [[b log]| |]; try done. by intros [= <- <-].
Qed.

Lemma preservesGate_guarded (enabled : SensorBridgeOptions → bool) (body : Attach) :
  preservesGate body →
  preservesGate (λ impl, if negb (enabled (bridgeOptions (metaData impl)))
                         then Returned (true, impl) else body impl).
Proof.
  intros Hbody impl ok impl'. destruct (negb _); [by intros [= <- <-]|apply Hbody].
Qed.

Lemma preservesGate_attachAllInertials (devList : list PolyDriverDescriptor) :
  preservesGate (attachAllInertials devList).
Proof.
  unfold attachAllInertials.
  repeat (apply preservesGate_orReturnFalse; [apply preservesGate_whenEnabled|]);
    try apply preservesGate_returnTrue; try apply preservesGate_byValue.
  apply (preservesGate_onMap _ _
           (λ impl sensorMap, attachAllGenericOrAnalogSensors devList sensorMap
              nrChannelsInYARPGenericIMUSensor (IMUsList (sensorsList (metaData impl))))).
  by intros v [].
Qed.

Lemma preservesGate_attachRemappedRemoteControlBoard
    (devList : list PolyDriverDescriptor) :
  preservesGate (attachRemappedRemoteControlBoard devList).
Proof.
  apply (preservesGate_guarded isKinematicsEnabled).
  apply preservesGate_orReturnFalse.
  - intros impl ok impl'. unfold discoverControlBoard.
    destruct (scanForControlBoard _ _ _) as [b ifaces]. intros [= <- <-].
    by destruct impl.
  - intros impl ok impl'. unfold compareControlBoardJointsList.
    destruct impl as [[enc ax] masI masFT imu cw ft fg rgbd meas img md bi da dry].
    simpl. destruct enc; [|done].
    destruct (readControlBoardJoints _ _); try done.
    destruct (remapJoints _ _ _ _ _) as [[[] remapped]| |]; simpl; try done.
    + destruct (forallb _ _); [|done]. by intros [= <- <-].
    + by intros [= <- <-].
Qed.

Lemma preservesGate_attachAllSixAxisForceTorqueSensors
    (devList : list PolyDriverDescriptor) :
  preservesGate (attachAllSixAxisForceTorqueSensors devList).
Proof.
  apply (preservesGate_guarded isSixAxisForceTorqueSensorEnabled).
  intros impl ok impl'.
  destruct (analogFTSensors devList impl) as [names| |]; try done.
  unfold onMap. destruct (attachAllGenericOrAnalogSensors _ _ _ _) as [b m].
  intros [= <- <-]. by destruct impl.
Qed.

Lemma preservesGate_attachCartesianWrenchInterface
    (devList : list PolyDriverDescriptor) :
  preservesGate (attachCartesianWrenchInterface devList).
Proof.
  apply (preservesGate_guarded isCartesianWrenchEnabled).
  apply preservesGate_orReturnFalse; [|apply preservesGate_returnTrue].
  apply preservesGate_whenEnabled.
  apply (preservesGate_onMap _ _
           (λ impl sensorMap, attachAllGenericOrAnalogSensors devList sensorMap
              nrChannelsInYARPGenericCartesianWrench
              (cartesianWrenchesList (sensorsList (metaData impl))))).
  by intros v [].
Qed.

Lemma preservesGate_attachCamerasOfType {CameraType : Type} `{!Viewable CameraType}
    (devList : list PolyDriverDescriptor) (camList : Impl → list string)
    (get : Impl → gmap string CameraType)
    (set : gmap string CameraType → Impl → Impl) :
  (∀ v impl, gateState (set v impl) = gateState impl) →
  preservesGate (attachCamerasOfType devList camList get set).
Proof.
  intros Hset impl ok impl'. unfold attachCamerasOfType.
  destruct (attachAllCamerasOfSpecificType _ _ _ _ _) as [[b m] buffers].
  intros [= <- <-]. rewrite <- (Hset m impl). by destruct (set m impl).
Qed.

Lemma preservesGate_attachAllCameras (devList : list PolyDriverDescriptor) :
  preservesGate (attachAllCameras devList).
Proof.
  apply (preservesGate_guarded isCameraEnabled).
  repeat (apply preservesGate_orReturnFalse;
          [apply preservesGate_attachCamerasOfType; by intros v []|]).
  apply preservesGate_returnTrue.
Qed.

(** X22. None of the attachment functions of the implementation changes
    the configuration meta data or either state flag.  In particular a
    successful attachment does not set [driversAttached], and [checkValid]
    gives the same verdict after any of them as before. *)
Theorem attachments_leave_the_gate (devList : list PolyDriverDescriptor) :
  preservesGate (attachRemappedRemoteControlBoard devList) ∧
  preservesGate (attachAllInertials devList) ∧
  preservesGate (attachAllSixAxisForceTorqueSensors devList) ∧
  preservesGate (attachCartesianWrenchInterface devList) ∧
  preservesGate (attachAllCameras devList) ∧
  (∀ impl impl' methodName,
     gateState impl' = gateState impl →
     checkValid impl' methodName = checkValid impl methodName).
Proof.
  split; [apply preservesGate_attachRemappedRemoteControlBoard|].
  split; [apply preservesGate_attachAllInertials|].
  split; [apply preservesGate_attachAllSixAxisForceTorqueSensors|].
  split; [apply preservesGate_attachCartesianWrenchInterface|].
  split; [apply preservesGate_attachAllCameras|].
  intros impl impl' methodName [= Hmd Hinit Hattached].
  unfold checkValid. by rewrite Hinit, Hattached.
Qed.

(** ** Channel counts keep generic sensor categories apart *)

(** X23. A name cannot be attached through the generic sensor interface
    under two different channel counts from the same device list: if the
    attachment of a list containing it has succeeded for one count (as for
    the twelve channels of an IMU), the attachment of any list containing
    it fails for a different count (as for the six channels of a cartesian
    wrench). *)
Theorem attachAllGenericOrAnalogSensors_one_channel_count
    {SensorType : Type} `{!ChannelSensor SensorType}
    (devList : list PolyDriverDescriptor) (name : string)
    (nr nr' : Z) (sensorList sensorList' : list string)
    (Hdifferent : nr ≠ nr')
    (Hin : name ∈ sensorList) (Hin' : name ∈ sensorList')
    (Hattached : (attachAllGenericOrAnalogSensors (SensorType:=SensorType)
                    devList ∅ nr sensorList).1 = true) :
  (attachAllGenericOrAnalogSensors (SensorType:=SensorType)
     devList ∅ nr' sensorList').1 = false.
Proof.
  apply attachAllGenericOrAnalogSensors_fresh_iff in Hattached as [_ Hall].
  destruct (Hall name Hin) as [(dev & Hdev & Hkey) Hexposes].
  destruct (Hexposes dev Hdev Hkey) as (_ & iface & Hptr & Hchannels).
  apply not_true_is_false. intros Hother.
  apply attachAllGenericOrAnalogSensors_fresh_iff in Hother as [_ Hall'].
  destruct (Hall' name Hin') as [_ Hexposes'].
  destruct (Hexposes' dev Hdev Hkey) as (_ & iface' & Hptr' & Hchannels').
  rewrite Hptr in Hptr'. injection Hptr' as <-. congruence.
Qed.

Lemma attachAllGenericOrAnalogSensors_one_channel_count_witness :
  let devList := [genericSensorDevice "head_imu" 12] in
  (attachAllGenericOrAnalogSensors (SensorType:=IGenericSensor) devList ∅
     nrChannelsInYARPGenericIMUSensor ["head_imu"]).1 = true ∧
  (attachAllGenericOrAnalogSensors (SensorType:=IGenericSensor) devList ∅
     nrChannelsInYARPGenericCartesianWrench ["head_imu"]).1 = false.
Proof.
  intros devList. split; [reflexivity|].
  apply (attachAllGenericOrAnalogSensors_one_channel_count (SensorType:=IGenericSensor)
           devList "head_imu" nrChannelsInYARPGenericIMUSensor
           nrChannelsInYARPGenericCartesianWrench ["head_imu"] ["head_imu"]).
  - discriminate.
  - by left.
  - by left.
  - reflexivity.
Defined.

(** * Categories on a fresh object, and the bridge state machine *)

(** ** Generic and analog categories *)

(** The generic IMU step is the only one [attachAllInertials] runs when no
    MAS inertial category is enabled. *)
Lemma attachAllInertials_generic_only (devList : list PolyDriverDescriptor)
    (impl : Impl) :
  isIMUEnabled (bridgeOptions (metaData impl)) = true →
  inertialMASEnabled (bridgeOptions (metaData impl)) = false →
  ∃ impl',
    attachAllInertials devList impl
    = Returned ((attachAllGenericOrAnalogSensors devList
                   (wholeBodyAnalogIMUInterface impl)
                   nrChannelsInYARPGenericIMUSensor
                   (IMUsList (sensorsList (metaData impl)))).1, impl').
Proof.
  destruct impl as [cb masI masFT imu cw ft fg rgbd meas img
                    [lists [kin eimu eacc egyro eori emag eft ecw ecam n dims]] bi da dry].
  unfold inertialMASEnabled. simpl. intros -> Hmas.
  apply orb_false_elim in Hmas as [Hmas ->].
  apply orb_false_elim in Hmas as [Hmas ->].
  apply orb_false_elim in Hmas as [-> ->].
  unfold attachAllInertials, orReturnFalse, whenEnabled, onMap, returnTrue. simpl.
  destruct (attachAllGenericOrAnalogSensors devList imu _ _) as [[] m]; simpl;
    by eexists.
Qed.

Lemma attachCartesianWrenchInterface_enabled (devList : list PolyDriverDescriptor)
    (impl : Impl) :
  isCartesianWrenchEnabled (bridgeOptions (metaData impl)) = true →
  ∃ impl',
    attachCartesianWrenchInterface devList impl
    = Returned ((attachAllGenericOrAnalogSensors devList
                   (wholeBodyCartesianWrenchInterface impl)
                   nrChannelsInYARPGenericCartesianWrench
                   (cartesianWrenchesList (sensorsList (metaData impl)))).1, impl').
Proof.
  destruct impl as [cb masI masFT imu cw ft fg rgbd meas img
                    [lists [kin eimu eacc egyro eori emag eft ecw ecam n dims]] bi da dry].
  simpl. intros ->.
  unfold attachCartesianWrenchInterface, orReturnFalse, whenEnabled, onMap, returnTrue.
  simpl.
  destruct (attachAllGenericOrAnalogSensors devList cw _ _) as [[] m]; simpl;
    by eexists.
Qed.

Lemma attachAllSixAxisForceTorqueSensors_analog_only
    (devList : list PolyDriverDescriptor) (impl : Impl) :
  isSixAxisForceTorqueSensorEnabled (bridgeOptions (metaData impl)) = true →
  noForceTorqueAggregate devList →
  ∃ impl',
    attachAllSixAxisForceTorqueSensors devList impl
    = Returned ((attachAllGenericOrAnalogSensors devList
                   (wholeBodyAnalogSixAxisFTSensorsInterface impl)
                   nrChannelsInYARPAnalogSixAxisFTSensor
                   (sixAxisForceTorqueSensorsList (sensorsList (metaData impl)))).1,
                impl').
Proof.
  intros Henabled Hnone.
  unfold attachAllSixAxisForceTorqueSensors, analogFTSensors. rewrite Henabled. simpl.
  unfold attachRemappedMASSensor.
  rewrite (scanForMASInterface_none devList
             (sixAxisFTSensors (wholeBodyMASForceTorquesInterface impl))).
  2:{ exact Hnone. }
  simpl. unfold onMap.
  destruct (attachAllGenericOrAnalogSensors devList _ _ _) as [ok m]. simpl.
  by eexists.
Qed.

(** C2, as stated, fails.  The cartesian wrench category is enabled with
    the expected names [left_wrench] and [right_wrench].  A first
    attachment is given a handle for [left_wrench] only: it binds that
    name and fails on the size check.  The record is a member that is
    never cleared, so a second attachment that is given a handle for
    [right_wrench] only succeeds, although [left_wrench] has no matching
    handle in the supplied list. *)
Lemma attachCartesianWrenchInterface_retry_succeeds :
  let md := withCartesianWrenches ["left_wrench"; "right_wrench"] in
  let first := [genericSensorDevice "left_wrench" 6] in
  let second := [genericSensorDevice "right_wrench" 6] in
  ∃ impl1 impl2,
    attachCartesianWrenchInterface first (constructed md) = Returned (false, impl1) ∧
    attachCartesianWrenchInterface second impl1 = Returned (true, impl2) ∧
    isCartesianWrenchEnabled (bridgeOptions (metaData impl1)) = true ∧
    cartesianWrenchesList (sensorsList (metaData impl1)) = ["left_wrench"; "right_wrench"] ∧
    ¬ (∃ dev, dev ∈ second ∧ key dev = "left_wrench" ∧
              exposes (SensorType:=IGenericSensor)
                nrChannelsInYARPGenericCartesianWrench dev).
Proof.
  intros md first second.
  eexists _, _. split; [vm_compute; reflexivity|].
  split; [vm_compute; reflexivity|].
  split; [reflexivity|]. split; [reflexivity|].
  intros (dev & Hdev & Hkey & _).
  apply list_elem_of_singleton in Hdev as ->. discriminate.
Qed.

(** C2, amended.  Let the handles of the device list carry unique keys.
    The attachment template, started on an empty record, succeeds if and
    only if no expected name is repeated and every expected name has a
    matching handle in the list that exposes the capability view and
    reports exactly the expected channel count, for the generic and for
    the analog sensor interface alike.  The same holds for the attachment
    of an enabled category whose record is still empty: for the generic
    IMU through [attachAllInertials] when no MAS inertial category is
    enabled (twelve channels), for the cartesian wrenches through
    [attachCartesianWrenchInterface] (six channels), and for the six axis
    force torque sensors through [attachAllSixAxisForceTorqueSensors] when
    no handle of the list yields the force torque aggregate (six
    channels).  So a missing handle, a failed view, a channel-count
    mismatch or a repeated expected name make the attachment fail. *)
Theorem generic_or_analog_category_first_attachment
    (devList : list PolyDriverDescriptor) (impl : Impl)
    (Hkeys : NoDup (key <$> devList)) :
  (∀ (nr : Z) (sensorList : list string),
     (attachAllGenericOrAnalogSensors (SensorType:=IGenericSensor)
        devList ∅ nr sensorList).1 = true ↔
     allExposed (SensorType:=IGenericSensor) devList nr sensorList) ∧
  (∀ (nr : Z) (sensorList : list string),
     (attachAllGenericOrAnalogSensors (SensorType:=IAnalogSensor)
        devList ∅ nr sensorList).1 = true ↔
     allExposed (SensorType:=IAnalogSensor) devList nr sensorList) ∧
  (isIMUEnabled (bridgeOptions (metaData impl)) = true →
   inertialMASEnabled (bridgeOptions (metaData impl)) = false →
   wholeBodyAnalogIMUInterface impl = ∅ →
   ∃ ok impl',
     attachAllInertials devList impl = Returned (ok, impl') ∧
     (ok = true ↔
      allExposed (SensorType:=IGenericSensor) devList nrChannelsInYARPGenericIMUSensor
        (IMUsList (sensorsList (metaData impl))))) ∧
  (isCartesianWrenchEnabled (bridgeOptions (metaData impl)) = true →
   wholeBodyCartesianWrenchInterface impl = ∅ →
   ∃ ok impl',
     attachCartesianWrenchInterface devList impl = Returned (ok, impl') ∧
     (ok = true ↔
      allExposed (SensorType:=IGenericSensor) devList
        nrChannelsInYARPGenericCartesianWrench
        (cartesianWrenchesList (sensorsList (metaData impl))))) ∧
  (isSixAxisForceTorqueSensorEnabled (bridgeOptions (metaData impl)) = true →
   wholeBodyAnalogSixAxisFTSensorsInterface impl = ∅ →
   noForceTorqueAggregate devList →
   ∃ ok impl',
     attachAllSixAxisForceTorqueSensors devList impl = Returned (ok, impl') ∧
     (ok = true ↔
      allExposed (SensorType:=IAnalogSensor) devList
        nrChannelsInYARPAnalogSixAxisFTSensor
        (sixAxisForceTorqueSensorsList (sensorsList (metaData impl))))).
Proof.
  split; [intros nr sensorList; by apply attachAllGenericOrAnalogSensors_unique_keys_iff|].
  split; [intros nr sensorList; by apply attachAllGenericOrAnalogSensors_unique_keys_iff|].
  split; [|split].
  - intros Henabled Hmas Hfresh.
    destruct (attachAllInertials_generic_only devList impl Henabled Hmas) as [impl' ->].
    rewrite Hfresh. eexists _, impl'. split; [reflexivity|].
    by apply attachAllGenericOrAnalogSensors_unique_keys_iff.
  - intros Henabled Hfresh.
    destruct (attachCartesianWrenchInterface_enabled devList impl Henabled) as [impl' ->].
    rewrite Hfresh. eexists _, impl'. split; [reflexivity|].
    by apply attachAllGenericOrAnalogSensors_unique_keys_iff.
  - intros Henabled Hfresh Hnone.
    destruct (attachAllSixAxisForceTorqueSensors_analog_only devList impl Henabled Hnone)
      as [impl' ->].
    rewrite Hfresh. eexists _, impl'. split; [reflexivity|].
    by apply attachAllGenericOrAnalogSensors_unique_keys_iff.
Qed.

Lemma generic_or_analog_category_first_attachment_witness :
  let devList := [genericSensorDevice "head_imu" 12;
                  genericSensorDevice "left_wrench" 6;
                  analogSensorDevice "r_leg_ft" 6] in
  let impl := constructed (withGenericAndAnalogSensors
                             ["head_imu"] ["r_leg_ft"; "r_foot_ft"] ["left_wrench"]) in
  NoDup (key <$> devList) ∧
  (∃ impl', attachAllInertials devList impl = Returned (true, impl')) ∧
  (∃ impl', attachCartesianWrenchInterface devList impl = Returned (true, impl')) ∧
  (∃ impl', attachAllSixAxisForceTorqueSensors devList impl = Returned (false, impl')) ∧
  allExposed (SensorType:=IGenericSensor) devList nrChannelsInYARPGenericIMUSensor
    ["head_imu"] ∧
  allExposed (SensorType:=IGenericSensor) devList nrChannelsInYARPGenericCartesianWrench
    ["left_wrench"] ∧
  ¬ allExposed (SensorType:=IAnalogSensor) devList nrChannelsInYARPAnalogSixAxisFTSensor
      ["r_leg_ft"; "r_foot_ft"].
Proof.
  intros devList impl.
  assert (NoDup (key <$> devList)) as Hkeys.
  { simpl. repeat (apply NoDup_cons; split;
                    [rewrite ?elem_of_cons, elem_of_nil; naive_solver|]).
    apply NoDup_nil_2. }
  assert (noForceTorqueAggregate devList) as Hnone.
  { intros dev Hdev. repeat (apply elem_of_cons in Hdev as [->|Hdev]; [reflexivity|]).
    by apply elem_of_nil in Hdev. }
  split; [exact Hkeys|].
  destruct (generic_or_analog_category_first_attachment devList impl Hkeys)
    as (_ & _ & Himu & Hwrench & Hft).
  destruct (Himu eq_refl eq_refl eq_refl) as (ok1 & impl1 & Hrun1 & Hiff1).
  destruct (Hwrench eq_refl eq_refl) as (ok2 & impl2 & Hrun2 & Hiff2).
  destruct (Hft eq_refl eq_refl Hnone) as (ok3 & impl3 & Hrun3 & Hiff3).
  assert (ok1 = true) as ->.
  { vm_compute in Hrun1. by injection Hrun1 as <- _. }
  assert (ok2 = true) as ->.
  { vm_compute in Hrun2. by injection Hrun2 as <- _. }
  assert (ok3 = false) as ->.
  { vm_compute in Hrun3. by injection Hrun3 as <- _. }
  split; [by exists impl1|]. split; [by exists impl2|]. split; [by exists impl3|].
  split; [by apply Hiff1|]. split; [by apply Hiff2|].
  intros Hall. apply Hiff3 in Hall. discriminate.
Defined.

(** ** Gating of the reads *)

Lemma preservesGate_attachAllCategories (devList : list PolyDriverDescriptor) :
  preservesGate (attachAllCategories devList).
Proof.
  unfold attachAllCategories.
  apply preservesGate_orReturnFalse;
    [apply preservesGate_attachRemappedRemoteControlBoard|].
  apply preservesGate_orReturnFalse; [apply preservesGate_attachAllInertials|].
  apply preservesGate_orReturnFalse;
    [apply preservesGate_attachAllSixAxisForceTorqueSensors|].
  apply preservesGate_orReturnFalse;
    [apply preservesGate_attachCartesianWrenchInterface|].
  apply preservesGate_orReturnFalse; [apply preservesGate_attachAllCameras|].
  apply preservesGate_returnTrue.
Qed.

(** The flags after an attachment of devices: the initialization flag is
    as before, and on an initialized bridge [driversAttached] is the
    result of the attachment. *)
Lemma attachDevices_flags (devList : list PolyDriverDescriptor)
    (impl impl' : Impl) (ok : bool) :
  attachDevices devList impl = Returned (ok, impl') →
  bridgeInitialized impl' = bridgeInitialized impl ∧
  if bridgeInitialized impl then driversAttached impl' = ok
  else ok = false ∧ impl' = impl.
Proof.
  unfold attachDevices.
  destruct (bridgeInitialized impl) eqn:Hinit; simpl.
  2:{ by intros [= <- <-]. }
  destruct (attachAllCategories devList impl) as [[b mid]| |] eqn:Hrun; try done.
  intros [= <- <-].
  apply preservesGate_attachAllCategories in Hrun.
  injection Hrun as _ Hi _.
  destruct mid. simpl in *. by rewrite Hi.
Qed.

Lemma loadConfiguration_flags (loaded : option SensorBridgeMetaData)
    (impl impl' : Impl) (ok : bool) :
  loadConfiguration loaded impl = Returned (ok, impl') →
  driversAttached impl' = driversAttached impl ∧
  if bridgeInitialized impl then ok = false ∧ impl' = impl
  else bridgeInitialized impl' = ok.
Proof.
  unfold loadConfiguration.
  destruct (bridgeInitialized impl) eqn:Hinit.
  { by intros [= <- <-]. }
  destruct loaded as [md|]; intros [= <- <-]; [|done].
  by destruct impl.
Qed.

Lemma stepBridge_flags (op : BridgeOperation) (impl impl' : Impl) (s s' : BridgeState) :
  (bridgeInitialized impl, driversAttached impl) = flagsOf s →
  stepBridge op impl s = Returned (impl', s') →
  (bridgeInitialized impl', driversAttached impl') = flagsOf s'.
Proof.
  intros Hflags. destruct op as [loaded|devList]; simpl.
  - destruct (loadConfiguration loaded impl) as [[ok mid]| |] eqn:Hload; try done.
    intros [= <- <-].
    apply loadConfiguration_flags in Hload as [Hda Hbi].
    destruct (bridgeInitialized impl) eqn:Hinit.
    + destruct Hbi as [-> ->]. rewrite Hinit.
      by destruct s.
    + rewrite Hda, Hbi.
      destruct s; simpl in Hflags; try discriminate.
      injection Hflags as ->. by destruct ok.
  - destruct (attachDevices devList impl) as [[ok mid]| |] eqn:Hattach; try done.
    intros [= <- <-].
    apply attachDevices_flags in Hattach as [Hbi Hda].
    destruct (bridgeInitialized impl) eqn:Hinit.
    + rewrite Hbi, Hda.
      destruct s; simpl in Hflags; try discriminate; by destruct ok.
    + destruct Hda as [-> ->]. rewrite Hinit.
      destruct s; simpl in Hflags; try discriminate. done.
Qed.

Lemma runBridge_flags (ops : list BridgeOperation) (impl impl' : Impl)
    (s s' : BridgeState) :
  (bridgeInitialized impl, driversAttached impl) = flagsOf s →
  runBridge ops impl s = Returned (impl', s') →
  (bridgeInitialized impl', driversAttached impl') = flagsOf s'.
Proof.
  revert impl s. induction ops as [|op rest IH]; intros impl s Hflags; simpl.
  - by intros [= <- <-].
  - destruct (stepBridge op impl s) as [[mid t]| |] eqn:Hstep; try done.
    apply IH. by eapply stepBridge_flags.
Qed.

(** C8. Start from the object as constructed, in state Uninitialized,
    and run any sequence of configuration loads and device attachments
    that returns.  Then the validity gate lets a read through exactly when
    the bridge is in state Attached, which is exactly when both state
    flags are set; in every other state the gate reports, with the name of
    the calling method, that the bridge is not ready, and every read
    operation returns nothing but that report.  After a further attachment
    the gate is open exactly when that attachment succeeded, so a failed
    re-attachment closes it. *)
Theorem reads_pass_the_gate_only_when_attached (md : SensorBridgeMetaData)
    (ops : list BridgeOperation) (impl : Impl) (s : BridgeState)
    (Hrun : runBridge ops (constructed md) Uninitialized = Returned (impl, s)) :
  (s = Attached ↔ bridgeInitialized impl = true ∧ driversAttached impl = true) ∧
  (∀ methodName : string,
     ((checkValid impl methodName).1 = true ↔ s = Attached) ∧
     (s ≠ Attached →
      checkValid impl methodName = (false, [SensorBridgeNotReady methodName])) ∧
     (∀ (A : Type) (read : Impl → A),
        readWhenValid methodName read impl
        = match s with
          | Attached => (Some (read impl), [])
          | _ => (None, [SensorBridgeNotReady methodName])
          end)) ∧
  (∀ (devList : list PolyDriverDescriptor) (ok : bool) (impl' : Impl)
     (methodName : string),
     attachDevices devList impl = Returned (ok, impl') →
     (checkValid impl' methodName).1 = ok).
Proof.
  assert ((bridgeInitialized impl, driversAttached impl) = flagsOf s) as Hflags.
  { by apply (runBridge_flags ops (constructed md) impl Uninitialized s). }
  split; [|split].
  - destruct s; simpl in Hflags; injection Hflags as -> ->; naive_solver.
  - intros methodName. unfold readWhenValid, checkValid.
    destruct s; simpl in Hflags; injection Hflags as -> ->; simpl;
      (split; [naive_solver|]); (split; [done|]); done.
  - intros devList ok impl' methodName Hattach.
    apply attachDevices_flags in Hattach as [Hbi Hda].
    unfold checkValid. rewrite Hbi.
    destruct (bridgeInitialized impl); simpl.
    + rewrite Hda. by destruct ok.
    + by destruct Hda as [-> _].
Qed.

Lemma reads_pass_the_gate_only_when_attached_witness :
  let ops := [LoadConfiguration (Some (withJoints ["torso_yaw"]));
              AttachDevices [controlBoardDevice "torso" ["torso_yaw"]];
              AttachDevices [plainDevice "torso"]] in
  ∃ impl,
    runBridge ops (constructed emptyMetaData) Uninitialized = Returned (impl, Invalid) ∧
    checkValid impl "getJointPositions"
    = (false, [SensorBridgeNotReady "getJointPositions"]).
Proof.
  intros ops.
  assert (∃ impl, runBridge ops (constructed emptyMetaData) Uninitialized
                  = Returned (impl, Invalid)) as [impl Hrun].
  { eexists. vm_compute. reflexivity. }
  exists impl. split; [exact Hrun|].
  destruct (reads_pass_the_gate_only_when_attached emptyMetaData ops impl Invalid Hrun)
    as (_ & Hgate & _).
  destruct (Hgate "getJointPositions") as (_ & Hrejected & _).
  by apply Hrejected.
Defined.
